(** * Pathfinder lead search: the Netlify function [search]

    A shallow embedding of the serverless handler (the variant with logging,
    hints and per-place failure containment) and of its helpers
    [json], [placesTextSearch], [placeDetails], [findEmailFromWebsite],
    [safeJson], [cleanGoogleError] and [sleep], followed by the properties of
    the specification.

    JavaScript values are modelled dynamically, as the code sees them: the
    request body and the upstream answers are arbitrary JSON values.
    Asynchronous effects ([fetch], [setTimeout], [console.log]) are the nodes
    of a program tree that is run against an upstream oracle and yields the
    trace of effects together with the returned value or the thrown error. *)

From Stdlib Require Import String Ascii List ZArith Bool Arith Lia DecimalString.
Import ListNotations.
Set Warnings "-register-all".
Open Scope string_scope.
Open Scope nat_scope.

(* ================================================================== *)
(** ** Strings *)

(** A string is a sequence of code units; one [ascii] stands for one code
    unit, so the model covers the code units below 256. *)

Fixpoint chars (s : string) : list ascii :=
  match s with
  | EmptyString => []
  | String c s' => c :: chars s'
  end.

Fixpoint of_chars (l : list ascii) : string :=
  match l with
  | [] => EmptyString
  | c :: l' => String c (of_chars l')
  end.

Definition code (c : ascii) : nat := nat_of_ascii c.

Definition in_range (lo hi : ascii) (c : ascii) : bool :=
  (code lo <=? code c) && (code c <=? code hi).

(** White space and line terminators of [String.prototype.trim] among the
    code units below 256: TAB, LF, VT, FF, CR, SP and NBSP. *)
Definition is_js_space (c : ascii) : bool :=
  let n := code c in
  ((9 <=? n) && (n <=? 13)) || (n =? 32) || (n =? 160).

Fixpoint trim_start (l : list ascii) : list ascii :=
  match l with
  | c :: l' => if is_js_space c then trim_start l' else l
  | [] => []
  end.

(** [s.trim()] *)
Definition trim (s : string) : string :=
  of_chars (rev (trim_start (rev (trim_start (chars s))))).

(** [s.slice(0, n)] *)
Definition slice0 (n : nat) (s : string) : string := substring 0 n s.

(** [s.startsWith(p)] *)
Definition startsWith (s p : string) : bool := prefix p s.

Definition hex_digit (n : nat) : ascii :=
  if n <? 10 then ascii_of_nat (48 + n) else ascii_of_nat (55 + n).

Definition percent (n : nat) : list ascii :=
  ["%"%char; hex_digit (n / 16); hex_digit (n mod 16)].

(** The characters [encodeURIComponent] leaves alone:
    letters, digits and [- _ . ! ~ * ' ( )]. *)
Definition uri_unreserved (c : ascii) : bool :=
  in_range "A" "Z" c || in_range "a" "z" c || in_range "0" "9" c
  || existsb (Ascii.eqb c)
       ["-"; "_"; "."; "!"; "~"; "*"; "'"; "("; ")"]%char.

(** [encodeURIComponent] on a string of code units below 256: the other
    characters are replaced by the percent-escapes of their UTF-8 bytes (one
    byte below 128, two from 128 on).  No such string holds a lone surrogate,
    so the call does not throw. *)
Definition encode_char (c : ascii) : list ascii :=
  if uri_unreserved c then [c]
  else if code c <? 128 then percent (code c)
  else percent (192 + code c / 64) ++ percent (128 + code c mod 64).

Definition encodeURIComponent (s : string) : string :=
  of_chars (flat_map encode_char (chars s)).

(* ================================================================== *)
(** ** JavaScript values *)

(** Numbers are IEEE doubles in the engine.  The code only converts them to
    booleans and to strings, and only creates them from array lengths and
    HTTP status codes, so they are kept abstract behind these operations. *)
Class NumberModel := {
  number : Type;
  (** [ToBoolean]: false on zeros and NaN *)
  number_truthy : number -> bool;
  (** [Number::toString] *)
  Number_toString : number -> string;
  (** the number that is a given non-negative integer *)
  number_of_nat : nat -> number
}.

(** The thrown values the code meets are [Error] objects, of which it reads
    [message] only. *)
Inductive exn : Type :=
| Error (message : string).

Definition message (e : exn) : string :=
  match e with Error m => m end.

Section Values.
Context {Num : NumberModel}.

Inductive JSValue : Type :=
| JUndefined
| JNull
| JBool (b : bool)
| JNum (n : number)
| JStr (s : string)
| JArr (items : list JSValue)
| JObj (props : list (string * JSValue)).

(** [ToBoolean], the test behind [!v], [v || w], [if (v)] and [v ? a : b] *)
Definition truthy (v : JSValue) : bool :=
  match v with
  | JUndefined | JNull => false
  | JBool b => b
  | JNum n => number_truthy n
  | JStr s => negb (s =? "")%string
  | JArr _ | JObj _ => true
  end.

(** [v || w] *)
Definition js_or (v w : JSValue) : JSValue := if truthy v then v else w.

Definition nullish (v : JSValue) : bool :=
  match v with
  | JUndefined | JNull => true
  | _ => false
  end.

Fixpoint assoc (k : string) (props : list (string * JSValue)) : option JSValue :=
  match props with
  | [] => None
  | (k', v) :: props' => if (k' =? k)%string then Some v else assoc k props'
  end.

(** [v.k] for a value [v] that is neither [null] nor [undefined] and a name
    [k] that no prototype defines (every name the code reads is such, but
    [startsWith], which is treated where it is called): an own property of an
    object, [undefined] otherwise. *)
Definition member (v : JSValue) (k : string) : JSValue :=
  match v with
  | JObj props => match assoc k props with Some x => x | None => JUndefined end
  | _ => JUndefined
  end.

(** [v.k]: [None] stands for the [TypeError] of reading a property of
    [null] or [undefined]. *)
Definition get (v : JSValue) (k : string) : option JSValue :=
  if nullish v then None else Some (member v k).

(** [v?.k] *)
Definition get_opt (v : JSValue) (k : string) : JSValue :=
  if nullish v then JUndefined else member v k.

(** [ToString], as in [String(v)] and in template literals; [None] stands for
    the [TypeError] of an object that cannot be converted: a plain object whose
    own [toString] property shadows [Object.prototype.toString] with a value
    that is not callable.  An array joins the conversions of its elements with
    commas, [null] and [undefined] elements giving the empty string. *)
Fixpoint ToString (v : JSValue) : option string :=
  match v with
  | JUndefined => Some "undefined"
  | JNull => Some "null"
  | JBool true => Some "true"
  | JBool false => Some "false"
  | JNum n => Some (Number_toString n)
  | JStr s => Some s
  | JArr items =>
      (fix join (first : bool) (l : list JSValue) : option string :=
         match l with
         | [] => Some ""
         | x :: l' =>
             match (if nullish x then Some "" else ToString x), join false l' with
             | Some sx, Some sl => Some ((if first then "" else ",") ++ sx ++ sl)
             | _, _ => None
             end
         end) true items
  | JObj props =>
      match assoc "toString" props with
      | Some _ => None
      | None => Some "[object Object]"
      end
  end.

(** The values a [for (const p of v)] loop runs over; [None] stands for the
    [TypeError] of a value that is not iterable.  A string iterates over its
    characters. *)
Definition iterate (v : JSValue) : option (list JSValue) :=
  match v with
  | JArr items => Some items
  | JStr s => Some (map (fun c => JStr (String c EmptyString)) (chars s))
  | _ => None
  end.

Definition is_string (v : JSValue) : bool :=
  match v with
  | JStr _ => true
  | _ => false
  end.

End Values.

(* ================================================================== *)
(** ** The host: built-ins the code calls *)

(** [JSON.parse] and [JSON.stringify] are the engine's; [JSON_parse] gives
    [None] where [JSON.parse] throws a [SyntaxError].  [engine_message] is
    the engine's wording of the error it raises itself at a given place. *)
Class Host {Num : NumberModel} := {
  JSON_parse : string -> option JSValue;
  JSON_stringify : JSValue -> string;
  engine_message : string -> string
}.

Definition TypeError {Num : NumberModel} {H : Host} (what : string) : exn :=
  Error (engine_message what).

Definition SyntaxError {Num : NumberModel} {H : Host} (what : string) : exn :=
  Error (engine_message what).

(* ================================================================== *)
(** ** Effects *)

(** The argument of [fetch]. *)
Record Request : Type := {
  url : string;
  method : string;
  req_headers : list (string * string);
  req_body : option string
}.

(** What the code reads of the [Response] of a resolved [fetch]: [ok],
    [status] and the outcome of [text()], which may reject. *)
Record Response : Type := {
  ok : bool;
  status : nat;
  text : exn + string
}.

(** A [fetch] rejects (network error, invalid URL, abort by the timer of
    [findEmailFromWebsite]) or resolves to a response. *)
Inductive FetchResult : Type :=
| FetchReject (e : exn)
| FetchResolve (r : Response).

(** The upstream: the answer to each request. *)
Definition World : Type := Request -> FetchResult.

Section Programs.
Context {Num : NumberModel} {H : Host}.

(** An effect that a run performs, in order. *)
Inductive Effect : Type :=
| EFetch (rq : Request)
| ESleep (ms : nat)
| ELog (label : string) (payload : JSValue).

(** An asynchronous computation: it returns, throws, or performs an effect
    and goes on. *)
Inductive Prog (A : Type) : Type :=
| Ret (a : A)
| Throw (e : exn)
| Fetch (rq : Request) (k : FetchResult -> Prog A)
| Sleep (ms : nat) (k : Prog A)
| Log (label : string) (payload : JSValue) (k : Prog A).

Arguments Ret {A} a.
Arguments Throw {A} e.
Arguments Fetch {A} rq k.
Arguments Sleep {A} ms k.
Arguments Log {A} label payload k.

Fixpoint bind {A B : Type} (m : Prog A) (f : A -> Prog B) : Prog B :=
  match m with
  | Ret a => f a
  | Throw e => Throw e
  | Fetch rq k => Fetch rq (fun r => bind (k r) f)
  | Sleep ms k => Sleep ms (bind k f)
  | Log l p k => Log l p (bind k f)
  end.

(** [try { m } catch (e) { h e }] *)
Fixpoint try_catch {A : Type} (m : Prog A) (h : exn -> Prog A) : Prog A :=
  match m with
  | Ret a => Ret a
  | Throw e => h e
  | Fetch rq k => Fetch rq (fun r => try_catch (k r) h)
  | Sleep ms k => Sleep ms (try_catch k h)
  | Log l p k => Log l p (try_catch k h)
  end.

(** A value, or the [TypeError] raised at [what]. *)
Definition or_throw {A : Type} (what : string) (o : option A) : Prog A :=
  match o with
  | Some a => Ret a
  | None => Throw (TypeError what)
  end.

(** [await sleep(ms)] *)
Definition sleep (ms : nat) : Prog unit := Sleep ms (Ret tt).

(** [console.log(label, payload)] *)
Definition console_log (label : string) (payload : JSValue) : Prog unit :=
  Log label payload (Ret tt).

(** [await fetch(rq)], then [await resp.text()] *)
Definition fetch (rq : Request) : Prog Response :=
  Fetch rq (fun r =>
    match r with
    | FetchReject e => Throw e
    | FetchResolve resp => Ret resp
    end).

Definition resp_text (resp : Response) : Prog string :=
  match text resp with
  | inl e => Throw e
  | inr t => Ret t
  end.

(** Running a computation against an upstream: the effects performed, and
    the value returned ([inr]) or the error thrown ([inl]). *)
Fixpoint run {A : Type} (w : World) (m : Prog A) : list Effect * (exn + A) :=
  match m with
  | Ret a => ([], inr a)
  | Throw e => ([], inl e)
  | Fetch rq k => let (t, r) := run w (k (w rq)) in (EFetch rq :: t, r)
  | Sleep ms k => let (t, r) := run w k in (ESleep ms :: t, r)
  | Log l p k => let (t, r) := run w k in (ELog l p :: t, r)
  end.

(** The requests sent during a run. *)
Fixpoint requests (t : list Effect) : list Request :=
  match t with
  | [] => []
  | EFetch rq :: t' => rq :: requests t'
  | _ :: t' => requests t'
  end.

End Programs.

Arguments Ret {Num A} a.
Arguments Throw {Num A} e.
Arguments Fetch {Num A} rq k.
Arguments Sleep {Num A} ms k.
Arguments Log {Num A} label payload k.

Declare Scope prog_scope.
Delimit Scope prog_scope with prog.
Notation "x <- m ;; k" := (bind m (fun x => k))
  (at level 61, m at next level, right associativity) : prog_scope.
Notation "m ;;; k" := (bind m (fun _ => k))
  (at level 61, right associativity) : prog_scope.

(* ================================================================== *)
(** ** Regular expressions *)

(** The fragment of the regular expressions of the language that the two
    patterns of [findEmailFromWebsite] are written in: a sequence of literal
    characters, greedy repetitions [[...]{min,}] of a character class
    ([+] is [{1,}]), word boundaries and the brackets of one capturing
    group, matched by backtracking, leftmost start first. *)
Module RegExp.

(** A character class, as the list of its ranges; a single character is
    the range from itself to itself. *)
Definition class : Type := list (ascii * ascii).

Inductive item : Type :=
| Chr (c : ascii)
| Rep (min : nat) (c : class)
| WordB
| GroupOpen
| GroupClose.

Record regex : Type := {
  source : list item;
  ignoreCase : bool
}.

Definition lit (s : string) : list item := map Chr (chars s).

(** Case folding of the flag [i] without the flag [u]: a character is
    compared through its upper case, and no character from 128 on folds to
    one below 128, so only the letters a-z are concerned by patterns written
    in characters below 128. *)
Definition to_upper (c : ascii) : ascii :=
  if in_range "a" "z" c then ascii_of_nat (code c - 32) else c.

Definition to_lower (c : ascii) : ascii :=
  if in_range "A" "Z" c then ascii_of_nat (code c + 32) else c.

Definition chr_matches (i : bool) (p x : ascii) : bool :=
  if i then Ascii.eqb (to_upper p) (to_upper x) else Ascii.eqb p x.

Definition class_matches (i : bool) (c : class) (x : ascii) : bool :=
  existsb (fun r : ascii * ascii =>
             in_range (fst r) (snd r) x
             || (i && (in_range (fst r) (snd r) (to_upper x)
                       || in_range (fst r) (snd r) (to_lower x)))) c.

(** The word characters of [\b]: letters, digits and the underscore. *)
Definition is_word (x : ascii) : bool :=
  in_range "a" "z" x || in_range "A" "Z" x || in_range "0" "9" x
  || Ascii.eqb x "_".

Definition word_before (prev : option ascii) : bool :=
  match prev with
  | Some x => is_word x
  | None => false
  end.

Definition word_at (s : list ascii) : bool :=
  match s with
  | x :: _ => is_word x
  | [] => false
  end.

(** The capturing group, as the input left when its brackets were passed. *)
Definition captures : Type := (option (list ascii) * option (list ascii))%type.

Definition no_capture : captures := (None, None).

(** Greedy repetition: take one more character when possible, and only if
    the rest of the pattern then fails, stop here (if enough were taken). *)
Fixpoint greedy {R : Type} (test : ascii -> bool)
    (k : option ascii -> list ascii -> option R)
    (need : nat) (prev : option ascii) (s : list ascii) : option R :=
  match s with
  | x :: s' =>
      if test x then
        match greedy test k (pred need) (Some x) s' with
        | Some r => Some r
        | None => if need =? 0 then k prev s else None
        end
      else if need =? 0 then k prev s else None
  | [] => if need =? 0 then k prev s else None
  end.

(** Matching the items at the head of [s], [prev] being the character before
    it: the input left after the match, and the captures. *)
Fixpoint match_items (i : bool) (items : list item)
    (prev : option ascii) (s : list ascii) (cap : captures)
    : option (list ascii * captures) :=
  match items with
  | [] => Some (s, cap)
  | Chr p :: items' =>
      match s with
      | x :: s' =>
          if chr_matches i p x then match_items i items' (Some x) s' cap
          else None
      | [] => None
      end
  | Rep n c :: items' =>
      greedy (class_matches i c)
             (fun prev' s' => match_items i items' prev' s' cap) n prev s
  | WordB :: items' =>
      if xorb (word_before prev) (word_at s)
      then match_items i items' prev s cap else None
  | GroupOpen :: items' => match_items i items' prev s (Some s, snd cap)
  | GroupClose :: items' => match_items i items' prev s (fst cap, Some s)
  end.

(** The leftmost start at which the items match: the input from that start
    on, with the result of the match. *)
Fixpoint search (i : bool) (items : list item)
    (prev : option ascii) (s : list ascii)
    : option (list ascii * (list ascii * captures)) :=
  match match_items i items prev s no_capture with
  | Some r => Some (s, r)
  | None =>
      match s with
      | [] => None
      | x :: s' => search i items (Some x) s'
      end
  end.

(** The characters of [from] before its suffix [to]. *)
Definition between (from to : list ascii) : list ascii :=
  firstn (length from - length to) from.

(** [str.match(re)] for a pattern without the flag [g]: [None] for [null],
    else the match array: the whole match at index 0 and, when the pattern
    has a group, its capture at index 1. *)
Definition str_match (str : string) (re : regex) : option (list string) :=
  match search (ignoreCase re) (source re) None (chars str) with
  | None => None
  | Some (from, (rest, cap)) =>
      Some (of_chars (between from rest)
            :: match cap with
               | (Some o, Some c) => [of_chars (between o c)]
               | _ => []
               end)
  end.

End RegExp.

(* ================================================================== *)
(** ** The function *)

(** What the handler reads of the event. *)
Record Event : Type := {
  httpMethod : string;
  path : option string;
  body : option string
}.

(** The object the handler returns. *)
Record HttpResponse : Type := {
  statusCode : nat;
  headers : list (string * string);
  resp_body : string
}.

Section Handler.
Context {Num : NumberModel} {H : Host}.
Open Scope prog_scope.

Definition cors_headers : list (string * string) :=
  [ ("Access-Control-Allow-Origin", "*");
    ("Access-Control-Allow-Headers", "Content-Type");
    ("Access-Control-Allow-Methods", "POST, OPTIONS");
    ("Content-Type", "application/json; charset=utf-8");
    ("Cache-Control", "no-store") ].

Definition json (hs : list (string * string)) (code : nat) (obj : JSValue)
    : HttpResponse :=
  {| statusCode := code; headers := hs; resp_body := JSON_stringify obj |}.

Definition safeJson (t : string) : JSValue :=
  match JSON_parse t with
  | Some v => v
  | None => JNull
  end.

(** [data?.error?.message || data?.message || (typeof text === "string" ? text : "")],
    cut to its first 500 characters; [text] is a string. *)
Definition cleanGoogleError (t : string) : Prog string :=
  let data := safeJson t in
  let msg :=
    js_or (get_opt (get_opt data "error") "message")
          (js_or (get_opt data "message") (JStr t)) in
  s <- or_throw "String(msg)" (ToString msg) ;;
  Ret (slice0 500 s).

Definition status_text (resp : Response) : string :=
  Number_toString (number_of_nat (status resp)).

Definition search_url : string :=
  "https://places.googleapis.com/v1/places:searchText".

Definition search_request (apiKey query : string) : Request :=
  {| url := search_url;
     method := "POST";
     req_headers :=
       [ ("Content-Type", "application/json");
         ("X-Goog-Api-Key", apiKey);
         ("X-Goog-FieldMask", "places.id,places.displayName,places.formattedAddress") ];
     req_body := Some (JSON_stringify (JObj
       [ ("textQuery", JStr query);
         ("regionCode", JStr "NZ");
         ("languageCode", JStr "en");
         ("maxResultCount", JNum (number_of_nat 20)) ])) |}.

Definition placesTextSearch (apiKey query : string) : Prog JSValue :=
  resp <- fetch (search_request apiKey query) ;;
  t <- resp_text resp ;;
  if negb (ok resp) then
    m <- cleanGoogleError t ;;
    Throw (Error ("Places Text Search failed (" ++ status_text resp ++ "): " ++ m))
  else
    let data := safeJson t in
    Ret (js_or (get_opt data "places") (JArr [])).

Definition details_request (apiKey id : string) : Request :=
  {| url := "https://places.googleapis.com/v1/places/" ++ encodeURIComponent id;
     method := "GET";
     req_headers :=
       [ ("X-Goog-Api-Key", apiKey);
         ("X-Goog-FieldMask", "websiteUri") ];
     req_body := None |}.

Definition placeDetails (apiKey : string) (placeId : JSValue) : Prog JSValue :=
  id <- or_throw "encodeURIComponent(placeId)" (ToString placeId) ;;
  resp <- fetch (details_request apiKey id) ;;
  t <- resp_text resp ;;
  if negb (ok resp) then
    m <- cleanGoogleError t ;;
    Throw (Error ("Place Details failed (" ++ status_text resp ++ "): " ++ m))
  else
    Ret (js_or (safeJson t) (JObj [])).

(** [[A-Z0-9._%+-]], [[A-Z0-9.-]] and [[A-Z]] *)
Definition local_class : RegExp.class :=
  [ ("A", "Z"); ("0", "9"); (".", "."); ("_", "_"); ("%", "%"); ("+", "+");
    ("-", "-") ]%char.

Definition domain_class : RegExp.class :=
  [ ("A", "Z"); ("0", "9"); (".", "."); ("-", "-") ]%char.

Definition alpha_class : RegExp.class := [ ("A", "Z") ]%char.

(** [[A-Z0-9._%+-]+@[A-Z0-9.-]+\.[A-Z]{2,}] *)
Definition email_items : list RegExp.item :=
  [ RegExp.Rep 1 local_class; RegExp.Chr "@"; RegExp.Rep 1 domain_class;
    RegExp.Chr "."; RegExp.Rep 2 alpha_class ].

(** [/mailto:([A-Z0-9._%+-]+@[A-Z0-9.-]+\.[A-Z]{2,})/i] *)
Definition mailto_re : RegExp.regex :=
  {| RegExp.source :=
       RegExp.lit "mailto:" ++ [RegExp.GroupOpen] ++ email_items ++ [RegExp.GroupClose];
     RegExp.ignoreCase := true |}.

(** [/\b[A-Z0-9._%+-]+@[A-Z0-9.-]+\.[A-Z]{2,}\b/i] *)
Definition plain_re : RegExp.regex :=
  {| RegExp.source := [RegExp.WordB] ++ email_items ++ [RegExp.WordB];
     RegExp.ignoreCase := true |}.

(** [arr[n]] on a match array *)
Definition index (arr : list string) (n : nat) : JSValue :=
  match nth_error arr n with
  | Some x => JStr x
  | None => JUndefined
  end.

(** The two matches on the page and the value returned from them. *)
Definition email_in (html : string) : JSValue :=
  match RegExp.str_match html mailto_re with
  | Some mailto => index mailto 1
  | None =>
      match RegExp.str_match html plain_re with
      | Some plain => index plain 0
      | None => JStr ""
      end
  end.

Definition website_request (u : string) : Request :=
  {| url := u;
     method := "GET";
     req_headers := [ ("User-Agent", "Pathfinder/1.0") ];
     req_body := None |}.

(** The timer of 6000 ms aborts the [fetch], which then rejects: that is one
    of the rejections of the upstream.  A truthy [url] that is not a string
    has no [startsWith] method, and calling it throws before the [try]. *)
Definition findEmailFromWebsite (u : JSValue) : Prog JSValue :=
  if negb (truthy u) then Ret (JStr "")
  else
    match u with
    | JStr s =>
        if negb (startsWith s "http") then Ret (JStr "")
        else
          try_catch
            (resp <- fetch (website_request s) ;;
             if negb (ok resp) then Ret (JStr "")
             else
               html <- resp_text resp ;;
               Ret (email_in html))
            (fun _ => Ret (JStr ""))
    | _ => Throw (TypeError "url.startsWith is not a function")
    end.


(** One [LeadResult]. *)
Definition lead (name address website email google_maps_url : JSValue) : JSValue :=
  JObj [ ("name", name); ("address", address); ("website", website);
         ("email", email); ("google_maps_url", google_maps_url) ].

Definition lookup_failed (placeId : JSValue) (e : exn) : Prog unit :=
  console_log "Website/email lookup failed:"
    (JObj [ ("placeId", placeId); ("error", JStr (message e)) ]).

(** The [try] block of the loop, returning the values of [website] and
    [email] after it.  The [catch] clause leaves the two variables as they
    were assigned when the error was thrown: both still empty until
    [placeDetails] has returned, [website] assigned from then on.  The clause
    is therefore written once for each of the two stretches of the block. *)
Definition enrich (apiKey : string) (placeId : JSValue) : Prog (JSValue * JSValue) :=
  try_catch
    (sleep 120 ;;;
     details <- placeDetails apiKey placeId ;;
     website <- or_throw "details.websiteUri" (get details "websiteUri") ;;
     let website := js_or website (JStr "") in
     if truthy website then
       try_catch
         (sleep 120 ;;;
          email <- findEmailFromWebsite website ;;
          Ret (website, email))
         (fun e => lookup_failed placeId e ;;; Ret (website, JStr ""))
     else Ret (website, JStr ""))
    (fun e => lookup_failed placeId e ;;; Ret (JStr "", JStr "")).

(** The body of the loop over the places: the result pushed for [p]. *)
Definition place_result (apiKey : string) (includeWebsiteEmail p : JSValue)
    : Prog JSValue :=
  placeId <- or_throw "p.id" (get p "id") ;;
  displayName <- or_throw "p.displayName" (get p "displayName") ;;
  let name := js_or (get_opt displayName "text") (JStr "") in
  formattedAddress <- or_throw "p.formattedAddress" (get p "formattedAddress") ;;
  let address := js_or formattedAddress (JStr "") in
  we <- (if truthy includeWebsiteEmail && truthy placeId
         then enrich apiKey placeId
         else Ret (JStr "", JStr "")) ;;
  google_maps_url <-
    (if truthy placeId then
       id <- or_throw "placeId" (ToString placeId) ;;
       Ret (JStr ("https://www.google.com/maps/place/?q=place_id:" ++ id))
     else Ret (JStr "")) ;;
  Ret (lead name address (fst we) (snd we) google_maps_url).

(** [for (const p of places) { ... results.push(...) }] *)
Fixpoint for_places (step : JSValue -> Prog JSValue) (places results : list JSValue)
    : Prog (list JSValue) :=
  match places with
  | [] => Ret results
  | p :: places' =>
      r <- step p ;;
      for_places step places' (results ++ [r])
  end.

(** The arrows of the hint are kept as they are in the file, in UTF-8:
    three characters each. *)
Definition missing_key : JSValue :=
  JObj [ ("error", JStr "Missing GOOGLE_MAPS_API_KEY");
         ("hint", JStr "Add GOOGLE_MAPS_API_KEY in Netlify → Site configuration → Environment variables, then redeploy.") ].

Definition invalid_json : JSValue :=
  JObj [ ("error", JStr "Invalid JSON body");
         ("hint", JStr "Ensure request body is valid JSON with businessType and city.") ].

Definition fields_required : JSValue :=
  JObj [ ("error", JStr "businessType and city required");
         ("example", JObj [ ("businessType", JStr "kitchen designer");
                            ("city", JStr "Christchurch");
                            ("includeWebsiteEmail", JBool false) ]) ].

Definition incoming (event : Event) : JSValue :=
  JObj [ ("method", JStr (httpMethod event));
         ("path", match path event with Some p => JStr p | None => JUndefined end);
         ("hasBody", JBool (match body event with
                            | Some b => negb (b =? "")%string
                            | None => false
                            end)) ].

(** [event.body || "{}"] *)
Definition body_text (event : Event) : string :=
  match body event with
  | Some b => if (b =? "")%string then "{}" else b
  | None => "{}"
  end.

(** The [try] block of the handler; [API_KEY] is
    [process.env.GOOGLE_MAPS_API_KEY], [None] when the variable is not set. *)
Definition handler_try (API_KEY : option string) (event : Event) : Prog HttpResponse :=
  console_log "Incoming request:" (incoming event) ;;;
  match API_KEY with
  | None => Ret (json cors_headers 500 missing_key)
  | Some apiKey =>
      if (apiKey =? "")%string then Ret (json cors_headers 500 missing_key)
      else
        match JSON_parse (body_text event) with
        | None => Ret (json cors_headers 400 invalid_json)
        | Some parsed =>
            businessType <- or_throw "body.businessType" (get parsed "businessType") ;;
            city <- or_throw "body.city" (get parsed "city") ;;
            includeWebsiteEmail <-
              or_throw "body.includeWebsiteEmail" (get parsed "includeWebsiteEmail") ;;
            if negb (truthy businessType) || negb (truthy city) then
              Ret (json cors_headers 400 fields_required)
            else
              bt <- or_throw "String(businessType)" (ToString businessType) ;;
              c <- or_throw "String(city)" (ToString city) ;;
              let query := trim bt ++ " in " ++ trim c ++ ", New Zealand" in
              console_log "Search query:" (JStr query) ;;;
              places <- placesTextSearch apiKey query ;;
              items <- or_throw "places is not iterable" (iterate places) ;;
              results <- for_places (place_result apiKey includeWebsiteEmail) items [] ;;
              Ret (json cors_headers 200
                     (JObj [ ("query", JStr query);
                             ("count", JNum (number_of_nat (length results)));
                             ("results", JArr results) ]))
        end
  end.

Definition unhandled (err : exn) : JSValue :=
  JObj [ ("error", js_or (JStr (message err)) (JStr "Server error"));
         ("hint", JStr "Check Netlify Functions logs for details.") ].

Definition handler (API_KEY : option string) (event : Event) : Prog HttpResponse :=
  if (httpMethod event =? "OPTIONS")%string then
    Ret {| statusCode := 204; headers := cors_headers; resp_body := "" |}
  else if negb (httpMethod event =? "POST")%string then
    Ret (json cors_headers 405 (JObj [ ("error", JStr "Method not allowed. Use POST.") ]))
  else
    try_catch (handler_try API_KEY event)
      (fun err =>
         console_log "Unhandled error:" (JObj [ ("message", JStr (message err)) ]) ;;;
         Ret (json cors_headers 500 (unhandled err))).

End Handler.

(* ================================================================== *)
(** ** The terser variant, [netlify/functions/search.js] *)

(** The same function without logging, without the [try] around the
    lookups of one place, and with [JSON.parse] called bare. *)
Module Terse.
Section Handler.
Context {Num : NumberModel} {H : Host}.
Open Scope prog_scope.

Definition cors_headers : list (string * string) :=
  [ ("Access-Control-Allow-Origin", "*");
    ("Access-Control-Allow-Headers", "Content-Type");
    ("Access-Control-Allow-Methods", "POST, OPTIONS");
    ("Content-Type", "application/json; charset=utf-8") ].

Definition respond (code : nat) (obj : JSValue) : HttpResponse :=
  {| statusCode := code; headers := cors_headers; resp_body := JSON_stringify obj |}.

(** [JSON.parse(t)] *)
Definition parse (t : string) : Prog JSValue :=
  match JSON_parse t with
  | Some v => Ret v
  | None => Throw (SyntaxError "JSON.parse")
  end.

Definition placesTextSearch (apiKey query : string) : Prog JSValue :=
  resp <- fetch (search_request apiKey query) ;;
  t <- resp_text resp ;;
  if negb (ok resp) then Throw (Error t)
  else
    data <- parse t ;;
    places <- or_throw "JSON.parse(text).places" (get data "places") ;;
    Ret (js_or places (JArr [])).

Definition details_request (apiKey id : string) : Request :=
  {| url := "https://places.googleapis.com/v1/places/" ++ id;
     method := "GET";
     req_headers :=
       [ ("X-Goog-Api-Key", apiKey);
         ("X-Goog-FieldMask", "websiteUri") ];
     req_body := None |}.

Definition placeDetails (apiKey : string) (placeId : JSValue) : Prog JSValue :=
  id <- or_throw "placeId" (ToString placeId) ;;
  resp <- fetch (details_request apiKey id) ;;
  t <- resp_text resp ;;
  if negb (ok resp) then Throw (Error t)
  else parse t.

(** Without the timer, the [fetch] is the same. *)
Definition findEmailFromWebsite (u : JSValue) : Prog JSValue :=
  if negb (truthy u) then Ret (JStr "")
  else
    match u with
    | JStr s =>
        if negb (startsWith s "http") then Ret (JStr "")
        else
          try_catch
            (resp <- fetch (website_request s) ;;
             if negb (ok resp) then Ret (JStr "")
             else
               html <- resp_text resp ;;
               Ret (email_in html))
            (fun _ => Ret (JStr ""))
    | _ => Throw (TypeError "url.startsWith is not a function")
    end.

Definition place_result (apiKey : string) (includeWebsiteEmail p : JSValue)
    : Prog JSValue :=
  placeId <- or_throw "p.id" (get p "id") ;;
  displayName <- or_throw "p.displayName" (get p "displayName") ;;
  let name := js_or (get_opt displayName "text") (JStr "") in
  formattedAddress <- or_throw "p.formattedAddress" (get p "formattedAddress") ;;
  let address := js_or formattedAddress (JStr "") in
  we <- (if truthy includeWebsiteEmail && truthy placeId then
           sleep 120 ;;;
           details <- placeDetails apiKey placeId ;;
           website <- or_throw "details.websiteUri" (get details "websiteUri") ;;
           let website := js_or website (JStr "") in
           sleep 120 ;;;
           email <- findEmailFromWebsite website ;;
           Ret (website, email)
         else Ret (JStr "", JStr "")) ;;
  google_maps_url <-
    (if truthy placeId then
       id <- or_throw "placeId" (ToString placeId) ;;
       Ret (JStr ("https://www.google.com/maps/place/?q=place_id:" ++ id))
     else Ret (JStr "")) ;;
  Ret (lead name address (fst we) (snd we) google_maps_url).

Definition handler_try (API_KEY : option string) (event : Event) : Prog HttpResponse :=
  if negb (httpMethod event =? "POST")%string then
    Ret (respond 405 (JObj [ ("error", JStr "Method not allowed") ]))
  else
    let missing := respond 500 (JObj [ ("error", JStr "Missing GOOGLE_MAPS_API_KEY") ]) in
    match API_KEY with
    | None => Ret missing
    | Some apiKey =>
        if (apiKey =? "")%string then Ret missing
        else
          parsed <- parse (body_text event) ;;
          businessType <- or_throw "businessType" (get parsed "businessType") ;;
          city <- or_throw "city" (get parsed "city") ;;
          includeWebsiteEmail <-
            or_throw "includeWebsiteEmail" (get parsed "includeWebsiteEmail") ;;
          if negb (truthy businessType) || negb (truthy city) then
            Ret (respond 400 (JObj [ ("error", JStr "businessType and city required") ]))
          else
            bt <- or_throw "businessType" (ToString businessType) ;;
            c <- or_throw "city" (ToString city) ;;
            let query := bt ++ " in " ++ c ++ ", New Zealand" in
            places <- placesTextSearch apiKey query ;;
            items <- or_throw "places is not iterable" (iterate places) ;;
            results <- for_places (place_result apiKey includeWebsiteEmail) items [] ;;
            Ret (respond 200 (JObj [ ("query", JStr query); ("results", JArr results) ]))
    end.

Definition handler (API_KEY : option string) (event : Event) : Prog HttpResponse :=
  if (httpMethod event =? "OPTIONS")%string then
    Ret {| statusCode := 204; headers := cors_headers; resp_body := "" |}
  else
    try_catch (handler_try API_KEY event)
      (fun err =>
         Ret (respond 500
                (JObj [ ("error", js_or (JStr (message err)) (JStr "Server error")) ]))).

End Handler.
End Terse.

(* ================================================================== *)
(** ** A host and upstreams to run the function on *)

(** Numbers are the integers, [JSON.stringify] is written out, and
    [JSON.parse] knows the documents of a list, each by its text. *)
Module Sample.

#[export] Instance ZNumber : NumberModel :=
  {| number := Z;
     number_truthy := fun z => negb (z =? 0)%Z;
     Number_toString := fun z => NilZero.string_of_int (Z.to_int z);
     number_of_nat := Z.of_nat |}.

Definition quote_char : ascii := ascii_of_nat 34.
Definition backslash : ascii := ascii_of_nat 92.

Definition escape (c : ascii) : list ascii :=
  let n := code c in
  if (n =? 34) || (n =? 92) then [backslash; c]
  else if n =? 8 then [backslash; "b"%char]
  else if n =? 9 then [backslash; "t"%char]
  else if n =? 10 then [backslash; "n"%char]
  else if n =? 12 then [backslash; "f"%char]
  else if n =? 13 then [backslash; "r"%char]
  else if n <? 32 then
    [backslash; "u"; "0"; "0"; RegExp.to_lower (hex_digit (n / 16));
     RegExp.to_lower (hex_digit (n mod 16))]%char
  else [c].

Definition quote (s : string) : string :=
  of_chars (quote_char :: flat_map escape (chars s) ++ [quote_char]).

(** [JSON.stringify]; [None] for [undefined], which an array prints as
    [null] and an object leaves out. *)
Fixpoint stringify (v : JSValue) : option string :=
  match v with
  | JUndefined => None
  | JNull => Some "null"
  | JBool true => Some "true"
  | JBool false => Some "false"
  | JNum n => Some (Number_toString n)
  | JStr s => Some (quote s)
  | JArr items =>
      Some ("[" ++
        (fix go (first : bool) (l : list JSValue) : string :=
           match l with
           | [] => ""
           | x :: l' =>
               (if first then "" else ",")
               ++ match stringify x with Some t => t | None => "null" end
               ++ go false l'
           end) true items ++ "]")
  | JObj props =>
      Some ("{" ++
        (fix go (first : bool) (l : list (string * JSValue)) : string :=
           match l with
           | [] => ""
           | (k, x) :: l' =>
               match stringify x with
               | Some t => (if first then "" else ",") ++ quote k ++ ":" ++ t ++ go false l'
               | None => go first l'
               end
           end) true props ++ "}")
  end.

Definition to_text (v : JSValue) : string :=
  match stringify v with
  | Some t => t
  | None => "undefined"
  end.

Definition place (id name address : string) : JSValue :=
  JObj [ ("id", JStr id); ("displayName", JObj [ ("text", JStr name) ]);
         ("formattedAddress", JStr address) ].

Definition request_body (businessType city : string) (includeWebsiteEmail : bool)
    : JSValue :=
  JObj [ ("businessType", JStr businessType); ("city", JStr city);
         ("includeWebsiteEmail", JBool includeWebsiteEmail) ].

Definition acme : JSValue := place "p1" "Acme Kitchens" "1 Main St".
Definition best : JSValue := place "p2" "Best Benches" "2 High St".
Definition no_id : JSValue := place "" "Corner Cabinets" "3 Low St".
Definition odd_name : JSValue :=
  JObj [ ("id", JStr "p4"); ("displayName", JObj [ ("text", JNum 7%Z) ]) ].

Definition places_of (l : list JSValue) : JSValue := JObj [ ("places", JArr l) ].
Definition website_of (v : JSValue) : JSValue := JObj [ ("websiteUri", v) ].

(** The documents [JSON.parse] knows. *)
Definition documents : list JSValue :=
  [ JObj []; JNull; JNum 5%Z; JArr []; JBool true; JStr "kitchen designer";
    request_body "kitchen designer" "Christchurch" false;
    request_body "kitchen designer" "Christchurch" true;
    request_body "   " "Christchurch" false;
    request_body "" "Christchurch" false;
    places_of [];
    places_of [acme];
    places_of [acme; best; no_id];
    places_of [odd_name];
    website_of (JStr "https://acme.example");
    website_of (JStr "https://best.example");
    website_of (JNum 7%Z) ].

Definition parse (t : string) : option JSValue :=
  find (fun v => (to_text v =? t)%string) documents.

#[export] Instance host : Host :=
  {| JSON_parse := parse;
     JSON_stringify := to_text;
     engine_message := fun what => what |}.

(** An upstream given by the answer at each address; any other [fetch]
    rejects. *)
Definition upstream (routes : list (string * FetchResult)) : World :=
  fun rq =>
    match find (fun r => (fst r =? url rq)%string) routes with
    | Some r => snd r
    | None => FetchReject (Error "fetch failed")
    end.

Definition answer (code : nat) (t : string) : FetchResult :=
  FetchResolve {| ok := (200 <=? code) && (code <=? 299); status := code; text := inr t |}.

Definition details_url (id : string) : string :=
  "https://places.googleapis.com/v1/places/" ++ id.

Definition acme_page : string :=
  "<p>sales@acme.example</p><a href='mailto:test@example.com'>Write to us</a>".

Definition best_page : string :=
  "<footer>Contact jane@company.co.nz today</footer>".

(** Every lookup succeeds. *)
Definition all_well : World :=
  upstream
    [ (search_url, answer 200 (to_text (places_of [acme; best; no_id])));
      (details_url "p1", answer 200 (to_text (website_of (JStr "https://acme.example"))));
      (details_url "p2", answer 200 (to_text (website_of (JStr "https://best.example"))));
      ("https://acme.example", answer 200 acme_page);
      ("https://best.example", answer 200 best_page) ].

(** The detail lookup of the second place fails. *)
Definition details_down : World :=
  upstream
    [ (search_url, answer 200 (to_text (places_of [acme; best; no_id])));
      (details_url "p1", answer 200 (to_text (website_of (JStr "https://acme.example"))));
      (details_url "p2", answer 503 "Service Unavailable");
      ("https://acme.example", answer 200 acme_page);
      ("https://best.example", answer 200 best_page) ].

(** The detail lookup of the second place answers a number for the
    address of the website. *)
Definition odd_website : World :=
  upstream
    [ (search_url, answer 200 (to_text (places_of [acme; best; no_id])));
      (details_url "p1", answer 200 (to_text (website_of (JStr "https://acme.example"))));
      (details_url "p2", answer 200 (to_text (website_of (JNum 7%Z))));
      ("https://acme.example", answer 200 acme_page) ].

(** The search answers a place whose display name is a number. *)
Definition odd_search : World :=
  upstream [ (search_url, answer 200 (to_text (places_of [odd_name]))) ].

Definition one_place : World :=
  upstream [ (search_url, answer 200 (to_text (places_of [acme]))) ].

(** As [one_place] for the search, with a website beside. *)
Definition one_place_and_a_site : World :=
  upstream [ (search_url, answer 200 (to_text (places_of [acme])));
             ("https://acme.example", answer 200 acme_page) ].

Definition no_places : World :=
  upstream [ (search_url, answer 200 (to_text (places_of []))) ].

Definition post (b : option string) : Event :=
  {| httpMethod := "POST"; path := Some "/.netlify/functions/search"; body := b |}.

Definition api_key : option string := Some "test-key".

Definition search_for (includeWebsiteEmail : bool) : Event :=
  post (Some (to_text (request_body "kitchen designer" "Christchurch"
                         includeWebsiteEmail))).

Definition maps_url (id : string) : JSValue :=
  JStr ("https://www.google.com/maps/place/?q=place_id:" ++ id).

End Sample.

(* ================================================================== *)
(** ** Vocabulary of the properties *)

Section Vocabulary.
Context {Num : NumberModel} {H : Host}.

(** [!API_KEY]: the variable is not set, or set to the empty string. *)
Definition credential_absent (API_KEY : option string) : bool :=
  match API_KEY with
  | None => true
  | Some k => (k =? "")%string
  end.

(** The response of a run, when it returned one. *)
Definition response_of (r : list Effect * (exn + HttpResponse)) : option HttpResponse :=
  match snd r with
  | inr resp => Some resp
  | inl _ => None
  end.

(** [name], [address] and [google_maps_url] of the result pushed for a place *)
Definition name_of (p : JSValue) : JSValue :=
  js_or (get_opt (member p "displayName") "text") (JStr "").

Definition address_of (p : JSValue) : JSValue :=
  js_or (member p "formattedAddress") (JStr "").

Definition maps_url_of (p : JSValue) : JSValue :=
  if truthy (member p "id") then
    JStr ("https://www.google.com/maps/place/?q=place_id:"
          ++ match ToString (member p "id") with Some s => s | None => "" end)
  else JStr "".

(** The result of a place that was not enriched. *)
Definition plain_lead (p : JSValue) : JSValue :=
  lead (name_of p) (address_of p) (JStr "") (JStr "") (maps_url_of p).

(** What the loop needs of an element of [places] to get past it: it is
    neither [null] nor [undefined], and its [id] converts to a string. *)
Definition place_like (p : JSValue) : bool :=
  negb (nullish p)
  && match ToString (member p "id") with Some _ => true | None => false end.

(** The query sent for a [businessType] and a [city] that are strings. *)
Definition query_of (businessType city : string) : string :=
  trim businessType ++ " in " ++ trim city ++ ", New Zealand".

(** The search provider answers the query with the places [ps]. *)
Definition search_returns (w : World) (apiKey query : string) (ps : list JSValue)
    : Prop :=
  exists resp txt data,
    w (search_request apiKey query) = FetchResolve resp
    /\ ok resp = true
    /\ text resp = inr txt
    /\ JSON_parse txt = Some data
    /\ get_opt data "places" = JArr ps.

(** The values of [website] and [email] that the lookups of a place with
    the identifier [id] resolve to, told from the outcomes of the detail
    lookup and of the email extraction. *)
Definition enrich_outcome (w : World) (apiKey : string) (id : JSValue)
    : JSValue * JSValue :=
  match snd (run w (placeDetails apiKey id)) with
  | inl _ => (JStr "", JStr "")
  | inr details =>
      let website := js_or (member details "websiteUri") (JStr "") in
      if truthy website then
        match snd (run w (findEmailFromWebsite website)) with
        | inl _ => (website, JStr "")
        | inr email => (website, email)
        end
      else (website, JStr "")
  end.

(** The result of a place when enrichment was asked for. *)
Definition enriched_lead (w : World) (apiKey : string) (p : JSValue) : JSValue :=
  if truthy (member p "id") then
    let we := enrich_outcome w apiKey (member p "id") in
    lead (name_of p) (address_of p) (fst we) (snd we) (maps_url_of p)
  else plain_lead p.

(** A value that [v || ""] turns into a string: a string, or a falsy value. *)
Definition string_or_falsy (v : JSValue) : bool := is_string v || negb (truthy v).

(** The providers answer in the data model of the specification.  A place
    of the search has a string, or nothing, for its name and for its address;
    the details of a place have a string, or nothing, for the address of its
    website.  Any falsy value counts as nothing. *)
Definition search_in_model (w : World) : Prop :=
  forall apiKey query resp txt data items p,
    w (search_request apiKey query) = FetchResolve resp ->
    text resp = inr txt ->
    JSON_parse txt = Some data ->
    iterate (get_opt data "places") = Some items ->
    In p items ->
    string_or_falsy (get_opt (member p "displayName") "text") = true
    /\ string_or_falsy (member p "formattedAddress") = true.

Definition details_in_model (w : World) : Prop :=
  forall apiKey id resp txt data,
    w (details_request apiKey id) = FetchResolve resp ->
    text resp = inr txt ->
    JSON_parse txt = Some data ->
    string_or_falsy (member data "websiteUri") = true.

(** A [LeadResult] of the data model: five fields, all strings. *)
Definition LeadResult (r : JSValue) : Prop :=
  exists name address website email google_maps_url : string,
    r = JObj [ ("name", JStr name); ("address", JStr address);
               ("website", JStr website); ("email", JStr email);
               ("google_maps_url", JStr google_maps_url) ].

(** The result [r] of the place [p] when enrichment was asked for, its
    lookups being resolved on their own.  Without an identifier nothing is
    looked up.  With one: when the detail lookup throws, [website] and
    [email] are empty; when it returns, [website] is the [websiteUri] of the
    details, or empty if they have none, and [email] is what the extractor
    returns for that [website]. *)
Definition resolved_on_its_own (w : World) (apiKey : string) (p r : JSValue) : Prop :=
  exists website email : string,
    r = JObj [ ("name", name_of p); ("address", address_of p);
               ("website", JStr website); ("email", JStr email);
               ("google_maps_url", maps_url_of p) ]
    /\ (truthy (member p "id") = false -> website = "" /\ email = "")
    /\ (truthy (member p "id") = true ->
        (forall t e,
           run w (placeDetails apiKey (member p "id")) = (t, inl e) ->
           website = "" /\ email = "")
        /\ (forall t details,
              run w (placeDetails apiKey (member p "id")) = (t, inr details) ->
              JStr website = js_or (member details "websiteUri") (JStr "")
              /\ exists t',
                   run w (findEmailFromWebsite (JStr website))
                   = (t', inr (JStr email)))).

(** Two requests with the same input: the same method, and bodies that
    parse to values with the same [businessType], [city] and
    [includeWebsiteEmail] -- or bodies that both fail to parse.  The requests
    may differ in anything else: their path, the text of their body, its
    other fields. *)
Definition same_input (event1 event2 : Event) : Prop :=
  httpMethod event1 = httpMethod event2
  /\ match JSON_parse (body_text event1), JSON_parse (body_text event2) with
     | Some parsed1, Some parsed2 =>
         forall k, In k ["businessType"; "city"; "includeWebsiteEmail"] ->
                   get parsed1 k = get parsed2 k
     | None, None => True
     | _, _ => False
     end.

(** The page at [u] is fetched with success and reads [html]. *)
Definition page_fetched (w : World) (u html : string) : Prop :=
  exists resp,
    w (website_request u) = FetchResolve resp
    /\ ok resp = true
    /\ text resp = inr html.

(** A request fails: the [fetch] rejects (network error, abort by the
    timer), the status is not a success, or the body cannot be read. *)
Definition request_fails (w : World) (rq : Request) : bool :=
  match w rq with
  | FetchReject _ => true
  | FetchResolve resp =>
      negb (ok resp) || match text resp with inl _ => true | inr _ => false end
  end.

End Vocabulary.

(** *** What a match is *)

(** The matches of a sequence of items, told without an order of search:
    [Matches i items prev s cap rest cap'] when the items match a prefix of
    [s], that comes after the character [prev], and leave [rest], taking
    the captures from [cap] to [cap']. *)
Module RegExpSpec.
Import RegExp.

(** The character before the position reached after [xs]. *)
Definition last_char (prev : option ascii) (xs : list ascii) : option ascii :=
  fold_left (fun _ x => Some x) xs prev.

Inductive Matches (i : bool)
  : list item -> option ascii -> list ascii -> captures
    -> list ascii -> captures -> Prop :=
| M_end prev s cap :
    Matches i [] prev s cap s cap
| M_chr p items prev x s cap rest cap' :
    chr_matches i p x = true ->
    Matches i items (Some x) s cap rest cap' ->
    Matches i (Chr p :: items) prev (x :: s) cap rest cap'
| M_rep n c items prev xs s cap rest cap' :
    forallb (class_matches i c) xs = true ->
    n <= length xs ->
    Matches i items (last_char prev xs) s cap rest cap' ->
    Matches i (Rep n c :: items) prev (xs ++ s) cap rest cap'
| M_wordb items prev s cap rest cap' :
    xorb (word_before prev) (word_at s) = true ->
    Matches i items prev s cap rest cap' ->
    Matches i (WordB :: items) prev s cap rest cap'
| M_open items prev s cap rest cap' :
    Matches i items prev s (Some s, snd cap) rest cap' ->
    Matches i (GroupOpen :: items) prev s cap rest cap'
| M_close items prev s cap rest cap' :
    Matches i items prev s (fst cap, Some s) rest cap' ->
    Matches i (GroupClose :: items) prev s cap rest cap'.

End RegExpSpec.

(** *** What an email looks like *)

(** The words of the specification about the page, told on the characters
    of the page alone: nothing here goes through the matcher. *)
Module EmailSpec.

Definition is_letter (x : ascii) : bool :=
  in_range "a" "z" x || in_range "A" "Z" x.

Definition is_digit (x : ascii) : bool := in_range "0" "9" x.

(** The characters of the local part and of the domain, in either case. *)
Definition local_char (x : ascii) : bool :=
  is_letter x || is_digit x
  || existsb (Ascii.eqb x) [ "."; "_"; "%"; "+"; "-" ]%char.

Definition domain_char (x : ascii) : bool :=
  is_letter x || is_digit x || existsb (Ascii.eqb x) [ "."; "-" ]%char.

(** An email-shaped token: a local part, an at sign, a domain, a dot and
    two letters or more. *)
Definition email_shaped (e : list ascii) : Prop :=
  exists l d t,
    e = (l ++ "@"%char :: d ++ "."%char :: t)%list
    /\ 1 <= length l /\ forallb local_char l = true
    /\ 1 <= length d /\ forallb domain_char d = true
    /\ 2 <= length t /\ forallb is_letter t = true.

(** A letter in upper case; any other character as it is. *)
Definition upper_case (x : ascii) : ascii :=
  if in_range "a" "z" x then ascii_of_nat (code x - 32) else x.

(** The characters of a word: letters, digits and the underscore. *)
Definition word_char (x : ascii) : bool :=
  is_letter x || is_digit x || Ascii.eqb x "_".

Definition ends_with_word (s : list ascii) : bool :=
  match rev s with
  | x :: _ => word_char x
  | [] => false
  end.

Definition starts_with_word (s : list ascii) : bool :=
  match s with
  | x :: _ => word_char x
  | [] => false
  end.

(** A word boundary between the text [before] and the text [after]: a
    character of a word on one side, and none on the other. *)
Definition word_boundary (before after : list ascii) : Prop :=
  ends_with_word before <> starts_with_word after.

(** At offset [n] the page has [mailto:], in any case, followed by the
    email-shaped token [e]. *)
Definition mailto_link_at (html : string) (n : nat) (e : string) : Prop :=
  exists pre m post,
    chars html = (pre ++ m ++ chars e ++ post)%list
    /\ length pre = n
    /\ map upper_case m = chars "MAILTO:"
    /\ email_shaped (chars e).

(** At offset [n] the page has the email-shaped token [e], between two
    word boundaries. *)
Definition bare_email_at (html : string) (n : nat) (e : string) : Prop :=
  exists pre post,
    chars html = (pre ++ chars e ++ post)%list
    /\ length pre = n
    /\ email_shaped (chars e)
    /\ word_boundary pre (chars e ++ post)
    /\ word_boundary (pre ++ chars e) post.

(** [e] at [n] is the first occurrence, and the longest one there: none
    starts before [n], and none that starts at [n] is longer. *)
Definition first_longest (occurs : nat -> string -> Prop) (n : nat) (e : string)
    : Prop :=
  occurs n e
  /\ forall n' e', occurs n' e' ->
                   n < n' \/ (n' = n /\ String.length e' <= String.length e).

(** The address to extract from a page: the one of the first link, if the
    page has a link; else the first bare token; else none. *)
Definition extracted (html e : string) : Prop :=
  (exists n, first_longest (mailto_link_at html) n e)
  \/ ((forall n e', ~ mailto_link_at html n e')
      /\ exists n, first_longest (bare_email_at html) n e)
  \/ ((forall n e', ~ mailto_link_at html n e')
      /\ (forall n e', ~ bare_email_at html n e')
      /\ e = "").

End EmailSpec.

(** *** What a trace shows *)

Section Traces.
Context {Num : NumberModel} {H : Host}.

Definition is_log (e : Effect) : bool :=
  match e with
  | ELog _ _ => true
  | _ => false
  end.

(** The delays slept during a run, in milliseconds. *)
Fixpoint sleeps (t : list Effect) : list nat :=
  match t with
  | [] => []
  | ESleep ms :: t' => ms :: sleeps t'
  | _ :: t' => sleeps t'
  end.

(** Every request of the trace comes right after a delay of 120 ms;
    [slept] tells whether such a delay has just been slept. *)
Fixpoint throttled (slept : bool) (t : list Effect) : bool :=
  match t with
  | [] => true
  | EFetch _ :: t' => slept && throttled false t'
  | ESleep ms :: t' => throttled (ms =? 120) t'
  | ELog _ _ :: t' => throttled false t'
  end.

(** The trace after its first request. *)
Fixpoint after_first_request (t : list Effect) : list Effect :=
  match t with
  | [] => []
  | EFetch _ :: t' => t'
  | _ :: t' => after_first_request t'
  end.

(** The three kinds of requests of the function: the search, the detail
    lookup of a place, the page of a website whose address starts with
    [http]. *)
Definition sent_by_handler (apiKey : string) (rq : Request) : Prop :=
  (exists query, rq = search_request apiKey query)
  \/ (exists id, rq = details_request apiKey id)
  \/ (exists u, startsWith u "http" = true /\ rq = website_request u).

(** The request has a header named [X-Goog-Api-Key]. *)
Definition carries_key (rq : Request) : bool :=
  existsb (fun h => (fst h =? "X-Goog-Api-Key")%string) (req_headers rq).

(** The effects of the [try] block of the loop: a delay, the detail lookup
    unless the identifier does not convert, then nothing, or a second delay
    with or without the request of the page, and the log line of the [catch]
    clause if it ran. *)
Definition lookup_trace (apiKey : string) (t : list Effect) : Prop :=
  exists d f l,
    t = (ESleep 120 :: d ++ f ++ l)%list
    /\ (d = [] \/ exists id, d = [EFetch (details_request apiKey id)])
    /\ (f = [] \/ f = [ESleep 120]
        \/ exists u, startsWith u "http" = true
                     /\ f = [ESleep 120; EFetch (website_request u)])
    /\ forallb is_log l = true.

(** The characters of an encoded path segment: unreserved, or the percent
    sign of an escape. *)
Definition segment_char (c : ascii) : bool :=
  uri_unreserved c || Ascii.eqb c "%".

(** The status codes of the function. *)
Definition known_status (code : nat) : bool :=
  existsb (Nat.eqb code) [200; 204; 400; 405; 500].

(** The run that ends in the outer [catch] after the effects [trace]. *)
Definition failed (trace : list Effect) (e : exn) : list Effect * (exn + HttpResponse) :=
  ((trace ++ [ELog "Unhandled error:" (JObj [ ("message", JStr (message e)) ])])%list,
   inr {| statusCode := 500; headers := cors_headers;
          resp_body := JSON_stringify (unhandled e) |}).

End Traces.

(** *** A host that knows an error document *)

Module Mock.

#[export] Existing Instance Sample.ZNumber.

(** The body of an error answer of the provider. *)
Definition denied : JSValue :=
  JObj [ ("error",
          JObj [ ("code", JNum 403%Z);
                 ("message", JStr "API key not valid. Please pass a valid API key.");
                 ("status", JStr "PERMISSION_DENIED") ]) ].

(** The body of the end-to-end example with its fields in another order. *)
Definition reordered : JSValue :=
  JObj [ ("includeWebsiteEmail", JBool false); ("city", JStr "Christchurch");
         ("businessType", JStr "kitchen designer") ].

Definition documents : list JSValue :=
  denied :: JObj [ ("places", JNull) ] :: Sample.website_of (JStr "")
  :: Sample.places_of [Sample.acme; JNull; Sample.best]
  :: reordered
  :: Sample.documents.

Definition parse (t : string) : option JSValue :=
  find (fun v => (Sample.to_text v =? t)%string) documents.

#[export] Instance host : Host :=
  {| JSON_parse := parse;
     JSON_stringify := Sample.to_text;
     engine_message := fun what => what |}.

Definition search_for (includeWebsiteEmail : bool) : Event :=
  Sample.post (Some (Sample.to_text
                       (Sample.request_body "kitchen designer" "Christchurch"
                          includeWebsiteEmail))).

(** The search is refused. *)
Definition search_denied : World :=
  Sample.upstream [ (search_url, Sample.answer 403 (Sample.to_text denied)) ].

(** The search answers a document without places, or no document. *)
Definition search_null : World :=
  Sample.upstream
    [ (search_url, Sample.answer 200 (Sample.to_text (JObj [ ("places", JNull) ]))) ].


(** The first place has no website. *)
Definition no_website : World :=
  Sample.upstream
    [ (search_url, Sample.answer 200 (Sample.to_text (Sample.places_of [Sample.acme])));
      (Sample.details_url "p1",
       Sample.answer 200 (Sample.to_text (Sample.website_of (JStr "")))) ].

(** The second of three places is [null]. *)
Definition null_place : World :=
  Sample.upstream
    [ (search_url,
       Sample.answer 200
         (Sample.to_text (Sample.places_of [Sample.acme; JNull; Sample.best]))) ].

End Mock.

(* ================================================================== *)
(** ** Running programs *)

Section Running.
Context {Num : NumberModel} {H : Host}.
Open Scope prog_scope.

Lemma run_bind {A B : Type} (w : World) (m : Prog A) (f : A -> Prog B) :
  run w (x <- m ;; f x) =
  match run w m with
  | (t, inl e) => (t, inl e)
  | (t, inr a) => let (t', r) := run w (f a) in ((t ++ t')%list, r)
  end.
Proof.
  induction m as [a | e | rq k IH | ms k IH | l p k IH]; simpl.
  - destruct (run w (f a)); reflexivity.
  - reflexivity.
  - rewrite IH. destruct (run w (k (w rq))) as [t [e | a]]; [reflexivity |].
    destruct (run w (f a)); reflexivity.
  - rewrite IH. destruct (run w k) as [t [e | a]]; [reflexivity |].
    destruct (run w (f a)); reflexivity.
  - rewrite IH. destruct (run w k) as [t [e | a]]; [reflexivity |].
    destruct (run w (f a)); reflexivity.
Qed.

Lemma run_try_catch {A : Type} (w : World) (m : Prog A) (h : exn -> Prog A) :
  run w (try_catch m h) =
  match run w m with
  | (t, inr a) => (t, inr a)
  | (t, inl e) => let (t', r) := run w (h e) in ((t ++ t')%list, r)
  end.
Proof.
  induction m as [a | e | rq k IH | ms k IH | l p k IH]; simpl.
  - reflexivity.
  - destruct (run w (h e)); reflexivity.
  - rewrite IH. destruct (run w (k (w rq))) as [t [e | a]]; [| reflexivity].
    destruct (run w (h e)); reflexivity.
  - rewrite IH. destruct (run w k) as [t [e | a]]; [| reflexivity].
    destruct (run w (h e)); reflexivity.
  - rewrite IH. destruct (run w k) as [t [e | a]]; [| reflexivity].
    destruct (run w (h e)); reflexivity.
Qed.

Lemma run_or_throw {A : Type} (w : World) (what : string) (o : option A) :
  run w (or_throw what o) =
  match o with
  | Some a => ([], inr a)
  | None => ([], inl (TypeError what))
  end.
Proof. destruct o; reflexivity. Qed.

End Running.

(* ================================================================== *)
(** ** Validation of the request *)

Section Validation.
Context {Num : NumberModel} {H : Host}.

Lemma post_is_not_options (event : Event) :
  httpMethod event = "POST" ->
  (httpMethod event =? "OPTIONS")%string = false
  /\ (httpMethod event =? "POST")%string = true.
Proof. intros ->. split; reflexivity. Qed.

(** C6. A POST request meets a missing credential before anything else:
    whatever its body, the run is one log line -- no request is sent and no
    delay is slept -- and the response has the status 500 and a body that is
    the JSON text of an object with an [error] and a [hint]. *)
Theorem missing_credential_is_500 (w : World) (API_KEY : option string) (event : Event) :
  httpMethod event = "POST" ->
  credential_absent API_KEY = true ->
  exists payload resp,
    run w (handler API_KEY event) = ([ELog "Incoming request:" payload], inr resp)
    /\ statusCode resp = 500
    /\ resp_body resp
       = JSON_stringify
           (JObj [ ("error", JStr "Missing GOOGLE_MAPS_API_KEY");
                   ("hint", JStr "Add GOOGLE_MAPS_API_KEY in Netlify → Site configuration → Environment variables, then redeploy.") ]).
Proof.
  intros Hpost Habsent.
  destruct (post_is_not_options event Hpost) as [Hopt Hp].
  unfold handler. rewrite Hopt, Hp. simpl.
  destruct API_KEY as [k |]; simpl in *.
  - rewrite Habsent. eexists _, _. repeat split.
  - eexists _, _. repeat split.
Qed.

(** The run of the handler on a POST request with the credential set whose
    body parses. *)
Lemma run_parsed (w : World) (apiKey : string) (event : Event) (parsed : JSValue) :
  httpMethod event = "POST" ->
  apiKey <> "" ->
  JSON_parse (body_text event) = Some parsed ->
  nullish parsed = false ->
  truthy (member parsed "businessType") && truthy (member parsed "city") = false ->
  run w (handler (Some apiKey) event)
  = ([ELog "Incoming request:" (incoming event)],
     inr (json cors_headers 400 fields_required)).
Proof.
  intros Hpost Hkey Hparse Hnn Hfalsy.
  destruct (post_is_not_options event Hpost) as [Hopt Hp].
  unfold handler. rewrite Hopt, Hp. simpl.
  apply String.eqb_neq in Hkey. rewrite Hkey, Hparse.
  unfold get. rewrite Hnn. simpl.
  apply andb_false_iff in Hfalsy.
  destruct Hfalsy as [-> | ->]; simpl; [reflexivity |].
  rewrite orb_true_r. reflexivity.
Qed.

(** C2, as the code has it.  With the credential set, a POST request whose
    body parses to anything but [null] and whose [businessType] or [city] is
    missing or falsy -- the empty string in particular -- is answered 400
    with an [error] and the [example] payload, before any upstream call.
    The test is on the value as sent: nothing is trimmed before it. *)
Theorem missing_field_is_400 (w : World) (apiKey : string) (event : Event)
    (parsed : JSValue) :
  httpMethod event = "POST" ->
  apiKey <> "" ->
  JSON_parse (body_text event) = Some parsed ->
  nullish parsed = false ->
  truthy (member parsed "businessType") && truthy (member parsed "city") = false ->
  run w (handler (Some apiKey) event)
  = ([ELog "Incoming request:" (incoming event)],
     inr {| statusCode := 400; headers := cors_headers;
          resp_body := JSON_stringify fields_required |})
  /\ is_string (member fields_required "error") = true
  /\ member fields_required "example"
     = JObj [ ("businessType", JStr "kitchen designer");
              ("city", JStr "Christchurch");
              ("includeWebsiteEmail", JBool false) ].
Proof.
  intros Hpost Hkey Hparse Hnn Hfalsy.
  split; [| split; reflexivity].
  now apply run_parsed with (parsed := parsed).
Qed.

(** A value that is not an object has none of the three fields. *)
Lemma member_of_non_object (v : JSValue) (k : string) :
  (forall props, v <> JObj props) -> member v k = JUndefined.
Proof.
  intros Hno. destruct v; try reflexivity.
  now contradiction (Hno props).
Qed.

(** C9, as the code has it.  With the credential set, a POST request whose
    body is the literal [null] makes the destructuring throw and is
    answered 500 by the outer [catch]; a body that parses to any other value
    that is not an object (a number, a string, a boolean, an array) is
    destructured to three [undefined] and answered 400 like a body without
    the fields; so is an absent body, read as the empty object. *)
Theorem body_that_is_not_an_object (w : World) (apiKey : string) (event : Event) :
  httpMethod event = "POST" ->
  apiKey <> "" ->
  (JSON_parse (body_text event) = Some JNull ->
   run w (handler (Some apiKey) event)
   = ([ELog "Incoming request:" (incoming event);
       ELog "Unhandled error:"
         (JObj [ ("message", JStr (message (TypeError "body.businessType"))) ])],
      inr {| statusCode := 500; headers := cors_headers;
             resp_body := JSON_stringify (unhandled (TypeError "body.businessType")) |}))
  /\ (forall parsed,
        JSON_parse (body_text event) = Some parsed ->
        nullish parsed = false ->
        (forall props, parsed <> JObj props) ->
        run w (handler (Some apiKey) event)
        = ([ELog "Incoming request:" (incoming event)],
           inr {| statusCode := 400; headers := cors_headers;
                resp_body := JSON_stringify fields_required |}))
  /\ (body event = None ->
      JSON_parse "{}" = Some (JObj []) ->
      run w (handler (Some apiKey) event)
      = ([ELog "Incoming request:" (incoming event)],
         inr {| statusCode := 400; headers := cors_headers;
                resp_body := JSON_stringify fields_required |})).
Proof.
  intros Hpost Hkey. split; [| split].
  - intros Hparse.
    destruct (post_is_not_options event Hpost) as [Hopt Hp].
    unfold handler. rewrite Hopt, Hp. simpl.
    apply String.eqb_neq in Hkey. rewrite Hkey, Hparse. reflexivity.
  - intros parsed Hparse Hnn Hno.
    apply run_parsed with (parsed := parsed); auto.
    now rewrite (member_of_non_object parsed "businessType" Hno).
  - intros Hbody Hempty.
    apply run_parsed with (parsed := JObj []); auto.
    unfold body_text. now rewrite Hbody.
Qed.

End Validation.

(* ================================================================== *)
(** ** The loop over the places *)

Section Loop.
Context {Num : NumberModel} {H : Host}.
Open Scope prog_scope.

Lemma truthy_not_nullish (v : JSValue) : truthy v = true -> nullish v = false.
Proof. destruct v; simpl; congruence. Qed.

Lemma js_or_truthy (v w : JSValue) : truthy w = true -> truthy (js_or v w) = true.
Proof. unfold js_or. intros Hw. destruct (truthy v) eqn:E; auto. Qed.

(** [placeDetails] returns an object or some other truthy value, never
    [null]. *)
Lemma placeDetails_truthy (w : World) (apiKey : string) (id details : JSValue)
    (t : list Effect) :
  run w (placeDetails apiKey id) = (t, inr details) -> truthy details = true.
Proof.
  unfold placeDetails. rewrite run_bind, run_or_throw.
  destruct (ToString id) as [s |]; [| discriminate].
  rewrite run_bind. unfold fetch at 1. simpl run at 1.
  destruct (w (details_request apiKey s)) as [e | resp]; simpl; [discriminate |].
  rewrite run_bind. unfold resp_text.
  destruct (text resp) as [e | txt]; simpl; [discriminate |].
  destruct (ok resp); simpl.
  - intros Heq. inversion Heq. now apply js_or_truthy.
  - rewrite run_bind.
    destruct (run w (cleanGoogleError txt)) as [t' [e | m]]; simpl; discriminate.
Qed.

(** The [try] block of the loop never throws, and resolves [website] and
    [email] as [enrich_outcome] tells. *)
Lemma run_enrich (w : World) (apiKey : string) (id : JSValue) :
  snd (run w (enrich apiKey id)) = inr (enrich_outcome w apiKey id).
Proof.
  unfold enrich, enrich_outcome.
  rewrite run_try_catch, run_bind. simpl (run w (sleep 120)). cbv iota beta.
  rewrite run_bind.
  destruct (run w (placeDetails apiKey id)) as [t [e | details]] eqn:Hd; simpl.
  - reflexivity.
  - pose proof (placeDetails_truthy _ _ _ _ _ Hd) as Ht.
    apply truthy_not_nullish in Ht.
    unfold get. rewrite Ht. simpl.
    destruct (truthy (js_or (member details "websiteUri") (JStr ""))) eqn:Hw.
    + cbn [run]. rewrite run_try_catch, run_bind.
      destruct (run w (findEmailFromWebsite _)) as [t' [e | email]]; reflexivity.
    + reflexivity.
Qed.

(** One turn of the loop on a place. *)
Lemma run_place_result (w : World) (apiKey : string) (inc p : JSValue) :
  place_like p = true ->
  snd (run w (place_result apiKey inc p))
  = inr (if truthy inc then enriched_lead w apiKey p else plain_lead p).
Proof.
  unfold place_like. intros Hp. apply andb_true_iff in Hp. destruct Hp as [Hnn Hid].
  apply negb_true_iff in Hnn.
  unfold place_result, get. rewrite Hnn. simpl or_throw.
  unfold enriched_lead, plain_lead, maps_url_of, name_of, address_of.
  cbn [bind].
  destruct (ToString (member p "id")) as [s |] eqn:Hs; [| discriminate].
  rewrite run_bind.
  destruct (truthy inc); destruct (truthy (member p "id")); simpl andb; cbv iota;
    try reflexivity.
  pose proof (run_enrich w apiKey (member p "id")) as He.
  destruct (run w (enrich apiKey (member p "id"))) as [t [e | we]]; simpl in He;
    [discriminate |].
  inversion He. subst we. reflexivity.
Qed.


(** The loop pushes the results of its turns in order, after those it
    started with, as long as no turn throws. *)
Lemma run_for_places (w : World) (step : JSValue -> Prog JSValue)
    (ps acc rs : list JSValue) :
  Forall2 (fun p r => snd (run w (step p)) = inr r) ps rs ->
  run w (for_places step ps acc)
  = (flat_map (fun p => fst (run w (step p))) ps, inr (acc ++ rs)%list).
Proof.
  intros Hall. revert acc.
  induction Hall as [| p r ps rs Hp _ IH]; intros acc; simpl.
  - now rewrite app_nil_r.
  - rewrite run_bind. destruct (run w (step p)) as [t [e | r']]; simpl in *;
      [discriminate |].
    inversion Hp. subst r'. rewrite IH. now rewrite <- app_assoc.
Qed.

End Loop.

(* ================================================================== *)
(** ** The answer to a valid request *)

Section Answer.
Context {Num : NumberModel} {H : Host}.
Open Scope prog_scope.

Lemma run_placesTextSearch (w : World) (apiKey query : string) (ps : list JSValue) :
  search_returns w apiKey query ps ->
  run w (placesTextSearch apiKey query)
  = ([EFetch (search_request apiKey query)], inr (JArr ps)).
Proof.
  intros (resp & txt & data & Hw & Hok & Htxt & Hparse & Hplaces).
  unfold placesTextSearch, fetch, resp_text, safeJson.
  cbn [bind run]. rewrite Hw. cbn [bind]. rewrite Htxt. cbn [bind].
  rewrite Hok. cbn [negb]. rewrite Hparse, Hplaces. reflexivity.
Qed.

Lemma member_string_not_nullish (v : JSValue) (k s : string) :
  member v k = JStr s -> nullish v = false.
Proof. destruct v; simpl; congruence. Qed.

Lemma plain_turn (w : World) (apiKey : string) (inc p : JSValue) :
  truthy inc = false ->
  place_like p = true ->
  run w (place_result apiKey inc p) = ([], inr (plain_lead p)).
Proof.
  intros Hinc Hp. unfold place_like in Hp.
  apply andb_true_iff in Hp. destruct Hp as [Hnn Hid].
  apply negb_true_iff in Hnn.
  unfold place_result, get. rewrite Hnn. simpl or_throw. cbn [bind].
  rewrite Hinc. cbn [andb bind].
  unfold plain_lead, maps_url_of.
  destruct (ToString (member p "id")) as [s |]; [| discriminate].
  destruct (truthy (member p "id")); reflexivity.
Qed.

(** The run of the handler on a valid request that the search provider
    answers with places: the two log lines, the search, then the effects of
    the turns of the loop, and the 200 response with one result per place,
    in the order of the places. *)
Lemma run_handler_found (w : World) (apiKey : string) (event : Event)
    (parsed : JSValue) (bt c : string) (ps : list JSValue) :
  httpMethod event = "POST" ->
  apiKey <> "" ->
  JSON_parse (body_text event) = Some parsed ->
  member parsed "businessType" = JStr bt -> bt <> "" ->
  member parsed "city" = JStr c -> c <> "" ->
  search_returns w apiKey (query_of bt c) ps ->
  Forall (fun p => place_like p = true) ps ->
  let inc := member parsed "includeWebsiteEmail" in
  run w (handler (Some apiKey) event)
  = ((ELog "Incoming request:" (incoming event)
      :: ELog "Search query:" (JStr (query_of bt c))
      :: EFetch (search_request apiKey (query_of bt c))
      :: flat_map (fun p => fst (run w (place_result apiKey inc p))) ps)%list,
     inr (json cors_headers 200
            (JObj [ ("query", JStr (query_of bt c));
                    ("count", JNum (number_of_nat (length ps)));
                    ("results",
                     JArr (map (fun p => if truthy inc
                                         then enriched_lead w apiKey p
                                         else plain_lead p) ps)) ]))).
Proof.
  intros Hpost Hkey Hparse Hbt Hbt0 Hc Hc0 Hsearch Hplaces inc.
  destruct (post_is_not_options event Hpost) as [Hopt Hp].
  pose proof (member_string_not_nullish _ _ _ Hbt) as Hnn.
  unfold handler. rewrite Hopt, Hp. cbn [negb].
  rewrite run_try_catch. unfold handler_try.
  cbn [console_log bind run].
  apply String.eqb_neq in Hkey. rewrite Hkey, Hparse.
  unfold get. rewrite Hnn. cbn [or_throw bind]. rewrite Hbt, Hc.
  apply String.eqb_neq in Hbt0, Hc0.
  cbn [truthy]. rewrite Hbt0, Hc0. cbn [negb orb ToString or_throw bind run].
  fold (query_of bt c).
  rewrite run_bind, (run_placesTextSearch _ _ _ _ Hsearch).
  cbn [iterate or_throw bind].
  rewrite run_bind.
  rewrite (run_for_places w _ ps []
             (map (fun p => if truthy inc then enriched_lead w apiKey p
                            else plain_lead p) ps)).
  - cbn [run app]. rewrite app_nil_r, length_map. reflexivity.
  - clear Hsearch. induction Hplaces as [| p ps Hpl _ IH]; simpl; constructor; auto.
    now apply run_place_result.
Qed.

End Answer.

(* ================================================================== *)
(** ** The matcher finds the matches *)

Module RegExpFacts.
Import RegExp RegExpSpec.

Lemma greedy_sound {R : Type} (test : ascii -> bool)
    (k : option ascii -> list ascii -> option R) (s : list ascii) :
  forall need prev r,
    greedy test k need prev s = Some r ->
    exists xs s',
      s = (xs ++ s')%list /\ forallb test xs = true /\ need <= length xs
      /\ k (last_char prev xs) s' = Some r.
Proof.
  induction s as [| x s IH]; intros need prev r; simpl.
  - destruct (Nat.eqb_spec need 0) as [-> |]; [| discriminate].
    intros Hk. exists [], []. auto.
  - assert (Hstop : (if need =? 0 then k prev (x :: s) else None) = Some r ->
                    exists xs s', (x :: s) = (xs ++ s')%list
                      /\ forallb test xs = true /\ need <= length xs
                      /\ k (last_char prev xs) s' = Some r).
    { destruct (Nat.eqb_spec need 0) as [-> |]; [| discriminate].
      intros Hk. exists [], (x :: s). auto. }
    destruct (test x) eqn:Hx; [| exact Hstop].
    destruct (greedy test k (pred need) (Some x) s) as [r' |] eqn:Hg; [| exact Hstop].
    intros Heq. inversion Heq. subst r'.
    destruct (IH _ _ _ Hg) as (xs & s' & -> & Hall & Hlen & Hk).
    exists (x :: xs), s'. simpl. rewrite Hx, Hall. repeat split; auto. lia.
Qed.

Lemma greedy_complete {R : Type} (test : ascii -> bool)
    (k : option ascii -> list ascii -> option R) (xs s' : list ascii) :
  forall need prev r,
    forallb test xs = true ->
    need <= length xs ->
    k (last_char prev xs) s' = Some r ->
    exists r', greedy test k need prev (xs ++ s') = Some r'.
Proof.
  induction xs as [| x xs IH]; intros need prev r Hall Hlen Hk; simpl in *.
  - assert (need = 0) as -> by lia.
    destruct s' as [| y s'']; simpl.
    + eauto.
    + destruct (test y); [| eauto].
      destruct (greedy test k 0 (Some y) s''); eauto.
  - apply andb_true_iff in Hall. destruct Hall as [Hx Hall]. rewrite Hx.
    destruct (IH (pred need) (Some x) r Hall ltac:(lia) Hk) as [r' ->]. eauto.
Qed.

Lemma match_items_sound (i : bool) (items : list item) :
  forall prev s cap rest cap',
    match_items i items prev s cap = Some (rest, cap') ->
    Matches i items prev s cap rest cap'.
Proof.
  induction items as [| it items IH]; intros prev s cap rest cap' Hm; simpl in Hm.
  - inversion Hm. constructor.
  - destruct it as [p | n c | | |].
    + destruct s as [| x s]; [discriminate |].
      destruct (chr_matches i p x) eqn:Hx; [| discriminate].
      constructor; auto.
    + apply greedy_sound in Hm. destruct Hm as (xs & s' & -> & Hall & Hlen & Hk).
      constructor; auto.
    + destruct (xorb (word_before prev) (word_at s)) eqn:Hb; [| discriminate].
      constructor; auto.
    + constructor; auto.
    + constructor; auto.
Qed.

Lemma match_items_complete (i : bool) (items : list item) prev s cap rest cap' :
  Matches i items prev s cap rest cap' ->
  exists r, match_items i items prev s cap = Some r.
Proof.
  induction 1 as [prev s cap
                 | p items prev x s cap rest cap' Hx _ IH
                 | n c items prev xs s cap rest cap' Hall Hlen _ IH
                 | items prev s cap rest cap' Hb _ IH
                 | items prev s cap rest cap' _ IH
                 | items prev s cap rest cap' _ IH]; simpl.
  - eauto.
  - rewrite Hx. exact IH.
  - destruct IH as [r Hr].
    eapply greedy_complete; eauto.
  - rewrite Hb. exact IH.
  - exact IH.
  - exact IH.
Qed.

Lemma last_char_app (prev : option ascii) (xs ys : list ascii) :
  last_char prev (xs ++ ys) = last_char (last_char prev xs) ys.
Proof. unfold last_char. apply fold_left_app. Qed.

(** The search fails only when there is no match anywhere. *)
Lemma search_complete (i : bool) (items : list item) (s : list ascii) :
  forall prev,
    search i items prev s = None ->
    forall pre from rest cap,
      s = (pre ++ from)%list ->
      ~ Matches i items (last_char prev pre) from no_capture rest cap.
Proof.
  induction s as [| x s IH]; intros prev; simpl.
  - destruct (match_items i items prev [] no_capture) as [r |] eqn:Hm; [discriminate |].
    intros _ pre from rest cap Heq HM.
    symmetry in Heq. apply app_eq_nil in Heq. destruct Heq as [-> ->].
    apply match_items_complete in HM. destruct HM as [r Hr]. simpl in Hr. congruence.
  - destruct (match_items i items prev (x :: s) no_capture) as [r |] eqn:Hm;
      [discriminate |].
    intros Hs pre from rest cap Heq HM.
    destruct pre as [| y pre].
    + simpl in Heq. subst from.
      apply match_items_complete in HM. destruct HM as [r Hr]. simpl in Hr. congruence.
    + simpl in Heq. inversion Heq. subst y.
      now apply (IH _ Hs pre from rest cap).
Qed.

(** The repetition stops at the longest run that the rest of the pattern
    accepts: after any longer run of the class, the rest fails. *)
Lemma greedy_longest {R : Type} (test : ascii -> bool)
    (k : option ascii -> list ascii -> option R) (s : list ascii) :
  forall need prev r,
    greedy test k need prev s = Some r ->
    exists xs s',
      s = (xs ++ s')%list /\ forallb test xs = true /\ need <= length xs
      /\ k (last_char prev xs) s' = Some r
      /\ forall xs2 s2,
           s = (xs2 ++ s2)%list -> forallb test xs2 = true ->
           length xs < length xs2 -> k (last_char prev xs2) s2 = None.
Proof.
  induction s as [| x s IH]; intros need prev r; simpl.
  - destruct (Nat.eqb_spec need 0) as [-> |]; [| discriminate].
    intros Hk. exists [], []. repeat split; auto.
    intros xs2 s2 Heq _ Hlen. symmetry in Heq. apply app_eq_nil in Heq.
    destruct Heq as [-> _]. simpl in Hlen. lia.
  - assert (Hstop : (if need =? 0 then k prev (x :: s) else None) = Some r ->
                    (forall xs2' s2, s = (xs2' ++ s2)%list ->
                                     forallb test (x :: xs2') = true ->
                                     k (last_char (Some x) xs2') s2 = None) ->
                    exists xs s', (x :: s) = (xs ++ s')%list
                      /\ forallb test xs = true /\ need <= length xs
                      /\ k (last_char prev xs) s' = Some r
                      /\ forall xs2 s2,
                           (x :: s) = (xs2 ++ s2)%list -> forallb test xs2 = true ->
                           length xs < length xs2 -> k (last_char prev xs2) s2 = None).
    { destruct (Nat.eqb_spec need 0) as [-> |]; [| discriminate].
      intros Hk Hnone. exists [], (x :: s). repeat split; auto.
      intros xs2 s2 Heq Hall Hlen.
      destruct xs2 as [| y xs2]; [simpl in Hlen; lia |].
      simpl in Heq. inversion Heq. subst y. now apply Hnone. }
    destruct (test x) eqn:Hx.
    + destruct (greedy test k (pred need) (Some x) s) as [r' |] eqn:Hg.
      * intros Heq. inversion Heq. subst r'.
        destruct (IH _ _ _ Hg) as (xs & s' & -> & Hall & Hlen & Hk & Hmax).
        exists (x :: xs), s'. simpl. rewrite Hx, Hall.
        repeat split; auto; [lia |].
        intros xs2 s2 Heq2 Hall2 Hlen2.
        destruct xs2 as [| y xs2]; [simpl in Hlen2; lia |].
        simpl in Heq2. inversion Heq2. subst y.
        simpl in Hall2. apply andb_true_iff in Hall2. destruct Hall2 as [_ Hall2].
        simpl in Hlen2. apply Hmax; auto. lia.
      * intros Hk. apply Hstop; [exact Hk |].
        intros xs2' s2 -> Hall.
        simpl in Hall. apply andb_true_iff in Hall. destruct Hall as [_ Hall].
        destruct (k (last_char (Some x) xs2') s2) as [r2 |] eqn:Hk2; [| reflexivity].
        destruct (Nat.eqb_spec need 0) as [-> |]; [| discriminate].
        destruct (greedy_complete test k xs2' s2 0 (Some x) r2 Hall ltac:(lia) Hk2)
          as [r' Hr']. simpl in Hg. congruence.
    + intros Hk. apply Hstop; [exact Hk |].
      intros xs2' s2 _ Hall. simpl in Hall. now rewrite Hx in Hall.
Qed.

(** The search returns what the matcher returns at the first start where
    it matches. *)
Lemma search_found (i : bool) (items : list item) (s : list ascii) :
  forall prev from r,
    search i items prev s = Some (from, r) ->
    exists pre,
      s = (pre ++ from)%list
      /\ match_items i items (last_char prev pre) from no_capture = Some r
      /\ forall pre' from',
           s = (pre' ++ from')%list -> length pre' < length pre ->
           match_items i items (last_char prev pre') from' no_capture = None.
Proof.
  induction s as [| x s IH]; intros prev from r; simpl.
  - destruct (match_items i items prev [] no_capture) as [r0 |] eqn:Hm; [| discriminate].
    intros Heq. inversion Heq. subst. exists []. repeat split; auto.
    simpl. intros. lia.
  - destruct (match_items i items prev (x :: s) no_capture) as [r0 |] eqn:Hm.
    + intros Heq. inversion Heq. subst. exists []. repeat split; auto.
      simpl. intros. lia.
    + intros Hs. destruct (IH _ _ _ Hs) as (pre & -> & Hhit & Hfirst).
      exists (x :: pre). repeat split; auto.
      intros pre' from' Heq Hlen.
      destruct pre' as [| y pre'].
      * simpl in Heq. subst from'. exact Hm.
      * simpl in Heq. inversion Heq. subst y.
        apply Hfirst; auto. simpl in Hlen. lia.
Qed.

(** Literal characters take as many characters of the input, the same
    but for the case. *)
Lemma match_items_lit (m : list ascii) (tail : list item) :
  forall prev s cap r,
    match_items true (map Chr m ++ tail) prev s cap = Some r ->
    exists ms s1,
      s = (ms ++ s1)%list /\ map to_upper ms = map to_upper m
      /\ match_items true tail (last_char prev ms) s1 cap = Some r.
Proof.
  induction m as [| p m IH]; intros prev s cap r; simpl.
  - intros Hm. exists [], s. auto.
  - destruct s as [| x s]; [discriminate |].
    destruct (Ascii.eqb_spec (to_upper p) (to_upper x)) as [Hx |]; [| discriminate].
    intros Hm. destruct (IH _ _ _ _ Hm) as (ms & s1 & -> & Hms & Hm').
    exists (x :: ms), s1. simpl. rewrite Hms, Hx. auto.
Qed.

Lemma match_chr (i : bool) (p : ascii) (items : list item) prev s cap r :
  match_items i (Chr p :: items) prev s cap = Some r ->
  exists x s',
    s = x :: s' /\ chr_matches i p x = true
    /\ match_items i items (Some x) s' cap = Some r.
Proof.
  simpl. destruct s as [| x s']; [discriminate |].
  destruct (chr_matches i p x) eqn:Hx; [| discriminate].
  intros Hm. exists x, s'. auto.
Qed.

Lemma match_rep (i : bool) (n : nat) (c : class) (items : list item) prev s cap r :
  match_items i (Rep n c :: items) prev s cap = Some r ->
  exists xs s',
    s = (xs ++ s')%list /\ forallb (class_matches i c) xs = true /\ n <= length xs
    /\ match_items i items (last_char prev xs) s' cap = Some r
    /\ forall xs2 s2,
         s = (xs2 ++ s2)%list -> forallb (class_matches i c) xs2 = true ->
         length xs < length xs2 ->
         match_items i items (last_char prev xs2) s2 cap = None.
Proof.
  simpl. intros Hm. apply greedy_longest in Hm. exact Hm.
Qed.

Lemma match_wordb (i : bool) (items : list item) prev s cap r :
  match_items i (WordB :: items) prev s cap = Some r ->
  xorb (word_before prev) (word_at s) = true
  /\ match_items i items prev s cap = Some r.
Proof.
  simpl. destruct (xorb (word_before prev) (word_at s)); [auto | discriminate].
Qed.

End RegExpFacts.

(* ================================================================== *)
(** ** The two patterns *)

Module EmailFacts.
Import RegExp RegExpSpec RegExpFacts EmailSpec.

Lemma local_class_chars (x : ascii) : class_matches true local_class x = local_char x.
Proof. destruct x as [[] [] [] [] [] [] [] []]; reflexivity. Qed.

Lemma domain_class_chars (x : ascii) : class_matches true domain_class x = domain_char x.
Proof. destruct x as [[] [] [] [] [] [] [] []]; reflexivity. Qed.

Lemma alpha_class_chars (x : ascii) : class_matches true alpha_class x = is_letter x.
Proof. destruct x as [[] [] [] [] [] [] [] []]; reflexivity. Qed.

Lemma at_sign (x : ascii) : chr_matches true "@" x = true <-> x = "@"%char.
Proof.
  split; [| intros ->; reflexivity].
  destruct x as [[] [] [] [] [] [] [] []]; intros Hx; vm_compute in Hx;
    try discriminate; reflexivity.
Qed.

Lemma dot (x : ascii) : chr_matches true "." x = true <-> x = "."%char.
Proof.
  split; [| intros ->; reflexivity].
  destruct x as [[] [] [] [] [] [] [] []]; intros Hx; vm_compute in Hx;
    try discriminate; reflexivity.
Qed.

Lemma forallb_same (f g : ascii -> bool) (xs : list ascii) :
  (forall x, f x = g x) -> forallb f xs = forallb g xs.
Proof. intros Hfg. induction xs as [| x xs IH]; simpl; [| rewrite Hfg, IH]; reflexivity. Qed.

(** The items of the email, followed by others. *)
Lemma matches_email (tail : list item) prev s cap rest cap' :
  Matches true (email_items ++ tail) prev s cap rest cap' <->
  exists l d t s1,
    s = (l ++ "@"%char :: d ++ "."%char :: t ++ s1)%list
    /\ 1 <= length l /\ forallb local_char l = true
    /\ 1 <= length d /\ forallb domain_char d = true
    /\ 2 <= length t /\ forallb is_letter t = true
    /\ Matches true tail (last_char (Some "."%char) t) s1 cap rest cap'.
Proof.
  unfold email_items. simpl app. split.
  - intros HM.
    inversion HM as [| | n1 c1 it1 pv1 l s1 cp1 r1 cp1' Hl Hln HM1 | | |]; subst; clear HM.
    inversion HM1 as [| p2 it2 pv2 x2 s2 cp2 r2 cp2' Hx2 HM2 | | | |]; subst; clear HM1.
    apply at_sign in Hx2. subst x2.
    inversion HM2 as [| | n3 c3 it3 pv3 d s3 cp3 r3 cp3' Hd Hdn HM3 | | |]; subst; clear HM2.
    inversion HM3 as [| p4 it4 pv4 x4 s4 cp4 r4 cp4' Hx4 HM4 | | | |]; subst; clear HM3.
    apply dot in Hx4. subst x4.
    inversion HM4 as [| | n5 c5 it5 pv5 t s5 cp5 r5 cp5' Ht Htn HM5 | | |]; subst; clear HM4.
    exists l, d, t, s5.
    rewrite (forallb_same _ _ _ local_class_chars) in Hl.
    rewrite (forallb_same _ _ _ domain_class_chars) in Hd.
    rewrite (forallb_same _ _ _ alpha_class_chars) in Ht.
    repeat split; auto.
  - intros (l & d & t & s1 & -> & Hln & Hl & Hdn & Hd & Htn & Ht & HM).
    rewrite <- (forallb_same _ _ _ local_class_chars) in Hl.
    rewrite <- (forallb_same _ _ _ domain_class_chars) in Hd.
    rewrite <- (forallb_same _ _ _ alpha_class_chars) in Ht.
    constructor; auto.
    constructor; [now apply at_sign |].
    constructor; auto.
    constructor; [now apply dot |].
    constructor; auto.
Qed.

(** A literal, followed by others. *)
Lemma matches_lit (m : list ascii) (tail : list item) :
  forall prev s cap rest cap',
    Matches true (map Chr m ++ tail) prev s cap rest cap' <->
    exists ms s1,
      s = (ms ++ s1)%list
      /\ map to_upper ms = map to_upper m
      /\ Matches true tail (last_char prev ms) s1 cap rest cap'.
Proof.
  induction m as [| p m IH]; intros prev s cap rest cap'; simpl.
  - split.
    + intros HM. exists [], s. auto.
    + intros (ms & s1 & -> & Hms & HM).
      destruct ms; [exact HM | discriminate].
  - split.
    + intros HM.
      inversion HM as [| p' it pv x s' cp r cp' Hx HM' | | | |]; subst; clear HM.
      apply IH in HM'. destruct HM' as (ms & s1 & -> & Hms & HM').
      exists (x :: ms), s1. simpl. rewrite Hms.
      unfold chr_matches in Hx. apply Ascii.eqb_eq in Hx. rewrite Hx. auto.
    + intros (ms & s1 & -> & Hms & HM).
      destruct ms as [| x ms]; [discriminate |].
      simpl in Hms. inversion Hms as [[Hx Hms']].
      simpl. constructor.
      * unfold chr_matches. apply Ascii.eqb_eq. auto.
      * apply IH. exists ms, s1. auto.
Qed.

Lemma email_shaped_last (prev : option ascii) (l d t : list ascii) :
  1 <= length t ->
  last_char prev (l ++ "@"%char :: d ++ "."%char :: t) = last_char (Some "."%char) t.
Proof.
  intros Ht. rewrite last_char_app. simpl.
  change (fold_left (fun _ x => Some x) (d ++ "."%char :: t) (Some "@"%char))
    with (last_char (Some "@"%char) (d ++ "."%char :: t)).
  rewrite last_char_app. reflexivity.
Qed.

Lemma email_app (l d t rest : list ascii) :
  ((l ++ "@"%char :: d ++ "."%char :: t) ++ rest
   = l ++ "@"%char :: d ++ "."%char :: t ++ rest)%list.
Proof. rewrite <- app_assoc. simpl. rewrite <- app_assoc. reflexivity. Qed.

(** The matches of the pattern with [mailto:]. *)
Lemma matches_mailto prev s rest cap :
  Matches true (source mailto_re) prev s no_capture rest cap <->
  exists m e,
    s = (m ++ e ++ rest)%list
    /\ map to_upper m = chars "MAILTO:"
    /\ email_shaped e
    /\ cap = (Some (e ++ rest)%list, Some rest).
Proof.
  unfold mailto_re, source, lit. split.
  - intros HM. apply matches_lit in HM.
    destruct HM as (m & s1 & -> & Hm & HM).
    simpl app in HM.
    inversion HM as [| | | | it pv s' cp r cp' HM1 |]; subst; clear HM.
    apply (matches_email [GroupClose]) in HM1.
    destruct HM1 as (l & d & t & s2 & -> & Hln & Hl & Hdn & Hd & Htn & Ht & HM2).
    inversion HM2 as [| | | | | it pv s' cp r cp' HM3]; subst; clear HM2.
    inversion HM3; subst; clear HM3.
    exists m, (l ++ "@"%char :: d ++ "."%char :: t)%list.
    repeat split.
    + now rewrite email_app.
    + exact Hm.
    + exists l, d, t. repeat split; auto.
    + simpl. now rewrite email_app.
  - intros (m & e & -> & Hm & (l & d & t & -> & Hln & Hl & Hdn & Hd & Htn & Ht) & ->).
    apply matches_lit. exists m, ((l ++ "@"%char :: d ++ "."%char :: t) ++ rest)%list.
    repeat split; auto.
    simpl app. constructor.
    apply (matches_email [GroupClose]).
    exists l, d, t, rest. repeat split; auto.
    + apply email_app.
    + constructor. simpl. rewrite email_app. constructor.
Qed.

(** The matches of the pattern between word boundaries. *)
Lemma matches_plain prev s rest cap :
  Matches true (source plain_re) prev s no_capture rest cap <->
  exists e,
    s = (e ++ rest)%list
    /\ email_shaped e
    /\ xorb (word_before prev) (word_at s) = true
    /\ xorb (word_before (last_char prev e)) (word_at rest) = true
    /\ cap = no_capture.
Proof.
  unfold plain_re, source. simpl app. split.
  - intros HM.
    inversion HM as [| | | it pv s' cp r cp' Hb HM1 | |]; subst; clear HM.
    apply (matches_email [WordB]) in HM1.
    destruct HM1 as (l & d & t & s2 & -> & Hln & Hl & Hdn & Hd & Htn & Ht & HM2).
    inversion HM2 as [| | | it pv s' cp r cp' Hb2 HM3 | |]; subst; clear HM2.
    inversion HM3; subst; clear HM3.
    exists (l ++ "@"%char :: d ++ "."%char :: t)%list.
    repeat split.
    + now rewrite email_app.
    + exists l, d, t. repeat split; auto.
    + exact Hb.
    + rewrite email_shaped_last by lia. exact Hb2.
  - intros (e & -> & (l & d & t & -> & Hln & Hl & Hdn & Hd & Htn & Ht) & Hb & Hb2 & ->).
    constructor; [exact Hb |].
    apply (matches_email [WordB]).
    exists l, d, t, rest. repeat split; auto.
    + apply email_app.
    + constructor; [| constructor].
      rewrite email_shaped_last in Hb2 by lia. exact Hb2.
Qed.

(** Two runs of a class before the same character, that is not of the
    class, are the same run. *)
Lemma same_run (P : ascii -> bool) (a : ascii) :
  P a = false ->
  forall xs ys xs' ys',
    (xs ++ a :: ys = xs' ++ a :: ys')%list ->
    forallb P xs = true -> forallb P xs' = true ->
    xs = xs' /\ ys = ys'.
Proof.
  intros Ha. induction xs as [| x xs IH]; intros ys xs' ys' Heq Hxs Hxs'.
  - destruct xs' as [| x' xs']; simpl in *.
    + inversion Heq. auto.
    + inversion Heq. subst x'.
      apply andb_true_iff in Hxs'. destruct Hxs' as [Hx _]. congruence.
  - destruct xs' as [| x' xs']; simpl in *.
    + inversion Heq. subst x.
      apply andb_true_iff in Hxs. destruct Hxs as [Hx _]. congruence.
    + inversion Heq as [[Hx Heq']]. subst x'.
      apply andb_true_iff in Hxs, Hxs'.
      destruct Hxs as [_ Hxs], Hxs' as [_ Hxs'].
      destruct (IH _ _ _ Heq' Hxs Hxs') as [-> ->]. auto.
Qed.

(** The matcher on the items of the email: the token it takes, and no
    token at the same place reaches further. *)
Lemma email_items_longest (tail : list item) prev s cap r :
  match_items true (email_items ++ tail) prev s cap = Some r ->
  exists l d t s1,
    s = (l ++ "@"%char :: d ++ "."%char :: t ++ s1)%list
    /\ 1 <= length l /\ forallb local_char l = true
    /\ 1 <= length d /\ forallb domain_char d = true
    /\ 2 <= length t /\ forallb is_letter t = true
    /\ match_items true tail (last_char (Some "."%char) t) s1 cap = Some r
    /\ forall l2 d2 t2 s2 rest2 cap2,
         s = (l2 ++ "@"%char :: d2 ++ "."%char :: t2 ++ s2)%list ->
         forallb local_char l2 = true ->
         forallb domain_char d2 = true ->
         2 <= length t2 -> forallb is_letter t2 = true ->
         Matches true tail (last_char (Some "."%char) t2) s2 cap rest2 cap2 ->
         length s1 <= length s2.
Proof.
  unfold email_items. simpl app. intros Hm.
  apply match_rep in Hm. destruct Hm as (l & s' & -> & Hl & Hln & Hm & _).
  apply match_chr in Hm. destruct Hm as (x & s'' & -> & Hx & Hm).
  apply at_sign in Hx. subst x.
  apply match_rep in Hm. destruct Hm as (d & s3 & -> & Hd & Hdn & Hm & Hmax2).
  apply match_chr in Hm. destruct Hm as (y & s4 & -> & Hy & Hm).
  apply dot in Hy. subst y.
  apply match_rep in Hm. destruct Hm as (t & s1 & -> & Ht & Htn & Hm & Hmax3).
  rewrite (forallb_same _ _ _ local_class_chars) in Hl.
  rewrite (forallb_same _ _ _ domain_class_chars) in Hd.
  rewrite (forallb_same _ _ _ alpha_class_chars) in Ht.
  exists l, d, t, s1. repeat split; auto.
  intros l2 d2 t2 s2 rest2 cap2 Heq Hl2 Hd2 Htn2 Ht2 HM.
  destruct (same_run local_char "@" eq_refl _ _ _ _ Heq Hl Hl2) as [<- Heq'].
  clear Heq.
  assert (Hc3 : match_items true tail (last_char (Some "."%char) t2) s2 cap <> None).
  { destruct (match_items_complete _ _ _ _ _ _ _ HM) as [r3 ->]. discriminate. }
  assert (Hc2 : match_items true (Chr "." :: Rep 2 alpha_class :: tail)
                  (last_char (Some "@"%char) d2) ("."%char :: t2 ++ s2) cap <> None).
  { assert (HM2 : Matches true (Chr "." :: Rep 2 alpha_class :: tail)
                    (last_char (Some "@"%char) d2) ("."%char :: t2 ++ s2) cap rest2 cap2).
    { constructor; [reflexivity |]. constructor; auto.
      now rewrite (forallb_same _ _ _ alpha_class_chars). }
    destruct (match_items_complete _ _ _ _ _ _ _ HM2) as [r2 ->]. discriminate. }
  apply app_eq_app in Heq'. destruct Heq' as (l' & [[Ed Heq] | [Ed Heq]]).
  - (* the domain taken is at least as long as the other *)
    destruct l' as [| c x].
    + simpl in Heq. inversion Heq as [Heq']. clear Heq.
      apply app_eq_app in Heq'. destruct Heq' as (l'' & [[Et Heq2] | [Et Heq2]]).
      * destruct l'' as [| c' x']; [simpl in Heq2; subst s1; lia |].
        exfalso. apply Hc3. apply Hmax3.
        -- rewrite Et, <- app_assoc. now rewrite Heq2.
        -- now rewrite (forallb_same _ _ _ alpha_class_chars).
        -- rewrite Et, length_app. simpl. lia.
      * subst s2. rewrite length_app. lia.
    + simpl in Heq. inversion Heq as [[Hc Heq']]. clear Heq. subst c.
      apply app_eq_app in Heq'. destruct Heq' as (l'' & [[Et Heq2] | [Et Heq2]]).
      * destruct l'' as [| c' x'].
        -- simpl in Heq2. subst s2. simpl. rewrite length_app. lia.
        -- exfalso. simpl in Heq2. inversion Heq2. subst c'.
           rewrite Et, forallb_app in Ht2. simpl in Ht2.
           apply andb_true_iff in Ht2. destruct Ht2 as [_ Ht2]. discriminate.
      * subst s2. rewrite length_app. simpl. rewrite length_app. lia.
  - (* the other domain is at least as long *)
    destruct l' as [| c x].
    + simpl in Heq. inversion Heq as [Heq']. clear Heq.
      apply app_eq_app in Heq'. destruct Heq' as (l'' & [[Et Heq2] | [Et Heq2]]).
      * subst s2. rewrite length_app. lia.
      * destruct l'' as [| c' x']; [simpl in Heq2; subst s1; lia |].
        exfalso. apply Hc3. apply Hmax3.
        -- rewrite Et, <- app_assoc. now rewrite Heq2.
        -- now rewrite (forallb_same _ _ _ alpha_class_chars).
        -- rewrite Et, length_app. simpl. lia.
    + exfalso. apply Hc2. apply Hmax2.
      * rewrite Ed, <- app_assoc. now rewrite Heq.
      * now rewrite (forallb_same _ _ _ domain_class_chars).
      * rewrite Ed, length_app. simpl. lia.
Qed.

End EmailFacts.

(* ================================================================== *)
(** ** The email of a page *)

Section EmailOfPage.
Context {Num : NumberModel} {H : Host}.
Import RegExp RegExpSpec RegExpFacts EmailSpec EmailFacts.

Lemma chars_of_chars (l : list ascii) : chars (of_chars l) = l.
Proof. induction l as [| x l IH]; simpl; [| rewrite IH]; reflexivity. Qed.

Lemma of_chars_chars (s : string) : of_chars (chars s) = s.
Proof. induction s as [| x s IH]; simpl; [| rewrite IH]; reflexivity. Qed.

Lemma length_chars (s : string) : length (chars s) = String.length s.
Proof. induction s as [| x s IH]; simpl; [| rewrite IH]; reflexivity. Qed.

Lemma between_app (e rest : list ascii) : between (e ++ rest) rest = e.
Proof.
  unfold between. rewrite length_app.
  replace (length e + length rest - length rest) with (length e) by lia.
  rewrite firstn_app, Nat.sub_diag, firstn_all. simpl. apply app_nil_r.
Qed.

(** Two ways to cut a text at the same offset are the same. *)
Lemma same_cut (a b a' b' : list ascii) :
  (a ++ b = a' ++ b')%list -> length a = length a' -> a = a' /\ b = b'.
Proof.
  revert a'. induction a as [| x a IH]; intros [| x' a'] Heq Hlen;
    simpl in *; try discriminate; [auto |].
  inversion Heq as [[Hx Heq']]. subst x'.
  destruct (IH a' Heq' ltac:(lia)) as [-> ->]. auto.
Qed.

(** The words of the specification, in the terms of the matcher. *)
Lemma upper_case_folds (m : list ascii) : map upper_case m = map to_upper m.
Proof. reflexivity. Qed.

Lemma word_char_is_word (x : ascii) : word_char x = is_word x.
Proof. reflexivity. Qed.

Lemma ends_with_word_before (pre : list ascii) :
  ends_with_word pre = word_before (last_char None pre).
Proof.
  unfold ends_with_word.
  induction pre as [| x pre _] using rev_ind; [reflexivity |].
  rewrite rev_app_distr, last_char_app. reflexivity.
Qed.

Lemma starts_with_word_at (s : list ascii) : starts_with_word s = word_at s.
Proof. destruct s; reflexivity. Qed.

Lemma word_boundary_xorb (before after : list ascii) :
  word_boundary before after
  <-> xorb (word_before (last_char None before)) (word_at after) = true.
Proof.
  unfold word_boundary. rewrite ends_with_word_before, starts_with_word_at.
  destruct (word_before _), (word_at _); simpl; split; congruence.
Qed.

(** [html.match] with the first pattern: the match array holds the capture
    of the first link, the longest token that follows its [mailto:]; and
    [null] means that the page has no link. *)
Lemma str_match_mailto (html : string) :
  match str_match html mailto_re with
  | Some arr =>
      exists n whole e,
        arr = [whole; e] /\ first_longest (mailto_link_at html) n e
  | None => forall n e, ~ mailto_link_at html n e
  end.
Proof.
  unfold str_match.
  destruct (search (ignoreCase mailto_re) (source mailto_re) None (chars html))
    as [[from [rest cap]] |] eqn:Hs.
  - apply search_found in Hs. destruct Hs as (pre & Hhtml & Hhit & Hfirst).
    change (ignoreCase mailto_re) with true in *.
    change (source mailto_re)
      with (map Chr (chars "mailto:") ++ GroupOpen :: email_items ++ [GroupClose])%list
      in *.
    destruct (match_items_lit _ _ _ _ _ _ Hhit) as (ms & s1 & -> & Hms & Hgroup).
    change (match_items true (email_items ++ [GroupClose])
              (last_char (last_char None pre) ms) s1 (Some s1, None)
            = Some (rest, cap)) in Hgroup.
    apply email_items_longest in Hgroup.
    destruct Hgroup as (l & d & t & s1' & Hs1 & Hln & Hl & Hdn & Hd & Htn & Ht
                        & Hclose & Hlongest).
    simpl in Hclose. inversion Hclose. subst rest cap. clear Hclose.
    assert (He : email_shaped (l ++ "@"%char :: d ++ "."%char :: t)).
    { exists l, d, t. repeat split; auto. }
    exists (length pre), (of_chars (between (ms ++ s1) s1')),
      (of_chars (l ++ "@"%char :: d ++ "."%char :: t)).
    split.
    { rewrite Hs1 at 2. now rewrite <- email_app, between_app. }
    split.
    + exists pre, ms, s1'. rewrite chars_of_chars, email_app, <- Hs1.
      repeat split; auto.
    + intros n' e' (pre' & m' & post' & Hhtml' & Hn' & Hm' & He').
      destruct (lt_eq_lt_dec n' (length pre)) as [[Hlt | Heq] | Hgt];
        [exfalso | right | left; exact Hgt].
      * subst n'.
        assert (HM : Matches true
                       (map Chr (chars "mailto:") ++ GroupOpen :: email_items ++ [GroupClose])
                       (last_char None pre') (m' ++ chars e' ++ post')%list no_capture
                       post' (Some (chars e' ++ post')%list, Some post')).
        { apply (proj2 (matches_mailto _ _ _ _)). exists m', (chars e'). auto. }
        apply match_items_complete in HM. destruct HM as [r Hr].
        rewrite (Hfirst pre' (m' ++ chars e' ++ post')%list) in Hr; auto.
        discriminate.
      * split; [exact Heq |]. subst n'.
        rewrite Hhtml in Hhtml'.
        destruct (same_cut _ _ _ _ Hhtml' (eq_sym Heq)) as [<- Hfrom].
        assert (Hlen7 : length ms = length m').
        { apply (f_equal (@length ascii)) in Hms, Hm'.
          rewrite length_map in Hms, Hm'. simpl in Hms, Hm'. lia. }
        destruct (same_cut _ _ _ _ Hfrom Hlen7) as [<- Hs1'].
        destruct He' as (l2 & d2 & t2 & He' & _ & Hl2 & _ & Hd2 & Htn2 & Ht2).
        assert (Hle : length s1' <= length post').
        { apply (Hlongest l2 d2 t2 post' post' (Some s1, Some post')); auto.
          - rewrite Hs1', He'. apply email_app.
          - constructor. constructor. }
        rewrite <- !length_chars, chars_of_chars.
        apply (f_equal (@length ascii)) in Hs1, Hs1'.
        rewrite Hs1' in Hs1. rewrite <- email_app in Hs1.
        remember (l ++ "@"%char :: d ++ "."%char :: t)%list as e0.
        rewrite !length_app in Hs1. lia.
  - intros n e (pre & m & post & Hhtml & Hn & Hm & He).
    apply (search_complete _ _ _ _ Hs pre (m ++ chars e ++ post)%list post
             (Some (chars e ++ post)%list, Some post)); auto.
    change (ignoreCase mailto_re) with true.
    apply matches_mailto. exists m, (chars e). auto.
Qed.

(** [html.match] with the second pattern: the match array holds the first
    bare token, the longest one at its place; and [null] means that the page
    has none. *)
Lemma str_match_plain (html : string) :
  match str_match html plain_re with
  | Some arr => exists n e, arr = [e] /\ first_longest (bare_email_at html) n e
  | None => forall n e, ~ bare_email_at html n e
  end.
Proof.
  unfold str_match.
  destruct (search (ignoreCase plain_re) (source plain_re) None (chars html))
    as [[from [rest cap]] |] eqn:Hs.
  - apply search_found in Hs. destruct Hs as (pre & Hhtml & Hhit & Hfirst).
    change (ignoreCase plain_re) with true in *.
    change (source plain_re) with (WordB :: email_items ++ [WordB])%list in *.
    apply match_wordb in Hhit. destruct Hhit as [Hb Hhit].
    apply email_items_longest in Hhit.
    destruct Hhit as (l & d & t & s1 & Hfrom & Hln & Hl & Hdn & Hd & Htn & Ht
                      & Hclose & Hlongest).
    apply match_wordb in Hclose. destruct Hclose as [Hb' Hclose].
    simpl in Hclose. inversion Hclose. subst rest cap. clear Hclose.
    assert (He : email_shaped (l ++ "@"%char :: d ++ "."%char :: t)).
    { exists l, d, t. repeat split; auto. }
    rewrite <- email_app in Hfrom.
    exists (length pre), (of_chars (l ++ "@"%char :: d ++ "."%char :: t)).
    split; [now rewrite Hfrom, between_app |]. split.
    + exists pre, s1. rewrite chars_of_chars, <- Hfrom.
      repeat split; auto.
      * now apply word_boundary_xorb.
      * apply word_boundary_xorb. rewrite last_char_app, email_shaped_last by lia.
        exact Hb'.
    + intros n' e' (pre' & post' & Hhtml' & Hn' & He' & Hb1 & Hb2).
      apply word_boundary_xorb in Hb1, Hb2.
      destruct He' as (l2 & d2 & t2 & He' & Hln2 & Hl2 & Hdn2 & Hd2 & Htn2 & Ht2).
      rewrite He', last_char_app, email_shaped_last in Hb2 by lia.
      destruct (lt_eq_lt_dec n' (length pre)) as [[Hlt | Heq] | Hgt];
        [exfalso | right | left; exact Hgt].
      * subst n'.
        assert (HM : Matches true (WordB :: email_items ++ [WordB])
                       (last_char None pre') (chars e' ++ post')%list no_capture
                       post' no_capture).
        { apply (proj2 (matches_plain _ _ _ _)). exists (chars e').
          repeat split; auto.
          - exists l2, d2, t2. repeat split; auto.
          - rewrite He', email_shaped_last by lia. exact Hb2. }
        apply match_items_complete in HM. destruct HM as [r Hr].
        rewrite (Hfirst pre' (chars e' ++ post')%list) in Hr; auto.
        discriminate.
      * split; [exact Heq |]. subst n'.
        rewrite Hhtml in Hhtml'.
        destruct (same_cut _ _ _ _ Hhtml' (eq_sym Heq)) as [<- Hfrom'].
        assert (Hle : length s1 <= length post').
        { apply (Hlongest l2 d2 t2 post' post' no_capture); auto.
          - rewrite Hfrom', He'. apply email_app.
          - constructor; [exact Hb2 | constructor]. }
        rewrite <- !length_chars, chars_of_chars.
        rewrite Hfrom in Hfrom'. apply (f_equal (@length ascii)) in Hfrom'.
        remember (l ++ "@"%char :: d ++ "."%char :: t)%list as e0.
        rewrite !length_app in Hfrom'. lia.
  - intros n e (pre & post & Hhtml & Hn & He & Hb1 & Hb2).
    apply word_boundary_xorb in Hb1, Hb2.
    apply (search_complete _ _ _ _ Hs pre (chars e ++ post)%list post no_capture); auto.
    change (ignoreCase plain_re) with true.
    apply matches_plain. exists (chars e). repeat split; auto.
    now rewrite last_char_app in Hb2.
Qed.

(** The value returned from the two matches is a string in each case. *)
Lemma email_in_is_string (html : string) : exists e, email_in html = JStr e.
Proof.
  unfold email_in.
  pose proof (str_match_mailto html) as Hm.
  destruct (str_match html mailto_re) as [arr |].
  - destruct Hm as (n & whole & e & -> & _). now exists e.
  - pose proof (str_match_plain html) as Hp.
    destruct (str_match html plain_re) as [arr |].
    + destruct Hp as (n & e & -> & _). now exists e.
    + now exists "".
Qed.

(** The link first, the bare token otherwise, the empty string at last. *)
Lemma email_in_extracted (html : string) :
  exists e, email_in html = JStr e /\ extracted html e.
Proof.
  unfold email_in, extracted.
  pose proof (str_match_mailto html) as Hm.
  pose proof (str_match_plain html) as Hp.
  destruct (str_match html mailto_re) as [arr |].
  - destruct Hm as (n & whole & e & -> & Hfirst).
    exists e. split; [reflexivity |]. left. now exists n.
  - destruct (str_match html plain_re) as [arr |].
    + destruct Hp as (n & e & -> & Hfirst).
      exists e. split; [reflexivity |]. right. left. split; [exact Hm |]. now exists n.
    + exists "". split; [reflexivity |]. right. right. auto.
Qed.

Lemma chars_inj (s s' : string) : chars s = chars s' -> s = s'.
Proof. intros Heq. now rewrite <- (of_chars_chars s), Heq, of_chars_chars. Qed.

(** The first and longest occurrence is one token. *)
Lemma first_longest_mailto_unique (html : string) (n n' : nat) (e e' : string) :
  first_longest (mailto_link_at html) n e ->
  first_longest (mailto_link_at html) n' e' ->
  e = e'.
Proof.
  intros [Hat Hmax] [Hat' Hmax'].
  destruct (Hmax _ _ Hat') as [Hlt | [Hn Hlen]];
    destruct (Hmax' _ _ Hat) as [Hlt' | [Hn' Hlen']]; try lia.
  subst n'.
  destruct Hat as (pre & m & post & Hhtml & Hpre & Hm & _).
  destruct Hat' as (pre' & m' & post' & Hhtml' & Hpre' & Hm' & _).
  rewrite Hhtml in Hhtml'.
  destruct (same_cut _ _ _ _ Hhtml' ltac:(lia)) as [_ Hrest].
  assert (Hlen7 : length m = length m').
  { apply (f_equal (@length ascii)) in Hm, Hm'.
    rewrite length_map in Hm, Hm'. lia. }
  destruct (same_cut _ _ _ _ Hrest Hlen7) as [_ Hrest'].
  apply chars_inj.
  apply (same_cut _ _ _ _ Hrest'). rewrite !length_chars. lia.
Qed.

Lemma first_longest_bare_unique (html : string) (n n' : nat) (e e' : string) :
  first_longest (bare_email_at html) n e ->
  first_longest (bare_email_at html) n' e' ->
  e = e'.
Proof.
  intros [Hat Hmax] [Hat' Hmax'].
  destruct (Hmax _ _ Hat') as [Hlt | [Hn Hlen]];
    destruct (Hmax' _ _ Hat) as [Hlt' | [Hn' Hlen']]; try lia.
  subst n'.
  destruct Hat as (pre & post & Hhtml & Hpre & _).
  destruct Hat' as (pre' & post' & Hhtml' & Hpre' & _).
  rewrite Hhtml in Hhtml'.
  destruct (same_cut _ _ _ _ Hhtml' ltac:(lia)) as [_ Hrest].
  apply chars_inj.
  apply (same_cut _ _ _ _ Hrest). rewrite !length_chars. lia.
Qed.

(** The words of the specification name one address. *)
Lemma extracted_unique (html e e' : string) :
  extracted html e -> extracted html e' -> e = e'.
Proof.
  intros [(n & Hm) | [(Hno & n & Hb) | (Hno & Hnob & ->)]]
         [(n' & Hm') | [(Hno' & n' & Hb') | (Hno' & Hnob' & ->)]];
    try reflexivity;
    try (now apply (first_longest_mailto_unique html n n'));
    try (now apply (first_longest_bare_unique html n n'));
    exfalso;
    repeat match goal with
           | Hf : first_longest _ _ _ |- _ => destruct Hf as [? _]
           end;
    match goal with
    | Hn : forall n e, ~ ?occurs n e, Hat : ?occurs _ _ |- _ => exact (Hn _ _ Hat)
    end.
Qed.

End EmailOfPage.

(* ================================================================== *)
(** ** The email extractor *)

Section Extractor.
Context {Num : NumberModel} {H : Host}.
Import EmailSpec.

Lemma startsWith_http_not_empty (u : string) :
  startsWith u "http" = true -> (u =? "")%string = false.
Proof. destruct u; [discriminate | reflexivity]. Qed.

(** The run of the extractor on a string. *)
Lemma run_findEmailFromWebsite (w : World) (u : string) :
  run w (findEmailFromWebsite (JStr u))
  = if startsWith u "http" then
      ([EFetch (website_request u)],
       inr match w (website_request u) with
           | FetchReject _ => JStr ""
           | FetchResolve resp =>
               if ok resp then
                 match text resp with
                 | inl _ => JStr ""
                 | inr html => email_in html
                 end
               else JStr ""
           end)
    else ([], inr (JStr "")).
Proof.
  unfold findEmailFromWebsite. cbn [truthy].
  destruct (startsWith u "http") eqn:Hs.
  - rewrite (startsWith_http_not_empty u Hs). cbn [negb].
    unfold fetch, resp_text. cbn [bind try_catch run].
    destruct (w (website_request u)) as [e | resp]; cbn [bind try_catch run];
      [reflexivity |].
    destruct (ok resp); cbn [negb bind try_catch run]; [| reflexivity].
    destruct (text resp); reflexivity.
  - destruct (u =? "")%string; reflexivity.
Qed.

(** C3. An address that does not start with [http] gives the empty string
    with no request sent.  Else, when the page is fetched, the extractor
    sends its one GET and returns the address that the specification names
    on the page: the token of the first [mailto:] link, taken as far as it is
    email-shaped, if the page has such a link, wherever its bare tokens are;
    else the first bare email-shaped token, as long as it goes; else the
    empty string.  These words name one address and no other. *)
Theorem extractor_returns_first_email (w : World) (u html : string) :
  (startsWith u "http" = false ->
   run w (findEmailFromWebsite (JStr u)) = ([], inr (JStr "")))
  /\ (startsWith u "http" = true ->
      page_fetched w u html ->
      exists e,
        run w (findEmailFromWebsite (JStr u))
        = ([EFetch {| url := u; method := "GET";
                      req_headers := [ ("User-Agent", "Pathfinder/1.0") ];
                      req_body := None |}],
           inr (JStr e))
        /\ extracted html e)
  /\ (forall e e', extracted html e -> extracted html e' -> e = e').
Proof.
  split; [| split].
  - intros Hs. now rewrite run_findEmailFromWebsite, Hs.
  - intros Hs (resp & Hw & Hok & Htxt).
    destruct (email_in_extracted html) as (e & He & Hex).
    exists e. split; [| exact Hex].
    rewrite run_findEmailFromWebsite, Hs, Hw, Hok, Htxt, He. reflexivity.
  - apply extracted_unique.
Qed.

(** A truthy value that is not a string has no [startsWith]: the call
    throws before the [try] of the extractor. *)
Lemma extractor_throws_on_non_string (w : World) (v : JSValue) :
  truthy v = true ->
  is_string v = false ->
  run w (findEmailFromWebsite v)
  = ([], inl (TypeError "url.startsWith is not a function")).
Proof.
  intros Ht Hs. unfold findEmailFromWebsite. rewrite Ht.
  destruct v; simpl in *; try discriminate; reflexivity.
Qed.

(** What the extractor returns is a string. *)
Lemma extractor_returns_string (w : World) (v r : JSValue) (t : list Effect) :
  run w (findEmailFromWebsite v) = (t, inr r) -> exists e, r = JStr e.
Proof.
  destruct v as [| | b | n | u | items | props];
    try (unfold findEmailFromWebsite; cbn [truthy];
         match goal with
         | |- context [negb ?c] => destruct c
         end; simpl; intros Heq; inversion Heq; now exists "").
  rewrite run_findEmailFromWebsite.
  destruct (startsWith u "http").
  - intros Heq. inversion Heq.
    destruct (w (website_request u)) as [err | resp]; [now exists "" |].
    destruct (ok resp); [| now exists ""].
    destruct (text resp) as [err | html]; [now exists "" |].
    apply email_in_is_string.
  - intros Heq. inversion Heq. now exists "".
Qed.

(** C7. The extractor sends one request at most.  On a string it never
    throws; and whenever it has sent its request it returns a string, which
    is empty when the request failed: the [fetch] rejected (network error,
    abort by the timer), the status was not a success, or the body could not
    be read. *)
Theorem extractor_never_throws (w : World) (u : JSValue) :
  exists t r,
    run w (findEmailFromWebsite u) = (t, r)
    /\ length (requests t) <= 1
    /\ (is_string u = true -> exists e, r = inr (JStr e))
    /\ (forall rq, In rq (requests t) ->
                   exists e, r = inr (JStr e)
                             /\ (request_fails w rq = true -> e = "")).
Proof.
  destruct (is_string u) eqn:Hs.
  - destruct u as [| | b | n | s | items | props]; try discriminate.
    rewrite run_findEmailFromWebsite. unfold request_fails.
    destruct (startsWith s "http").
    + assert (Hr : exists e,
                 match w (website_request s) with
                 | FetchReject _ => JStr ""
                 | FetchResolve resp =>
                     if ok resp
                     then match text resp with
                          | inl _ => JStr ""
                          | inr html => email_in html
                          end
                     else JStr ""
                 end = JStr e
                 /\ (match w (website_request s) with
                     | FetchReject _ => true
                     | FetchResolve resp =>
                         negb (ok resp)
                         || match text resp with inl _ => true | inr _ => false end
                     end = true -> e = "")).
      { destruct (w (website_request s)) as [err | resp]; [now exists "" |].
        destruct (ok resp); [| now exists ""].
        destruct (text resp) as [err | html]; [now exists "" |].
        destruct (email_in_is_string html) as [e ->].
        exists e. split; [reflexivity | discriminate]. }
      destruct Hr as (e & -> & Hfail).
      eexists _, _. split; [reflexivity |]. simpl.
      split; [lia |]. split; [eauto |].
      intros rq [<- | []]. eauto.
    + eexists _, _. split; [reflexivity |]. simpl.
      split; [lia |]. split; [eauto |]. intros rq [].
  - destruct (truthy u) eqn:Ht.
    + eexists _, _. split; [apply (extractor_throws_on_non_string w u Ht Hs) |].
      simpl. split; [lia |]. split; [discriminate |]. intros rq [].
    + unfold findEmailFromWebsite. rewrite Ht. simpl.
      eexists _, _. split; [reflexivity |]. simpl.
      split; [lia |]. split; [eauto |]. intros rq [].
Qed.

End Extractor.


(* ================================================================== *)
(** ** The shape of a 200 response *)

Section Shape.
Context {Num : NumberModel} {H : Host}.
Open Scope prog_scope.

Lemma for_places_inv (w : World) (step : JSValue -> Prog JSValue) (ps : list JSValue) :
  forall acc t rs,
    run w (for_places step ps acc) = (t, inr rs) ->
    exists rs',
      rs = (acc ++ rs')%list
      /\ Forall2 (fun p r => snd (run w (step p)) = inr r) ps rs'.
Proof.
  induction ps as [| p ps IH]; intros acc t rs; simpl.
  - intros Heq. inversion Heq. subst. exists []. split; [now rewrite app_nil_r | constructor].
  - rewrite run_bind.
    destruct (run w (step p)) as [t1 [e | r]] eqn:Hp; [discriminate |].
    destruct (run w (for_places step ps (acc ++ [r]))) as [t2 res] eqn:Hrest.
    intros Heq. inversion Heq. subst.
    destruct (IH _ _ _ Hrest) as (rs' & -> & Hall).
    exists (r :: rs'). split; [now rewrite <- app_assoc |].
    constructor; [now rewrite Hp | exact Hall].
Qed.

Lemma js_or_string (v : JSValue) :
  string_or_falsy v = true -> is_string (js_or v (JStr "")) = true.
Proof.
  unfold string_or_falsy, js_or. intros Hv.
  destruct (truthy v); [| reflexivity].
  now rewrite orb_false_r in Hv.
Qed.

Lemma is_string_inv (v : JSValue) : is_string v = true -> exists s, v = JStr s.
Proof. destruct v; try discriminate. eauto. Qed.

Lemma maps_url_is_string (p : JSValue) : exists u, maps_url_of p = JStr u.
Proof. unfold maps_url_of. destruct (truthy (member p "id")); eauto. Qed.

(** What the detail lookup returns, when the provider answers in the data
    model. *)
Lemma placeDetails_in_model (w : World) (apiKey : string) (id details : JSValue)
    (t : list Effect) :
  details_in_model w ->
  run w (placeDetails apiKey id) = (t, inr details) ->
  string_or_falsy (member details "websiteUri") = true.
Proof.
  intros Hmodel. unfold placeDetails. rewrite run_bind, run_or_throw.
  destruct (ToString id) as [s |]; [| discriminate].
  rewrite run_bind. unfold fetch at 1. simpl run at 1.
  destruct (w (details_request apiKey s)) as [e | resp] eqn:Hw; simpl; [discriminate |].
  rewrite run_bind. unfold resp_text.
  destruct (text resp) as [e | txt] eqn:Htxt; simpl; [discriminate |].
  destruct (ok resp); simpl.
  - intros Heq. inversion Heq. unfold safeJson, js_or.
    destruct (JSON_parse txt) as [d |] eqn:Hparse; [| reflexivity].
    destruct (truthy d); [| reflexivity].
    exact (Hmodel _ _ _ _ _ Hw Htxt Hparse).
  - rewrite run_bind.
    destruct (run w (cleanGoogleError txt)) as [t' [e | m]]; simpl; discriminate.
Qed.

(** What the search returns, when the provider answers in the data model. *)
Lemma placesTextSearch_in_model (w : World) (apiKey q : string)
    (places : JSValue) (items : list JSValue) (t : list Effect) :
  search_in_model w ->
  run w (placesTextSearch apiKey q) = (t, inr places) ->
  iterate places = Some items ->
  Forall (fun p =>
            string_or_falsy (get_opt (member p "displayName") "text") = true
            /\ string_or_falsy (member p "formattedAddress") = true) items.
Proof.
  intros Hmodel. unfold placesTextSearch, fetch, resp_text. cbn [bind run].
  destruct (w (search_request apiKey q)) as [e | resp] eqn:Hw; cbn [bind run];
    [discriminate |].
  destruct (text resp) as [e | txt] eqn:Htxt; cbn [bind run]; [discriminate |].
  destruct (ok resp); cbn [negb].
  - cbn [run]. intros Heq Hiter. inversion Heq. subst places. clear Heq.
    unfold safeJson, js_or in Hiter.
    destruct (JSON_parse txt) as [data |] eqn:Hparse.
    + destruct (truthy (get_opt data "places")).
      * apply Forall_forall. intros p Hin.
        exact (Hmodel _ _ _ _ _ _ _ Hw Htxt Hparse Hiter Hin).
      * simpl in Hiter. inversion Hiter. constructor.
    + simpl in Hiter. inversion Hiter. constructor.
  - rewrite run_bind.
    destruct (run w (cleanGoogleError txt)) as [t' [e | m]]; simpl; discriminate.
Qed.

(** The values that the lookups of a place resolve to, when the provider
    answers in the data model: two strings, the extractor being given a
    string and therefore not throwing. *)
Lemma enrich_outcome_in_model (w : World) (apiKey : string) (id : JSValue) :
  details_in_model w ->
  exists website email : string,
    enrich_outcome w apiKey id = (JStr website, JStr email)
    /\ (forall t e,
          run w (placeDetails apiKey id) = (t, inl e) -> website = "" /\ email = "")
    /\ (forall t details,
          run w (placeDetails apiKey id) = (t, inr details) ->
          JStr website = js_or (member details "websiteUri") (JStr "")
          /\ exists t',
               run w (findEmailFromWebsite (JStr website)) = (t', inr (JStr email))).
Proof.
  intros Hmodel. unfold enrich_outcome.
  destruct (run w (placeDetails apiKey id)) as [t [e | details]] eqn:Hd; simpl snd;
    cbv zeta.
  - exists "", "". split; [reflexivity |]. split; [auto | discriminate].
  - pose proof (placeDetails_in_model _ _ _ _ _ Hmodel Hd) as Htyped.
    apply js_or_string, is_string_inv in Htyped. destruct Htyped as [site Hsite].
    rewrite Hsite.
    destruct (truthy (JStr site)) eqn:Hw.
    + destruct (run w (findEmailFromWebsite (JStr site))) as [t' [e | email]] eqn:He;
        simpl snd.
      * exfalso. rewrite run_findEmailFromWebsite in He.
        destruct (startsWith site "http"); discriminate.
      * destruct (extractor_returns_string _ _ _ _ He) as [m ->].
        exists site, m. split; [reflexivity |]. split; [discriminate |].
        intros t0 d0 Heq. inversion Heq. subst. rewrite Hsite. eauto.
    + exists site, "". split; [reflexivity |]. split; [discriminate |].
      intros t0 d0 Heq. inversion Heq. subst. rewrite Hsite.
      split; [reflexivity |].
      unfold findEmailFromWebsite. rewrite Hw. simpl. eauto.
Qed.

(** The result of a place whose lookups are made. *)
Lemma enriched_lead_in_model (w : World) (apiKey : string) (p : JSValue) :
  details_in_model w ->
  resolved_on_its_own w apiKey p (enriched_lead w apiKey p).
Proof.
  intros Hmodel. unfold enriched_lead, resolved_on_its_own.
  destruct (truthy (member p "id")) eqn:Hid.
  - destruct (enrich_outcome_in_model w apiKey (member p "id") Hmodel)
      as (website & email & -> & Hthrow & Hret).
    exists website, email. split; [reflexivity |]. split; [discriminate |].
    intros _. split; assumption.
  - exists "", "". split; [reflexivity |]. split; [auto | discriminate].
Qed.

(** The result of a place is a [LeadResult] of the data model, when the
    providers answer in the data model. *)
Lemma lead_in_model (w : World) (apiKey : string) (inc p : JSValue) :
  details_in_model w ->
  string_or_falsy (get_opt (member p "displayName") "text") = true ->
  string_or_falsy (member p "formattedAddress") = true ->
  LeadResult (if truthy inc then enriched_lead w apiKey p else plain_lead p).
Proof.
  intros Hmodel Hname Haddress.
  apply js_or_string, is_string_inv in Hname, Haddress.
  destruct Hname as [name Hname], Haddress as [address Haddress].
  destruct (maps_url_is_string p) as [u Hu].
  assert (Hplain : LeadResult (plain_lead p)).
  { exists name, address, "", "", u.
    unfold plain_lead, lead, name_of, address_of. now rewrite Hname, Haddress, Hu. }
  destruct (truthy inc); [| exact Hplain].
  destruct (enriched_lead_in_model w apiKey p Hmodel) as (website & email & -> & _).
  exists name, address, website, email, u.
  unfold name_of, address_of. now rewrite Hname, Haddress, Hu.
Qed.

(** Every path of the handler ends in a response. *)
Lemma handler_never_throws (w : World) (API_KEY : option string) (event : Event) :
  exists t resp, run w (handler API_KEY event) = (t, inr resp).
Proof.
  unfold handler.
  destruct (httpMethod event =? "OPTIONS")%string; [simpl; eauto |].
  destruct (httpMethod event =? "POST")%string; cbn [negb]; [| simpl; eauto].
  rewrite run_try_catch.
  destruct (run w (handler_try API_KEY event)) as [t [e | resp]]; simpl; eauto.
Qed.

(** The only way to a 200 response. *)
Lemma handler_200_inv (w : World) (API_KEY : option string) (event : Event)
    (t : list Effect) (resp : HttpResponse) :
  run w (handler API_KEY event) = (t, inr resp) ->
  statusCode resp = 200 ->
  exists apiKey parsed bt c t' places items results,
    API_KEY = Some apiKey
    /\ JSON_parse (body_text event) = Some parsed
    /\ ToString (member parsed "businessType") = Some bt
    /\ ToString (member parsed "city") = Some c
    /\ run w (placesTextSearch apiKey (query_of bt c)) = (t', inr places)
    /\ iterate places = Some items
    /\ Forall2 (fun p r =>
                  snd (run w (place_result apiKey
                                (member parsed "includeWebsiteEmail") p)) = inr r)
               items results
    /\ resp = json cors_headers 200
                (JObj [ ("query", JStr (query_of bt c));
                        ("count", JNum (number_of_nat (length results)));
                        ("results", JArr results) ]).
Proof.
  unfold handler.
  destruct (httpMethod event =? "OPTIONS")%string.
  { simpl. intros Heq. inversion Heq. subst. discriminate. }
  destruct (httpMethod event =? "POST")%string; cbn [negb].
  2: { simpl. intros Heq. inversion Heq. subst. discriminate. }
  rewrite run_try_catch.
  destruct (run w (handler_try API_KEY event)) as [t0 [e | a]] eqn:Htry.
  { simpl. intros Heq. inversion Heq. subst. discriminate. }
  intros Heq. inversion Heq. subst a t0. clear Heq. intros H200.
  revert Htry. unfold handler_try. cbn [console_log bind run].
  destruct API_KEY as [apiKey |].
  2: { simpl. intros Heq. inversion Heq. subst. discriminate. }
  destruct (apiKey =? "")%string.
  { simpl. intros Heq. inversion Heq. subst. discriminate. }
  destruct (JSON_parse (body_text event)) as [parsed |] eqn:Hparse.
  2: { simpl. intros Heq. inversion Heq. subst. discriminate. }
  unfold get. destruct (nullish parsed); [discriminate |].
  cbn [or_throw bind].
  destruct (negb (truthy (member parsed "businessType"))
            || negb (truthy (member parsed "city"))).
  { simpl. intros Heq. inversion Heq. subst. discriminate. }
  destruct (ToString (member parsed "businessType")) as [bt |] eqn:Hbt;
    [| discriminate].
  destruct (ToString (member parsed "city")) as [c |] eqn:Hc; [| discriminate].
  cbn [or_throw bind run]. fold (query_of bt c).
  rewrite run_bind.
  destruct (run w (placesTextSearch apiKey _)) as [t1 [e | places]] eqn:Hsearch;
    [discriminate |].
  rewrite run_bind, run_or_throw.
  destruct (iterate places) as [items |] eqn:Hiter; [| discriminate].
  rewrite run_bind.
  destruct (run w (for_places _ items [])) as [t2 [e | results]] eqn:Hloop;
    [discriminate |].
  cbn [run]. intros Heq. inversion Heq. subst.
  destruct (for_places_inv _ _ _ _ _ _ Hloop) as (rs & -> & Hall).
  exists apiKey, parsed, bt, c, t1, places, items, rs.
  repeat split; auto.
Qed.

(** What a turn of the loop pushes, when it does not throw, told from the
    place. *)
Lemma place_result_inv (w : World) (apiKey : string) (inc p r : JSValue) :
  snd (run w (place_result apiKey inc p)) = inr r ->
  r = if truthy inc then enriched_lead w apiKey p else plain_lead p.
Proof.
  unfold place_result, get.
  destruct (nullish p); [discriminate |].
  simpl or_throw. cbn [bind]. rewrite run_bind.
  unfold enriched_lead, plain_lead, maps_url_of, name_of, address_of.
  destruct (truthy inc); destruct (truthy (member p "id")); cbn [andb];
    try (destruct (ToString (member p "id")); simpl; intros Heq;
         [inversion Heq; reflexivity | discriminate]);
    try (simpl; intros Heq; inversion Heq; reflexivity).
  pose proof (run_enrich w apiKey (member p "id")) as He.
  destruct (run w (enrich apiKey (member p "id"))) as [t [e | we]]; simpl in He;
    [discriminate |].
  inversion He. subst we.
  destruct (ToString (member p "id")); simpl; intros Heq;
    [inversion Heq; reflexivity | discriminate].
Qed.

Lemma results_of_turns (w : World) (apiKey : string) (inc : JSValue)
    (ps rs : list JSValue) :
  Forall2 (fun p r => snd (run w (place_result apiKey inc p)) = inr r) ps rs ->
  rs = map (fun p => if truthy inc then enriched_lead w apiKey p else plain_lead p) ps.
Proof.
  induction 1 as [| p r ps rs Hp _ IH]; simpl; [reflexivity |].
  now rewrite (place_result_inv _ _ _ _ _ Hp), IH.
Qed.

(** The 200 response to a valid request that the search provider answers
    with places, whenever the response is 200. *)
Lemma response_200_found (w : World) (apiKey : string) (event : Event)
    (parsed : JSValue) (bt c : string) (ps : list JSValue)
    (t : list Effect) (resp : HttpResponse) :
  JSON_parse (body_text event) = Some parsed ->
  member parsed "businessType" = JStr bt ->
  member parsed "city" = JStr c ->
  search_returns w apiKey (query_of bt c) ps ->
  run w (handler (Some apiKey) event) = (t, inr resp) ->
  statusCode resp = 200 ->
  let inc := member parsed "includeWebsiteEmail" in
  resp = json cors_headers 200
           (JObj [ ("query", JStr (query_of bt c));
                   ("count", JNum (number_of_nat (length ps)));
                   ("results",
                    JArr (map (fun p => if truthy inc
                                        then enriched_lead w apiKey p
                                        else plain_lead p) ps)) ]).
Proof.
  intros Hparse Hbt Hc Hsearch Hrun H200 inc.
  destruct (handler_200_inv w _ event t resp Hrun H200)
    as (apiKey' & parsed' & bt' & c' & t' & places & items & results
        & Hkey & Hparse' & Hbt' & Hc' & Hs & Hiter & Hall & ->).
  inversion Hkey. subst apiKey'.
  rewrite Hparse in Hparse'. inversion Hparse'. subst parsed'.
  rewrite Hbt in Hbt'. rewrite Hc in Hc'. simpl in Hbt', Hc'.
  inversion Hbt'. inversion Hc'. subst bt' c'.
  rewrite (run_placesTextSearch _ _ _ _ Hsearch) in Hs. inversion Hs. subst places.
  simpl in Hiter. inversion Hiter. subst items.
  rewrite (results_of_turns _ _ _ _ _ Hall). now rewrite length_map.
Qed.

(** C5. In every 200 response to providers that answer in the data model
    -- strings, or nothing, for the name and the address of a place and for
    the address of its website -- the body is the JSON text of an object
    whose [count] is the length of its [results], and each result has the
    five fields, each of them a string. *)
Theorem fields_of_a_200_response (w : World) (API_KEY : option string)
    (event : Event) (t : list Effect) (resp : HttpResponse) :
  search_in_model w ->
  details_in_model w ->
  run w (handler API_KEY event) = (t, inr resp) ->
  statusCode resp = 200 ->
  exists query results,
    resp_body resp
    = JSON_stringify
        (JObj [ ("query", JStr query);
                ("count", JNum (number_of_nat (length results)));
                ("results", JArr results) ])
    /\ Forall LeadResult results.
Proof.
  intros Hsearch_model Hdetails_model Hrun H200.
  destruct (handler_200_inv w API_KEY event t resp Hrun H200)
    as (apiKey & parsed & bt & c & t' & places & items & results
        & -> & _ & _ & _ & Hsearch & Hiter & Hall & ->).
  exists (query_of bt c), results. split; [reflexivity |].
  rewrite (results_of_turns _ _ _ _ _ Hall).
  pose proof (placesTextSearch_in_model _ _ _ _ _ _ Hsearch_model Hsearch Hiter)
    as Hitems.
  apply Forall_map. revert Hitems. apply Forall_impl.
  intros p [Hname Haddress]. now apply lead_in_model.
Qed.

End Shape.

(* ================================================================== *)
(** ** The results of a search *)

Section Results.
Context {Num : NumberModel} {H : Host}.


(** C4. A valid request that does not ask for enrichment, answered by the
    search provider with N places.  When the places are objects with
    identifiers that are strings (or anything but [null], with any identifier
    that converts to a string), the one request of the run is the search,
    nothing is slept, and the response has the status 200 and a body that
    is the JSON text of an object with the query, the count N and one
    result per place, in the order of the places, each with the name, the
    address and the map link of its place and with empty [website] and
    [email].  And whenever the response is 200, that is its body. *)
Theorem results_without_enrichment (w : World) (apiKey : string) (event : Event)
    (parsed : JSValue) (businessType city : string) (ps : list JSValue) :
  httpMethod event = "POST" ->
  apiKey <> "" ->
  JSON_parse (body_text event) = Some parsed ->
  member parsed "businessType" = JStr businessType -> businessType <> "" ->
  member parsed "city" = JStr city -> city <> "" ->
  truthy (member parsed "includeWebsiteEmail") = false ->
  search_returns w apiKey (query_of businessType city) ps ->
  let body_200 :=
    JSON_stringify
      (JObj [ ("query", JStr (query_of businessType city));
              ("count", JNum (number_of_nat (length ps)));
              ("results",
               JArr (map (fun p =>
                            JObj [ ("name", name_of p); ("address", address_of p);
                                   ("website", JStr ""); ("email", JStr "");
                                   ("google_maps_url", maps_url_of p) ]) ps)) ]) in
  (Forall (fun p => place_like p = true) ps ->
   exists t resp,
     run w (handler (Some apiKey) event) = (t, inr resp)
     /\ requests t = [search_request apiKey (query_of businessType city)]
     /\ sleeps t = []
     /\ statusCode resp = 200
     /\ resp_body resp = body_200)
  /\ (forall t resp,
        run w (handler (Some apiKey) event) = (t, inr resp) ->
        statusCode resp = 200 ->
        resp_body resp = body_200).
Proof.
  intros Hpost Hkey Hparse Hbt Hbt0 Hc Hc0 Hinc Hsearch body_200.
  split.
  - intros Hplaces.
    rewrite (run_handler_found w apiKey event parsed businessType city ps); auto.
    rewrite Hinc.
    assert (Hturns : flat_map
                       (fun p => fst (run w (place_result apiKey
                                               (member parsed "includeWebsiteEmail") p)))
                       ps = []).
    { clear Hsearch body_200. induction Hplaces as [| p ps' Hp _ IH]; simpl;
        [reflexivity |].
      now rewrite (plain_turn w apiKey _ p Hinc Hp), IH. }
    rewrite Hturns. eexists _, _. split; [reflexivity |]. repeat split.
  - intros t resp Hrun H200.
    rewrite (response_200_found w apiKey event parsed businessType city ps t resp);
      auto.
    now rewrite Hinc.
Qed.

(** C1. A valid request that asks for enrichment, answered by the search
    provider with places, in the data model of the specification: the places
    are objects with identifiers that are strings, and the details of a
    place have a string, or nothing, for the address of its website.
    Whatever lookup fails, the response has the status 200 and its body holds
    one result per place, in the order of the places, each resolved on its
    own: where the detail lookup of a place throws, the [website] and the
    [email] of that place are empty, and every other place has the [website]
    of its details and the [email] that the extractor returns for it.  The
    extractor, given a string, does not throw. *)
Theorem lookup_failure_is_contained (w : World) (apiKey : string) (event : Event)
    (parsed : JSValue) (businessType city : string) (ps : list JSValue) :
  httpMethod event = "POST" ->
  apiKey <> "" ->
  JSON_parse (body_text event) = Some parsed ->
  member parsed "businessType" = JStr businessType -> businessType <> "" ->
  member parsed "city" = JStr city -> city <> "" ->
  truthy (member parsed "includeWebsiteEmail") = true ->
  search_returns w apiKey (query_of businessType city) ps ->
  Forall (fun p => place_like p = true) ps ->
  details_in_model w ->
  exists t resp results,
    run w (handler (Some apiKey) event) = (t, inr resp)
    /\ statusCode resp = 200
    /\ resp_body resp
       = JSON_stringify
           (JObj [ ("query", JStr (query_of businessType city));
                   ("count", JNum (number_of_nat (length ps)));
                   ("results", JArr results) ])
    /\ Forall2 (resolved_on_its_own w apiKey) ps results.
Proof.
  intros Hpost Hkey Hparse Hbt Hbt0 Hc Hc0 Hinc Hsearch Hplaces Hmodel.
  rewrite (run_handler_found w apiKey event parsed businessType city ps); auto.
  rewrite Hinc.
  eexists _, _, _. split; [reflexivity |]. split; [reflexivity |].
  split; [reflexivity |].
  clear - Hmodel. induction ps as [| p ps IH]; simpl; constructor; auto.
  now apply enriched_lead_in_model.
Qed.

End Results.

(* ================================================================== *)
(** ** Determinism *)

Section Determinism.
Context {Num : NumberModel} {H : Host}.

(** A run depends on the upstream through the answers to the requests it
    sends, and on nothing else. *)
Lemma run_depends_on_answers {A : Type} (m : Prog A) (w1 w2 : World) :
  (forall rq, In rq (requests (fst (run w1 m))) -> w1 rq = w2 rq) ->
  run w1 m = run w2 m.
Proof.
  induction m as [a | e | rq k IH | ms k IH | l p k IH]; simpl; intros Hagree.
  - reflexivity.
  - reflexivity.
  - assert (Hrq : w1 rq = w2 rq).
    { apply Hagree. destruct (run w1 (k (w1 rq))). simpl. auto. }
    rewrite <- Hrq, <- (IH (w1 rq)); [reflexivity |].
    intros rq' Hin. apply Hagree.
    destruct (run w1 (k (w1 rq))). simpl in *. auto.
  - rewrite <- IH; [reflexivity |].
    intros rq' Hin. apply Hagree. destruct (run w1 k). simpl in *. auto.
  - rewrite <- IH; [reflexivity |].
    intros rq' Hin. apply Hagree. destruct (run w1 k). simpl in *. auto.
Qed.

(** Of a request the handler reads the method and, of a POST request, the
    three fields of the body, after it has logged the event: two requests
    with the same input are the same program, or the same program after
    their first log line. *)
Lemma handler_reads_three_fields (API_KEY : option string) (event1 event2 : Event) :
  same_input event1 event2 ->
  (exists resp,
     handler API_KEY event1 = Ret resp /\ handler API_KEY event2 = Ret resp)
  \/ (exists m,
        handler API_KEY event1 = Log "Incoming request:" (incoming event1) m
        /\ handler API_KEY event2 = Log "Incoming request:" (incoming event2) m).
Proof.
  intros [Hmethod Hbody].
  unfold handler. rewrite <- Hmethod.
  destruct (httpMethod event1 =? "OPTIONS")%string; [left; eauto |].
  destruct (httpMethod event1 =? "POST")%string; cbn [negb]; [right | left; eauto].
  unfold handler_try. cbn [console_log bind try_catch].
  destruct API_KEY as [apiKey |]; [| eexists; split; reflexivity].
  destruct (apiKey =? "")%string; [eexists; split; reflexivity |].
  destruct (JSON_parse (body_text event1)) as [parsed1 |],
           (JSON_parse (body_text event2)) as [parsed2 |];
    try contradiction; [| eexists; split; reflexivity].
  rewrite (Hbody "businessType"), (Hbody "city"), (Hbody "includeWebsiteEmail");
    simpl; auto.
  eexists. split; reflexivity.
Qed.

(** C8. The response of the handler is a function of the input -- the
    method and the three fields of the body --, of the credential and of the
    answers of the upstream, and of nothing else.  Two runs on requests with
    the same input, be they one request or two that differ in their path or
    in the text of their body, with the same credential, against upstreams
    that answer alike the requests the first run sends, return the same
    response -- the same status, the same headers and the same body, byte for
    byte -- and perform the same effects in the same order after the log
    line of the request. *)
Theorem handler_is_deterministic (w1 w2 : World) (API_KEY : option string)
    (event1 event2 : Event) :
  same_input event1 event2 ->
  (forall rq, In rq (requests (fst (run w1 (handler API_KEY event1)))) ->
              w1 rq = w2 rq) ->
  exists t1 t2 resp,
    run w1 (handler API_KEY event1) = (t1, inr resp)
    /\ run w2 (handler API_KEY event2) = (t2, inr resp)
    /\ tl t1 = tl t2.
Proof.
  intros Hsame Hagree.
  destruct (handler_never_throws w1 API_KEY event1) as (t1 & resp & Hrun1).
  destruct (handler_reads_three_fields API_KEY event1 event2 Hsame)
    as [(resp' & E1 & E2) | (m & E1 & E2)];
    rewrite E1 in Hrun1, Hagree; rewrite E1, E2; clear E1 E2.
  - eexists _, _, _. repeat split.
  - cbn [run] in *.
    assert (Hm : run w1 m = run w2 m).
    { apply run_depends_on_answers. intros rq Hin. apply Hagree.
      destruct (run w1 m). exact Hin. }
    rewrite <- Hm. destruct (run w1 m) as [t r].
    inversion Hrun1. subst. eexists _, _, _. repeat split.
Qed.

End Determinism.

(* ================================================================== *)
(** ** Where the terser variant differs *)

Section TerseFacts.
Context {Num : NumberModel} {H : Host}.




End TerseFacts.

(* ================================================================== *)
(** ** The properties at work *)

Module Examples.
Import Sample EmailSpec.

(** The examples of the extraction. *)
Example email_of_mailto_link :
  email_in "<a href='mailto:test@example.com'>Mail</a>" = JStr "test@example.com".
Proof. reflexivity. Qed.

Example email_of_bare_token :
  email_in "<footer>Contact jane@company.co.nz today</footer>"
  = JStr "jane@company.co.nz".
Proof. reflexivity. Qed.

Example email_of_neither : email_in "<p>No contact here</p>" = JStr "".
Proof. reflexivity. Qed.

Example link_wins_over_earlier_token : email_in acme_page = JStr "test@example.com".
Proof. reflexivity. Qed.

(** What an upstream answers is the answer of one of its routes, or the
    rejection of a [fetch] that failed. *)
Lemma upstream_answers (routes : list (string * FetchResult)) (rq : Request) :
  upstream routes rq = FetchReject (Error "fetch failed")
  \/ In (upstream routes rq) (map snd routes).
Proof.
  unfold upstream.
  destruct (find (fun r => (fst r =? url rq)%string) routes) as [r |] eqn:Hfind;
    [right | left; reflexivity].
  apply find_some in Hfind. destruct Hfind as [Hin _]. now apply in_map.
Qed.

(** The end-to-end example. *)
Lemma results_without_enrichment_witness :
  exists t resp,
    run one_place (handler api_key (search_for false)) = (t, inr resp)
    /\ requests t
       = [search_request "test-key" "kitchen designer in Christchurch, New Zealand"]
    /\ sleeps t = []
    /\ statusCode resp = 200
    /\ resp_body resp
       = to_text
           (JObj [ ("query", JStr "kitchen designer in Christchurch, New Zealand");
                   ("count", JNum 1%Z);
                   ("results",
                    JArr [ JObj [ ("name", JStr "Acme Kitchens");
                                  ("address", JStr "1 Main St");
                                  ("website", JStr "");
                                  ("email", JStr "");
                                  ("google_maps_url",
                                   JStr "https://www.google.com/maps/place/?q=place_id:p1") ] ]) ]).
Proof.
  refine (proj1 (results_without_enrichment one_place "test-key" (search_for false)
                   (request_body "kitchen designer" "Christchurch" false)
                   "kitchen designer" "Christchurch" [acme]
                   _ _ _ _ _ _ _ _ _) _).
  - reflexivity.
  - discriminate.
  - reflexivity.
  - reflexivity.
  - discriminate.
  - reflexivity.
  - discriminate.
  - reflexivity.
  - eexists _, _, _. repeat split; reflexivity.
  - repeat constructor.
Defined.

(** The credential is missing: a valid request is answered 500. *)
Lemma missing_credential_is_500_witness :
  exists payload resp,
    run all_well (handler None (search_for true))
    = ([ELog "Incoming request:" payload], inr resp)
    /\ statusCode resp = 500
    /\ resp_body resp
       = to_text
           (JObj [ ("error", JStr "Missing GOOGLE_MAPS_API_KEY");
                   ("hint", JStr "Add GOOGLE_MAPS_API_KEY in Netlify → Site configuration → Environment variables, then redeploy.") ]).
Proof.
  refine (missing_credential_is_500 all_well None (search_for true) _ _);
    reflexivity.
Defined.

(** An empty [businessType] is answered 400. *)
Lemma missing_field_is_400_witness :
  let event := post (Some (to_text (request_body "" "Christchurch" false))) in
  run no_places (handler api_key event)
  = ([ELog "Incoming request:" (incoming event)],
     inr (json cors_headers 400 fields_required)).
Proof.
  apply (missing_field_is_400 no_places "test-key"
           (post (Some (to_text (request_body "" "Christchurch" false))))
           (request_body "" "Christchurch" false)).
  - reflexivity.
  - discriminate.
  - reflexivity.
  - reflexivity.
  - reflexivity.
Defined.

(** A [businessType] of three spaces is empty after trimming, and yet the
    request is not answered 400: it goes to the search, with a query that
    starts with [ in ], and is answered 200. *)
Lemma blank_field_is_not_400 :
  let event := post (Some (to_text (request_body "   " "Christchurch" false))) in
  JSON_parse (body_text event) = Some (request_body "   " "Christchurch" false)
  /\ trim "   " = ""
  /\ exists resp,
       run no_places (handler api_key event)
       = ([ ELog "Incoming request:" (incoming event);
            ELog "Search query:" (JStr " in Christchurch, New Zealand");
            EFetch (search_request "test-key" " in Christchurch, New Zealand") ],
          inr resp)
       /\ statusCode resp = 200
       /\ statusCode resp <> 400.
Proof.
  split; [reflexivity |]. split; [reflexivity |].
  eexists. split; [reflexivity |]. split; [reflexivity | discriminate].
Qed.

(** The literal [null] is answered 500, an absent body 400. *)
Lemma body_that_is_not_an_object_witness :
  run no_places (handler api_key (post (Some "null")))
  = ([ ELog "Incoming request:" (incoming (post (Some "null")));
       ELog "Unhandled error:"
         (JObj [ ("message", JStr (message (TypeError "body.businessType"))) ]) ],
     inr (json cors_headers 500 (unhandled (TypeError "body.businessType"))))
  /\ run no_places (handler api_key (post None))
     = ([ELog "Incoming request:" (incoming (post None))],
        inr (json cors_headers 400 fields_required)).
Proof.
  split.
  - apply (body_that_is_not_an_object no_places "test-key" (post (Some "null")));
      [reflexivity | discriminate | reflexivity].
  - apply (body_that_is_not_an_object no_places "test-key" (post None));
      [reflexivity | discriminate | reflexivity | reflexivity].
Defined.

(** The body [5] is valid JSON and not an object, and yet nothing throws:
    the request is answered 400, not 500. *)
Lemma number_body_is_not_500 :
  JSON_parse (body_text (post (Some "5"))) = Some (JNum 5%Z)
  /\ (forall props, JNum 5%Z <> JObj props)
  /\ exists resp,
       run no_places (handler api_key (post (Some "5")))
       = ([ELog "Incoming request:" (incoming (post (Some "5")))], inr resp)
       /\ resp = json cors_headers 400 fields_required
       /\ statusCode resp <> 500.
Proof.
  split; [reflexivity |]. split; [discriminate |].
  eexists. split; [reflexivity |]. split; [reflexivity | discriminate].
Qed.


(** The page of the first place: the link wins over the token before it;
    and an address that is not on the web is not fetched. *)
Lemma extractor_returns_first_email_witness :
  extracted acme_page "test@example.com"
  /\ run all_well (findEmailFromWebsite (JStr "https://acme.example"))
     = ([EFetch {| url := "https://acme.example"; method := "GET";
                   req_headers := [ ("User-Agent", "Pathfinder/1.0") ];
                   req_body := None |}],
        inr (JStr "test@example.com"))
  /\ run all_well (findEmailFromWebsite (JStr "ftp://acme.example"))
     = ([], inr (JStr "")).
Proof.
  destruct (extractor_returns_first_email all_well "https://acme.example" acme_page)
    as (_ & Hpage & _).
  destruct Hpage as (e & Hrun & Hex);
    [reflexivity | eexists; repeat split; reflexivity |].
  assert (He : e = "test@example.com").
  { vm_compute in Hrun. now inversion Hrun. }
  subst e. split; [exact Hex |]. split; [exact Hrun |].
  apply (extractor_returns_first_email all_well "ftp://acme.example" "").
  reflexivity.
Defined.

(** The address of a link is taken whole: as far as it is email-shaped,
    and not as far as its first label of two letters. *)
Example link_address_is_taken_whole :
  email_in "mailto:a@b.co.nz" = JStr "a@b.co.nz"
  /\ extracted "mailto:a@b.co.nz" "a@b.co.nz"
  /\ ~ extracted "mailto:a@b.co.nz" "a@b.co".
Proof.
  destruct (email_in_extracted "mailto:a@b.co.nz") as (e & He & Hex).
  vm_compute in He. inversion He. subst e.
  split; [reflexivity |]. split; [exact Hex |].
  intros Hcut. now pose proof (extracted_unique _ _ _ Hex Hcut).
Qed.

(** A website that cannot be reached. *)
Lemma extractor_never_throws_witness :
  request_fails all_well (website_request "https://nowhere.example") = true
  /\ exists t r,
       run all_well (findEmailFromWebsite (JStr "https://nowhere.example")) = (t, r)
       /\ length (requests t) <= 1
       /\ (is_string (JStr "https://nowhere.example") = true ->
           exists e, r = inr (JStr e))
       /\ (forall rq, In rq (requests t) ->
                      exists e, r = inr (JStr e)
                                /\ (request_fails all_well rq = true -> e = "")).
Proof.
  split; [reflexivity |].
  apply (extractor_never_throws all_well (JStr "https://nowhere.example")).
Defined.

(** The upstream whose second detail lookup fails answers in the data
    model. *)
Lemma details_down_in_model : details_in_model details_down.
Proof.
  intros apiKey id resp txt data Hw Htxt Hparse.
  unfold details_down in Hw.
  match type of Hw with
  | upstream ?routes ?rq = _ =>
      destruct (upstream_answers routes rq) as [Hr | Hin];
        rewrite Hw in *; [discriminate |]
  end.
  simpl in Hin.
  repeat (destruct Hin as [Hin | Hin]); try contradiction;
    inversion Hin; subst resp; simpl in Htxt; inversion Htxt; subst txt;
    vm_compute in Hparse; try discriminate; inversion Hparse; reflexivity.
Qed.

(** The detail lookup of the second place fails: the response is 200 and
    every place is there, each resolved on its own. *)
Lemma lookup_failure_is_contained_witness :
  (exists t e, run details_down (placeDetails "test-key" (JStr "p2")) = (t, inl e))
  /\ exists t resp results,
       run details_down (handler api_key (search_for true)) = (t, inr resp)
       /\ statusCode resp = 200
       /\ resp_body resp
          = to_text
              (JObj [ ("query", JStr "kitchen designer in Christchurch, New Zealand");
                      ("count", JNum 3%Z);
                      ("results", JArr results) ])
       /\ Forall2 (resolved_on_its_own details_down "test-key")
            [acme; best; no_id] results.
Proof.
  split; [eexists _, _; reflexivity |].
  refine (lookup_failure_is_contained details_down "test-key" (search_for true)
            (request_body "kitchen designer" "Christchurch" true)
            "kitchen designer" "Christchurch" [acme; best; no_id]
            _ _ _ _ _ _ _ _ _ _ details_down_in_model);
    try first [reflexivity | discriminate].
  - eexists _, _, _. repeat split; reflexivity.
  - repeat constructor.
Defined.

(** The response of that run: the second place has empty [website] and
    [email], between its neighbours as resolved. *)
Example partial_failure :
  response_of (run details_down (handler api_key (search_for true)))
  = Some {| statusCode := 200;
            headers := cors_headers;
            resp_body :=
              to_text
                (JObj [ ("query", JStr "kitchen designer in Christchurch, New Zealand");
                        ("count", JNum 3%Z);
                        ("results",
                         JArr [ lead (JStr "Acme Kitchens") (JStr "1 Main St")
                                  (JStr "https://acme.example")
                                  (JStr "test@example.com") (maps_url "p1");
                                lead (JStr "Best Benches") (JStr "2 High St")
                                  (JStr "") (JStr "") (maps_url "p2");
                                lead (JStr "Corner Cabinets") (JStr "3 Low St")
                                  (JStr "") (JStr "") (JStr "") ]) ]) |}.
Proof. reflexivity. Qed.

(** Outside the data model: the detail lookup of the second place answers
    the number 7 for the website.  The extraction throws on it, for that
    place only, and the [website] of the place in the response is 7. *)
Example extraction_failure_keeps_website :
  snd (run odd_website (placeDetails "test-key" (JStr "p2")))
  = inr (website_of (JNum 7%Z))
  /\ snd (run odd_website (findEmailFromWebsite (JNum 7%Z)))
     = inl (TypeError "url.startsWith is not a function")
  /\ (exists e, snd (run odd_website
                       (findEmailFromWebsite (JStr "https://acme.example")))
                = inr e)
  /\ response_of (run odd_website (handler api_key (search_for true)))
     = Some (json cors_headers 200
               (JObj [ ("query", JStr "kitchen designer in Christchurch, New Zealand");
                       ("count", JNum 3%Z);
                       ("results",
                        JArr [ lead (JStr "Acme Kitchens") (JStr "1 Main St")
                                 (JStr "https://acme.example")
                                 (JStr "test@example.com") (maps_url "p1");
                               lead (JStr "Best Benches") (JStr "2 High St")
                                 (JNum 7%Z) (JStr "") (maps_url "p2");
                               lead (JStr "Corner Cabinets") (JStr "3 Low St")
                                 (JStr "") (JStr "") (JStr "") ]) ]))
  /\ JNum 7%Z <> JStr "".
Proof.
  split; [reflexivity |]. split; [reflexivity |].
  split; [eexists; reflexivity |]. split; [reflexivity | discriminate].
Qed.

(** The upstream of the end-to-end example answers in the data model. *)
Lemma one_place_in_model : search_in_model one_place /\ details_in_model one_place.
Proof.
  split.
  - intros apiKey query resp txt data items p Hw Htxt Hparse Hiter Hin.
    unfold one_place in Hw.
    match type of Hw with
    | upstream ?routes ?rq = _ =>
        destruct (upstream_answers routes rq) as [Hr | Hr];
          rewrite Hw in *; [discriminate |]
    end.
    simpl in Hr. destruct Hr as [Hr | []].
    inversion Hr. subst resp. simpl in Htxt. inversion Htxt. subst txt.
    vm_compute in Hparse. inversion Hparse. subst data.
    simpl in Hiter. inversion Hiter. subst items.
    destruct Hin as [<- | []]. split; reflexivity.
  - intros apiKey id resp txt data Hw Htxt Hparse.
    unfold one_place in Hw.
    match type of Hw with
    | upstream ?routes ?rq = _ =>
        destruct (upstream_answers routes rq) as [Hr | Hr];
          rewrite Hw in *; [discriminate |]
    end.
    simpl in Hr. destruct Hr as [Hr | []].
    inversion Hr. subst resp. simpl in Htxt. inversion Htxt. subst txt.
    vm_compute in Hparse. inversion Hparse. reflexivity.
Qed.

(** The shape of the 200 response of the end-to-end example. *)
Lemma fields_of_a_200_response_witness :
  exists query results,
    to_text
      (JObj [ ("query", JStr "kitchen designer in Christchurch, New Zealand");
              ("count", JNum 1%Z);
              ("results",
               JArr [ JObj [ ("name", JStr "Acme Kitchens");
                             ("address", JStr "1 Main St");
                             ("website", JStr "");
                             ("email", JStr "");
                             ("google_maps_url",
                              JStr "https://www.google.com/maps/place/?q=place_id:p1") ] ]) ])
    = to_text
        (JObj [ ("query", JStr query);
                ("count", JNum (Z.of_nat (length results)));
                ("results", JArr results) ])
    /\ Forall LeadResult results.
Proof.
  refine (fields_of_a_200_response one_place api_key (search_for false)
           [ ELog "Incoming request:" (incoming (search_for false));
             ELog "Search query:" (JStr "kitchen designer in Christchurch, New Zealand");
             EFetch (search_request "test-key"
                       "kitchen designer in Christchurch, New Zealand") ]
           {| statusCode := 200;
              headers := cors_headers;
              resp_body :=
                to_text
                  (JObj [ ("query", JStr "kitchen designer in Christchurch, New Zealand");
                          ("count", JNum 1%Z);
                          ("results",
                           JArr [ JObj [ ("name", JStr "Acme Kitchens");
                                         ("address", JStr "1 Main St");
                                         ("website", JStr "");
                                         ("email", JStr "");
                                         ("google_maps_url",
                                          JStr "https://www.google.com/maps/place/?q=place_id:p1") ] ]) ]) |}
           (proj1 one_place_in_model) (proj2 one_place_in_model) _ _);
    reflexivity.
Defined.

(** Outside the data model: the search answers a place whose display name
    is the number 7.  The response is 200 and the [name] of its result is 7,
    which is not a string. *)
Example name_that_is_not_a_string :
  exists resp,
    response_of (run odd_search (handler api_key (search_for false))) = Some resp
    /\ statusCode resp = 200
    /\ resp = json cors_headers 200
                (JObj [ ("query", JStr "kitchen designer in Christchurch, New Zealand");
                        ("count", JNum 1%Z);
                        ("results",
                         JArr [ lead (JNum 7%Z) (JStr "") (JStr "") (JStr "")
                                  (maps_url "p4") ]) ])
    /\ is_string (JNum 7%Z) = false.
Proof.
  eexists. split; [reflexivity |]. repeat split.
Qed.

(** In the terser variant the failure of one detail lookup fails the
    request. *)
Example terse_lookup_failure_is_fatal :
  response_of (run details_down (Terse.handler api_key (search_for true)))
  = Some (Terse.respond 500 (JObj [ ("error", JStr "Service Unavailable") ])).
Proof. reflexivity. Qed.

End Examples.

(* ================================================================== *)
(** ** The answers to other requests *)

Section OtherAnswers.
Context {Num : NumberModel} {H : Host}.
Open Scope prog_scope.

(** X1. A request that is not a POST is answered without any effect --
    not a log line -- and without a look at the credential or at the body:
    204 with an empty body for OPTIONS, 405 with an [error] otherwise. *)
Theorem other_methods_are_turned_away (w : World) (API_KEY : option string)
    (event : Event) :
  httpMethod event <> "POST" ->
  run w (handler API_KEY event)
  = ([], inr (if (httpMethod event =? "OPTIONS")%string
              then {| statusCode := 204; headers := cors_headers; resp_body := "" |}
              else {| statusCode := 405; headers := cors_headers;
                      resp_body :=
                        JSON_stringify
                          (JObj [ ("error", JStr "Method not allowed. Use POST.") ]) |})).
Proof.
  intros Hm. apply String.eqb_neq in Hm.
  unfold handler. rewrite Hm.
  destruct (httpMethod event =? "OPTIONS")%string; reflexivity.
Qed.

(** X2. With the credential set, a POST request whose body does not parse
    is answered 400 with an [error] and a [hint], after the first log line
    and before any upstream call. *)
Theorem invalid_json_is_400 (w : World) (apiKey : string) (event : Event) :
  httpMethod event = "POST" ->
  apiKey <> "" ->
  JSON_parse (body_text event) = None ->
  run w (handler (Some apiKey) event)
  = ([ELog "Incoming request:" (incoming event)],
     inr {| statusCode := 400; headers := cors_headers;
          resp_body := JSON_stringify invalid_json |})
  /\ is_string (member invalid_json "error") = true
  /\ is_string (member invalid_json "hint") = true.
Proof.
  intros Hpost Hkey Hparse.
  destruct (post_is_not_options event Hpost) as [Hopt Hp].
  split; [| split; reflexivity].
  unfold handler. rewrite Hopt, Hp. simpl.
  apply String.eqb_neq in Hkey. now rewrite Hkey, Hparse.
Qed.

Lemma slice0_length (n : nat) (s : string) : String.length (slice0 n s) <= n.
Proof.
  unfold slice0. revert s.
  induction n as [| n IH]; intros s; destruct s as [| c s]; simpl; try lia.
  specialize (IH s). lia.
Qed.

(** X3. [cleanGoogleError] performs no effect and what it returns has 500
    characters at most.  It reads the message of the provider where there is
    one: [error.message] of the body first, [message] of the body next, and
    the body as it is when it is not JSON. *)
Theorem cleanGoogleError_is_short (w : World) (t : string) :
  (forall tr s, run w (cleanGoogleError t) = (tr, inr s) ->
                tr = [] /\ String.length s <= 500)
  /\ (JSON_parse t = None -> run w (cleanGoogleError t) = ([], inr (slice0 500 t)))
  /\ (forall data m,
        JSON_parse t = Some data ->
        get_opt (get_opt data "error") "message" = JStr m -> m <> "" ->
        run w (cleanGoogleError t) = ([], inr (slice0 500 m)))
  /\ (forall data m,
        JSON_parse t = Some data ->
        truthy (get_opt (get_opt data "error") "message") = false ->
        get_opt data "message" = JStr m -> m <> "" ->
        run w (cleanGoogleError t) = ([], inr (slice0 500 m))).
Proof.
  unfold cleanGoogleError, safeJson. split; [| split; [| split]].
  - intros tr s.
    destruct (ToString _) as [s0 |]; simpl; intros Heq; inversion Heq.
    split; [reflexivity | apply slice0_length].
  - intros ->. reflexivity.
  - intros data m -> -> Hm. apply String.eqb_neq in Hm.
    unfold js_or at 1. cbn [truthy]. now rewrite Hm.
  - intros data m -> Hfalsy -> Hm. apply String.eqb_neq in Hm.
    unfold js_or. rewrite Hfalsy. cbn [truthy]. now rewrite Hm.
Qed.

(** The run of the handler on a valid request, told from the runs of the
    search and of the loop. *)
Lemma run_handler_valid (w : World) (apiKey : string) (event : Event)
    (parsed : JSValue) (bt c : string) :
  httpMethod event = "POST" ->
  apiKey <> "" ->
  JSON_parse (body_text event) = Some parsed ->
  member parsed "businessType" = JStr bt -> bt <> "" ->
  member parsed "city" = JStr c -> c <> "" ->
  let q := query_of bt c in
  let head := [ ELog "Incoming request:" (incoming event);
                ELog "Search query:" (JStr q) ] in
  run w (handler (Some apiKey) event)
  = match run w (placesTextSearch apiKey q) with
    | (ts, inl e) => failed (head ++ ts) e
    | (ts, inr places) =>
        match iterate places with
        | None => failed (head ++ ts) (TypeError "places is not iterable")
        | Some items =>
            match run w (for_places
                           (place_result apiKey (member parsed "includeWebsiteEmail"))
                           items []) with
            | (tl, inl e) => failed (head ++ ts ++ tl) e
            | (tl, inr results) =>
                ((head ++ ts ++ tl)%list,
                 inr (json cors_headers 200
                        (JObj [ ("query", JStr q);
                                ("count", JNum (number_of_nat (length results)));
                                ("results", JArr results) ])))
            end
        end
    end.
Proof.
  intros Hpost Hkey Hparse Hbt Hbt0 Hc Hc0 q head.
  destruct (post_is_not_options event Hpost) as [Hopt Hp].
  pose proof (member_string_not_nullish _ _ _ Hbt) as Hnn.
  unfold handler. rewrite Hopt, Hp. cbn [negb].
  rewrite run_try_catch. unfold handler_try.
  cbn [console_log bind run].
  apply String.eqb_neq in Hkey. rewrite Hkey, Hparse.
  unfold get. rewrite Hnn. cbn [or_throw bind]. rewrite Hbt, Hc.
  apply String.eqb_neq in Hbt0, Hc0.
  cbn [truthy]. rewrite Hbt0, Hc0. cbn [negb orb ToString or_throw bind run].
  fold (query_of bt c). fold q.
  rewrite run_bind.
  destruct (run w (placesTextSearch apiKey q)) as [ts [e | places]].
  - unfold failed, head. simpl. reflexivity.
  - rewrite run_bind, run_or_throw.
    destruct (iterate places) as [items |].
    + rewrite run_bind.
      destruct (run w (for_places _ items [])) as [tl [e | results]];
        unfold failed, head; simpl; rewrite ?app_nil_r, <- ?app_assoc; reflexivity.
    + unfold failed, head. simpl. rewrite ?app_nil_r. reflexivity.
Qed.

(** X4. A failure of the search fails a valid request: after the two log
    lines, the one request of the search and the log line of the outer
    [catch], the answer is 500 and nothing else was sent.  When the [fetch]
    rejects, [error] is the message of the rejection; when the provider
    answers a status that is not a success, [error] is
    [Places Text Search failed], the status and the message cleaned from the
    body.  An empty message is replaced by [Server error]. *)
Theorem search_failure_is_500 (w : World) (apiKey : string) (event : Event)
    (parsed : JSValue) (businessType city : string) :
  httpMethod event = "POST" ->
  apiKey <> "" ->
  JSON_parse (body_text event) = Some parsed ->
  member parsed "businessType" = JStr businessType -> businessType <> "" ->
  member parsed "city" = JStr city -> city <> "" ->
  let q := query_of businessType city in
  let trace :=
    [ ELog "Incoming request:" (incoming event);
      ELog "Search query:" (JStr q);
      EFetch (search_request apiKey q) ] in
  (forall e,
     w (search_request apiKey q) = FetchReject e ->
     run w (handler (Some apiKey) event) = failed trace e)
  /\ (forall resp txt m,
        w (search_request apiKey q) = FetchResolve resp ->
        ok resp = false ->
        text resp = inr txt ->
        run w (cleanGoogleError txt) = ([], inr m) ->
        let e := Error ("Places Text Search failed (" ++ status_text resp ++ "): " ++ m) in
        run w (handler (Some apiKey) event) = failed trace e
        /\ member (unhandled e) "error" = JStr (message e))
  /\ (forall e, message e = "" -> member (unhandled e) "error" = JStr "Server error").
Proof.
  intros Hpost Hkey Hparse Hbt Hbt0 Hc Hc0 q trace.
  pose proof (run_handler_valid w apiKey event parsed businessType city
                Hpost Hkey Hparse Hbt Hbt0 Hc Hc0) as Hrun.
  cbv zeta in Hrun. fold q in Hrun.
  split; [| split].
  - intros e Hw. rewrite Hrun.
    unfold placesTextSearch, fetch. cbn [bind run]. rewrite Hw. reflexivity.
  - intros resp txt m Hw Hok Htxt Hm e. split; [| reflexivity].
    rewrite Hrun.
    unfold placesTextSearch, fetch, resp_text. cbn [bind run].
    rewrite Hw. cbn [bind]. rewrite Htxt. cbn [bind]. rewrite Hok. cbn [negb].
    rewrite run_bind, Hm. reflexivity.
  - intros [m] Hm. simpl in Hm. subst m. reflexivity.
Qed.

(** X5. When the search succeeds and its body is not JSON, or has no
    [places], or has a falsy value there, a valid request is answered 200
    with the count 0 and no result, and nothing is looked up. *)
Theorem no_places_is_an_empty_200 (w : World) (apiKey : string) (event : Event)
    (parsed : JSValue) (businessType city : string) (resp : Response) (txt : string) :
  httpMethod event = "POST" ->
  apiKey <> "" ->
  JSON_parse (body_text event) = Some parsed ->
  member parsed "businessType" = JStr businessType -> businessType <> "" ->
  member parsed "city" = JStr city -> city <> "" ->
  let q := query_of businessType city in
  w (search_request apiKey q) = FetchResolve resp ->
  ok resp = true ->
  text resp = inr txt ->
  truthy (get_opt (safeJson txt) "places") = false ->
  run w (handler (Some apiKey) event)
  = ([ ELog "Incoming request:" (incoming event);
       ELog "Search query:" (JStr q);
       EFetch (search_request apiKey q) ],
     inr {| statusCode := 200; headers := cors_headers;
            resp_body :=
              JSON_stringify
                (JObj [ ("query", JStr q);
                        ("count", JNum (number_of_nat 0));
                        ("results", JArr []) ]) |}).
Proof.
  intros Hpost Hkey Hparse Hbt Hbt0 Hc Hc0 q Hw Hok Htxt Hnone.
  rewrite (run_handler_valid w apiKey event parsed businessType city); auto.
  fold q.
  unfold placesTextSearch, fetch, resp_text. cbn [bind run].
  rewrite Hw. cbn [bind]. rewrite Htxt. cbn [bind]. rewrite Hok. cbn [negb].
  unfold js_or. rewrite Hnone. reflexivity.
Qed.

Lemma run_for_places_throw (w : World) (step : JSValue -> Prog JSValue)
    (ps1 ps2 rs : list JSValue) (p : JSValue) (e : exn) :
  Forall2 (fun p r => snd (run w (step p)) = inr r) ps1 rs ->
  snd (run w (step p)) = inl e ->
  forall acc,
    run w (for_places step (ps1 ++ p :: ps2) acc)
    = ((flat_map (fun p => fst (run w (step p))) ps1 ++ fst (run w (step p)))%list,
       inl e).
Proof.
  intros Hall Hp.
  induction Hall as [| p1 r ps rs' Hp1 _ IH]; intros acc; simpl.
  - rewrite run_bind. destruct (run w (step p)) as [t [e' | r]]; simpl in *;
      [| discriminate].
    inversion Hp. reflexivity.
  - rewrite run_bind. destruct (run w (step p1)) as [t [e' | r']]; simpl in *;
      [discriminate |].
    rewrite IH. now rewrite <- app_assoc.
Qed.

(** X6. One [null] among the places fails the whole request, asked for
    enrichment or not: the places before it take their turns, the turn of the
    [null] throws on reading its [id], and the answer is 500; the results
    gathered so far are lost and the places after it are not looked at. *)
Theorem null_place_is_500 (w : World) (apiKey : string) (event : Event)
    (parsed : JSValue) (businessType city : string) (ps1 ps2 : list JSValue)
    (v : JSValue) :
  httpMethod event = "POST" ->
  apiKey <> "" ->
  JSON_parse (body_text event) = Some parsed ->
  member parsed "businessType" = JStr businessType -> businessType <> "" ->
  member parsed "city" = JStr city -> city <> "" ->
  let q := query_of businessType city in
  let inc := member parsed "includeWebsiteEmail" in
  search_returns w apiKey q (ps1 ++ v :: ps2) ->
  Forall (fun p => place_like p = true) ps1 ->
  nullish v = true ->
  run w (handler (Some apiKey) event)
  = failed ([ ELog "Incoming request:" (incoming event);
              ELog "Search query:" (JStr q);
              EFetch (search_request apiKey q) ]
            ++ flat_map (fun p => fst (run w (place_result apiKey inc p))) ps1)
           (TypeError "p.id").
Proof.
  intros Hpost Hkey Hparse Hbt Hbt0 Hc Hc0 q inc Hsearch Hplaces Hnull.
  rewrite (run_handler_valid w apiKey event parsed businessType city); auto.
  fold q. rewrite (run_placesTextSearch _ _ _ _ Hsearch). cbn [iterate].
  assert (Hv : run w (place_result apiKey inc v) = ([], inl (TypeError "p.id"))).
  { unfold place_result, get. rewrite Hnull. reflexivity. }
  rewrite (run_for_places_throw w (place_result apiKey inc) ps1 ps2
             (map (fun p => if truthy inc then enriched_lead w apiKey p
                            else plain_lead p) ps1) v (TypeError "p.id")).
  - rewrite Hv. simpl fst. now rewrite app_nil_r.
  - clear Hsearch. induction Hplaces as [| p ps Hpl _ IH]; simpl; constructor; auto.
    now apply run_place_result.
  - now rewrite Hv.
Qed.

End OtherAnswers.

(* ================================================================== *)
(** ** The effects of a run *)

Section Effects.
Context {Num : NumberModel} {H : Host}.
Open Scope prog_scope.

Lemma requests_app (t1 t2 : list Effect) :
  requests (t1 ++ t2) = (requests t1 ++ requests t2)%list.
Proof.
  induction t1 as [| e t1 IH]; simpl; [reflexivity |].
  destruct e; simpl; now rewrite IH.
Qed.

Lemma sleeps_app (t1 t2 : list Effect) :
  sleeps (t1 ++ t2) = (sleeps t1 ++ sleeps t2)%list.
Proof.
  induction t1 as [| e t1 IH]; simpl; [reflexivity |].
  destruct e; simpl; now rewrite IH.
Qed.

Lemma logs_have_no_request (t : list Effect) :
  forallb is_log t = true -> requests t = [] /\ sleeps t = [].
Proof.
  induction t as [| e t IH]; simpl; [auto |].
  destruct e; simpl; try discriminate. exact IH.
Qed.

Lemma throttled_weaken (t : list Effect) (slept : bool) :
  throttled false t = true -> throttled slept t = true.
Proof. destruct t as [| [] t]; simpl; auto. discriminate. Qed.

Lemma throttled_app (t1 t2 : list Effect) :
  forall slept,
    throttled slept t1 = true -> throttled false t2 = true ->
    throttled slept (t1 ++ t2) = true.
Proof.
  induction t1 as [| e t1 IH]; intros slept H1 H2; simpl in *.
  - now apply throttled_weaken.
  - destruct e; simpl in *; auto.
    apply andb_true_iff in H1. destruct H1 as [-> H1]. simpl. auto.
Qed.

Lemma throttled_logs (t : list Effect) (slept : bool) :
  forallb is_log t = true -> throttled slept t = true.
Proof.
  revert slept. induction t as [| e t IH]; intros slept; simpl; [auto |].
  destruct e; simpl; try discriminate. auto.
Qed.

Lemma cleanGoogleError_trace (w : World) (t : string) :
  fst (run w (cleanGoogleError t)) = [].
Proof.
  unfold cleanGoogleError. destruct (ToString _); reflexivity.
Qed.

(** The search is one request, whatever comes of it. *)
Lemma placesTextSearch_trace (w : World) (apiKey q : string) :
  fst (run w (placesTextSearch apiKey q)) = [EFetch (search_request apiKey q)].
Proof.
  unfold placesTextSearch, fetch, resp_text. cbn [bind run].
  destruct (w (search_request apiKey q)) as [e | resp]; cbn [bind run];
    [reflexivity |].
  destruct (text resp) as [e | txt]; cbn [bind run]; [reflexivity |].
  destruct (ok resp); cbn [negb]; [reflexivity |].
  rewrite run_bind. pose proof (cleanGoogleError_trace w txt) as Hc.
  destruct (run w (cleanGoogleError txt)) as [tc [e | m]]; simpl in *; now subst.
Qed.

(** The detail lookup is one request, unless the identifier does not
    convert to a string. *)
Lemma placeDetails_trace (w : World) (apiKey : string) (id : JSValue) :
  fst (run w (placeDetails apiKey id))
  = match ToString id with
    | Some s => [EFetch (details_request apiKey s)]
    | None => []
    end.
Proof.
  unfold placeDetails, fetch, resp_text.
  destruct (ToString id) as [s |]; cbn [or_throw bind run]; [| reflexivity].
  destruct (w (details_request apiKey s)) as [e | resp]; cbn [bind run];
    [reflexivity |].
  destruct (text resp) as [e | txt]; cbn [bind run]; [reflexivity |].
  destruct (ok resp); cbn [negb]; [reflexivity |].
  rewrite run_bind. pose proof (cleanGoogleError_trace w txt) as Hc.
  destruct (run w (cleanGoogleError txt)) as [tc [e | m]]; simpl in *; now subst.
Qed.

(** The extractor sends nothing, or the one request of a page whose
    address starts with [http]. *)
Lemma findEmailFromWebsite_trace (w : World) (v : JSValue) :
  fst (run w (findEmailFromWebsite v)) = []
  \/ exists u, startsWith u "http" = true
               /\ fst (run w (findEmailFromWebsite v)) = [EFetch (website_request u)].
Proof.
  destruct v as [| | b | n | u | items | props];
    try (left; unfold findEmailFromWebsite; cbn [truthy];
         match goal with
         | |- context [negb ?c] => destruct c
         | _ => idtac
         end; reflexivity).
  rewrite run_findEmailFromWebsite.
  destruct (startsWith u "http") eqn:Hs; [right | left; reflexivity].
  exists u. auto.
Qed.

(** The run of the [try] block of the loop, told from the runs of the
    detail lookup and of the extractor. *)
Lemma run_enrich_eq (w : World) (apiKey : string) (id : JSValue) :
  run w (enrich apiKey id)
  = match run w (placeDetails apiKey id) with
    | (td, inl e) =>
        ((ESleep 120 :: td
          ++ [ELog "Website/email lookup failed:"
                (JObj [ ("placeId", id); ("error", JStr (message e)) ])])%list,
         inr (JStr "", JStr ""))
    | (td, inr details) =>
        let website := js_or (member details "websiteUri") (JStr "") in
        if truthy website then
          match run w (findEmailFromWebsite website) with
          | (te, inl e) =>
              ((ESleep 120 :: td ++ ESleep 120 :: te
                ++ [ELog "Website/email lookup failed:"
                      (JObj [ ("placeId", id); ("error", JStr (message e)) ])])%list,
               inr (website, JStr ""))
          | (te, inr email) =>
              ((ESleep 120 :: td ++ ESleep 120 :: te)%list, inr (website, email))
          end
        else ((ESleep 120 :: td)%list, inr (website, JStr ""))
    end.
Proof.
  unfold enrich.
  rewrite run_try_catch, run_bind. simpl (run w (sleep 120)). cbv iota beta.
  rewrite run_bind.
  destruct (run w (placeDetails apiKey id)) as [td [e | details]] eqn:Hd.
  - simpl. reflexivity.
  - pose proof (placeDetails_truthy _ _ _ _ _ Hd) as Ht.
    apply truthy_not_nullish in Ht.
    unfold get. rewrite Ht. cbn [or_throw bind]. cbv zeta.
    destruct (truthy (js_or (member details "websiteUri") (JStr ""))) eqn:Hw;
      rewrite ?Hw.
    + cbn [sleep bind try_catch]. cbn [run].
      rewrite run_try_catch, run_bind.
      destruct (run w (findEmailFromWebsite _)) as [te [e | email]]; simpl;
        rewrite ?app_nil_r, <- ?app_assoc; reflexivity.
    + simpl. now rewrite app_nil_r.
Qed.

(** The effects of the [try] block of the loop have the shape of a
    lookup. *)
Lemma enrich_trace (w : World) (apiKey : string) (id : JSValue) :
  lookup_trace apiKey (fst (run w (enrich apiKey id))).
Proof.
  rewrite run_enrich_eq.
  pose proof (placeDetails_trace w apiKey id) as Hd.
  destruct (run w (placeDetails apiKey id)) as [td [e | details]]; simpl in Hd.
  - exists td, [], [ELog "Website/email lookup failed:"
                     (JObj [ ("placeId", id); ("error", JStr (message e)) ])].
    simpl. repeat split; auto.
    subst td. destruct (ToString id); eauto.
  - cbv zeta.
    assert (Htd : td = [] \/ exists s, td = [EFetch (details_request apiKey s)]).
    { subst td. destruct (ToString id); eauto. }
    destruct (truthy (js_or (member details "websiteUri") (JStr ""))).
    + pose proof (findEmailFromWebsite_trace w
                    (js_or (member details "websiteUri") (JStr ""))) as He.
      destruct (run w (findEmailFromWebsite _)) as [te [e | email]]; simpl in He.
      * exists td, (ESleep 120 :: te),
          [ELog "Website/email lookup failed:"
             (JObj [ ("placeId", id); ("error", JStr (message e)) ])].
        simpl. split; [reflexivity |]. split; [exact Htd |].
        split; [| reflexivity].
        destruct He as [-> | (u & Hu & ->)]; eauto.
      * exists td, (ESleep 120 :: te), [].
        simpl. split; [now rewrite app_nil_r |]. split; [exact Htd |].
        split; [| reflexivity].
        destruct He as [-> | (u & Hu & ->)]; eauto.
    + exists td, [], []. simpl. rewrite app_nil_r. repeat split; auto.
Qed.

(** A turn of the loop has no effect, or those of a lookup when enrichment
    was asked for. *)
Lemma place_result_trace (w : World) (apiKey : string) (inc p : JSValue) :
  fst (run w (place_result apiKey inc p)) = []
  \/ (truthy inc = true
      /\ lookup_trace apiKey (fst (run w (place_result apiKey inc p)))).
Proof.
  unfold place_result, get.
  destruct (nullish p); [left; reflexivity |].
  simpl or_throw. cbn [bind]. rewrite run_bind.
  assert (Hurl : forall we : JSValue * JSValue,
             fst (run w (google_maps_url <-
                           (if truthy (member p "id")
                            then id <- or_throw "placeId" (ToString (member p "id")) ;;
                                 Ret (JStr ("https://www.google.com/maps/place/?q=place_id:" ++ id))
                            else Ret (JStr "")) ;;
                         Ret (lead (js_or (get_opt (member p "displayName") "text") (JStr ""))
                                (js_or (member p "formattedAddress") (JStr ""))
                                (fst we) (snd we) google_maps_url))) = []).
  { intros we. destruct (truthy (member p "id")); [| reflexivity].
    destruct (ToString (member p "id")); reflexivity. }
  destruct (truthy inc) eqn:Hinc; destruct (truthy (member p "id")) eqn:Hid;
    cbn [andb]; try (left; simpl; rewrite ?Hid; reflexivity);
    try (left; simpl; rewrite ?Hid; destruct (ToString (member p "id")); reflexivity).
  right. split; [reflexivity |].
  pose proof (enrich_trace w apiKey (member p "id")) as Ht.
  pose proof (run_enrich w apiKey (member p "id")) as Hr.
  destruct (run w (enrich apiKey (member p "id"))) as [t [e | we]]; simpl in Hr;
    [discriminate |].
  simpl in Ht.
  specialize (Hurl we). rewrite ?Hid in Hurl.
  destruct (run w (google_maps_url <- _ ;; _)) as [t' r']. simpl in Hurl. subst t'.
  simpl. now rewrite app_nil_r.
Qed.

(** The effects of the loop are those of the turns it took. *)
Lemma for_places_trace (w : World) (step : JSValue -> Prog JSValue)
    (ps : list JSValue) :
  forall acc,
    exists n,
      n <= length ps
      /\ fst (run w (for_places step ps acc))
         = flat_map (fun p => fst (run w (step p))) (firstn n ps).
Proof.
  induction ps as [| p ps IH]; intros acc; simpl.
  - exists 0. auto.
  - rewrite run_bind.
    destruct (run w (step p)) as [t [e | r]] eqn:Hp.
    + exists 1. simpl. rewrite Hp. simpl. split; [lia | now rewrite app_nil_r].
    + destruct (IH (acc ++ [r])%list) as (n & Hn & Hrun).
      destruct (run w (for_places step ps (acc ++ [r]))) as [t' r'].
      simpl in Hrun. subst t'.
      exists (S n). simpl. rewrite Hp. simpl. split; [lia | reflexivity].
Qed.

(** The effects of the handler: log lines only, or the two log lines and
    the search, then the effects of the turns of the loop, no more turns
    than there are places, then at most the log line of the outer [catch]. *)
Lemma handler_trace_shape (w : World) (API_KEY : option string) (event : Event) :
  let t := fst (run w (handler API_KEY event)) in
  forallb is_log t = true
  \/ exists apiKey parsed bt c turns tl,
       API_KEY = Some apiKey
       /\ JSON_parse (body_text event) = Some parsed
       /\ ToString (member parsed "businessType") = Some bt
       /\ ToString (member parsed "city") = Some c
       /\ t = (ELog "Incoming request:" (incoming event)
               :: ELog "Search query:" (JStr (query_of bt c))
               :: EFetch (search_request apiKey (query_of bt c))
               :: concat turns ++ tl)%list
       /\ Forall (fun tr => tr = []
                            \/ (truthy (member parsed "includeWebsiteEmail") = true
                                /\ lookup_trace apiKey tr)) turns
       /\ forallb is_log tl = true
       /\ (turns = []
           \/ exists places items,
                snd (run w (placesTextSearch apiKey (query_of bt c))) = inr places
                /\ iterate places = Some items
                /\ length turns <= length items).
Proof.
  intros t. subst t. unfold handler.
  destruct (httpMethod event =? "OPTIONS")%string; [left; reflexivity |].
  destruct (httpMethod event =? "POST")%string; cbn [negb]; [| left; reflexivity].
  rewrite run_try_catch. unfold handler_try. cbn [console_log bind run].
  destruct API_KEY as [apiKey |]; [| left; reflexivity].
  destruct (apiKey =? "")%string; [left; reflexivity |].
  destruct (JSON_parse (body_text event)) as [parsed |] eqn:Hparse;
    [| left; reflexivity].
  unfold get. destruct (nullish parsed); [left; reflexivity |].
  cbn [or_throw bind].
  destruct (negb (truthy (member parsed "businessType"))
            || negb (truthy (member parsed "city"))); [left; reflexivity |].
  destruct (ToString (member parsed "businessType")) as [bt |] eqn:Hbt;
    [| left; reflexivity].
  destruct (ToString (member parsed "city")) as [c |] eqn:Hc; [| left; reflexivity].
  cbn [or_throw bind run]. fold (query_of bt c).
  rewrite run_bind.
  pose proof (placesTextSearch_trace w apiKey (query_of bt c)) as Hts.
  destruct (run w (placesTextSearch apiKey (query_of bt c)))
    as [ts [e | places]] eqn:Hsearch; simpl in Hts; subst ts.
  - right. exists apiKey, parsed, bt, c, [],
      [ELog "Unhandled error:" (JObj [ ("message", JStr (message e)) ])].
    repeat (split; [first [reflexivity | assumption | constructor] |]).
    now left.
  - rewrite run_bind, run_or_throw.
    destruct (iterate places) as [items |] eqn:Hiter.
    + rewrite run_bind.
      destruct (for_places_trace w
                  (place_result apiKey (member parsed "includeWebsiteEmail"))
                  items []) as (n & Hn & Hloop).
      assert (Hturns :
                Forall (fun tr => tr = []
                                  \/ (truthy (member parsed "includeWebsiteEmail") = true
                                      /\ lookup_trace apiKey tr))
                  (map (fun p => fst (run w (place_result apiKey
                                               (member parsed "includeWebsiteEmail") p)))
                     (firstn n items))).
      { apply Forall_map, Forall_forall. intros p _. apply place_result_trace. }
      assert (Hlast :
                exists places' items',
                  snd (run w (placesTextSearch apiKey (query_of bt c))) = inr places'
                  /\ iterate places' = Some items'
                  /\ length (map (fun p => fst (run w (place_result apiKey
                                               (member parsed "includeWebsiteEmail") p)))
                               (firstn n items)) <= length items').
      { exists places, items. rewrite Hsearch, length_map, length_firstn.
        repeat split; auto. lia. }
      destruct (run w (for_places _ items [])) as [tl [e | results]];
        simpl in Hloop; subst tl; rewrite flat_map_concat_map.
      * right. exists apiKey, parsed, bt, c,
          (map (fun p => fst (run w (place_result apiKey
                                       (member parsed "includeWebsiteEmail") p)))
             (firstn n items)),
          [ELog "Unhandled error:" (JObj [ ("message", JStr (message e)) ])].
        repeat (split; [first [reflexivity | assumption] |]).
        now right.
      * right. exists apiKey, parsed, bt, c,
          (map (fun p => fst (run w (place_result apiKey
                                       (member parsed "includeWebsiteEmail") p)))
             (firstn n items)), [].
        do 4 (split; [first [reflexivity | assumption] |]).
        split; [simpl; now rewrite !app_nil_r |].
        split; [assumption |]. split; [reflexivity |]. now right.
    + right. exists apiKey, parsed, bt, c, [],
        [ELog "Unhandled error:"
           (JObj [ ("message", JStr (message (TypeError "places is not iterable"))) ])].
      repeat (split; [first [reflexivity | assumption | constructor] |]).
      now left.
Qed.

End Effects.

(* ================================================================== *)
(** ** What a run never does *)

Section Invariants.
Context {Num : NumberModel} {H : Host}.

(** What the effects of one lookup amount to. *)
Lemma lookup_trace_facts (apiKey : string) (tr : list Effect) :
  lookup_trace apiKey tr ->
  throttled false tr = true
  /\ length (requests tr) <= 2
  /\ length (sleeps tr) <= 2
  /\ Forall (eq 120) (sleeps tr)
  /\ Forall (sent_by_handler apiKey) (requests tr).
Proof.
  intros (d & f & l & -> & Hd & Hf & Hl).
  destruct (logs_have_no_request l Hl) as [Hrl Hsl].
  pose proof (fun b => throttled_logs l b Hl) as Htl.
  assert (Hrq : requests (ESleep 120 :: d ++ f ++ l)
                = (requests d ++ requests f)%list).
  { simpl. now rewrite !requests_app, Hrl, app_nil_r. }
  assert (Hsq : sleeps (ESleep 120 :: d ++ f ++ l)
                = (120 :: sleeps d ++ sleeps f)%list).
  { simpl. now rewrite !sleeps_app, Hsl, app_nil_r. }
  rewrite Hrq, Hsq.
  destruct Hd as [-> | (id & ->)];
    destruct Hf as [-> | [-> | (u & Hu & ->)]]; simpl; rewrite ?Htl;
    repeat split; auto; try lia;
    repeat (first [apply Forall_nil | apply Forall_cons]);
    try reflexivity;
    try (right; left; eexists; reflexivity);
    try (right; right; eexists; split; [eassumption | reflexivity]).
Qed.

(** What the effects of the turns of the loop amount to. *)
Lemma turns_facts (apiKey : string) (inc : JSValue) (turns : list (list Effect)) :
  Forall (fun tr => tr = [] \/ (truthy inc = true /\ lookup_trace apiKey tr)) turns ->
  throttled false (concat turns) = true
  /\ length (requests (concat turns)) <= 2 * length turns
  /\ length (sleeps (concat turns)) <= 2 * length turns
  /\ Forall (eq 120) (sleeps (concat turns))
  /\ Forall (sent_by_handler apiKey) (requests (concat turns))
  /\ (truthy inc = false -> concat turns = []).
Proof.
  induction 1 as [| tr turns Htr _ IH]; simpl.
  - repeat split; auto.
  - destruct IH as (Ht & Hr & Hs & H120 & Hsent & Hnone).
    rewrite requests_app, sleeps_app, !length_app.
    destruct Htr as [-> | [Hinc Hlookup]]; simpl.
    + repeat split; auto; lia.
    + destruct (lookup_trace_facts apiKey tr Hlookup)
        as (Ht' & Hr' & Hs' & H120' & Hsent').
      repeat split; try lia.
      * now apply throttled_app.
      * now apply Forall_app.
      * now apply Forall_app.
      * congruence.
Qed.

(** X7. In every run of the handler the first request is the search, and
    every request after it -- a detail lookup or the page of a website --
    comes right after a delay of 120 ms; there is no other delay. *)
Theorem lookups_are_throttled (w : World) (API_KEY : option string) (event : Event) :
  let t := fst (run w (handler API_KEY event)) in
  throttled false (after_first_request t) = true
  /\ Forall (eq 120) (sleeps t)
  /\ forall rq rest,
       requests t = rq :: rest ->
       exists apiKey query,
         API_KEY = Some apiKey /\ rq = search_request apiKey query.
Proof.
  intros t. subst t.
  destruct (handler_trace_shape w API_KEY event)
    as [Hlogs | (apiKey & parsed & bt & c & turns & tl & -> & _ & _ & _
                 & -> & Hturns & Htl & _)].
  - destruct (logs_have_no_request _ Hlogs) as [Hr Hs]. rewrite Hr, Hs.
    split; [| split; [constructor | discriminate]].
    clear Hr Hs.
    induction (fst (run w (handler API_KEY event))) as [| e t IH]; [reflexivity |].
    destruct e; simpl in *; try discriminate. auto.
  - destruct (turns_facts apiKey _ turns Hturns) as (Ht & _ & _ & H120 & _).
    destruct (logs_have_no_request tl Htl) as [Hrl Hsl].
    simpl. rewrite sleeps_app, Hsl, app_nil_r.
    split; [| split; [exact H120 |]].
    + apply throttled_app; [exact Ht | now apply throttled_logs].
    + intros rq rest Heq. inversion Heq. eauto.
Qed.

(** X8. Every request of a run is one of three: the search, a detail
    lookup, or the GET of a page whose address starts with [http]; and a
    request that has the header of the credential goes to the provider of
    places, never to a website. *)
Theorem key_goes_to_the_provider_only (w : World) (API_KEY : option string)
    (event : Event) (rq : Request) :
  In rq (requests (fst (run w (handler API_KEY event)))) ->
  exists apiKey,
    API_KEY = Some apiKey
    /\ sent_by_handler apiKey rq
    /\ (carries_key rq = true ->
        startsWith (url rq) "https://places.googleapis.com/v1/places" = true).
Proof.
  intros Hin.
  assert (Hsent : exists apiKey,
             API_KEY = Some apiKey /\ sent_by_handler apiKey rq).
  { destruct (handler_trace_shape w API_KEY event)
      as [Hlogs | (apiKey & parsed & bt & c & turns & tl & -> & _ & _ & _
                   & Heq & Hturns & Htl & _)].
    - destruct (logs_have_no_request _ Hlogs) as [Hr _].
      rewrite Hr in Hin. destruct Hin.
    - rewrite Heq in Hin. simpl in Hin.
      destruct (turns_facts apiKey _ turns Hturns) as (_ & _ & _ & _ & Hsent & _).
      destruct (logs_have_no_request tl Htl) as [Hrl _].
      rewrite requests_app, Hrl, app_nil_r in Hin.
      exists apiKey. split; [reflexivity |].
      destruct Hin as [<- | Hin]; [left; eauto |].
      rewrite Forall_forall in Hsent. auto. }
  destruct Hsent as (apiKey & -> & Hsent).
  exists apiKey. repeat split; auto.
  destruct Hsent as [(q & ->) | [(id & ->) | (u & _ & ->)]].
  - reflexivity.
  - reflexivity.
  - discriminate.
Qed.

(** X9. A valid request that the search provider answers with N places
    costs 1 + 2 N requests and 2 N delays at most, whatever the upstream
    answers and whether the request succeeds or not. *)
Theorem lookups_are_bounded (w : World) (apiKey : string) (event : Event)
    (parsed : JSValue) (businessType city : string) (ps : list JSValue) :
  JSON_parse (body_text event) = Some parsed ->
  member parsed "businessType" = JStr businessType ->
  member parsed "city" = JStr city ->
  search_returns w apiKey (query_of businessType city) ps ->
  let t := fst (run w (handler (Some apiKey) event)) in
  length (requests t) <= 1 + 2 * length ps
  /\ length (sleeps t) <= 2 * length ps.
Proof.
  intros Hparse Hbt Hc Hsearch t. subst t.
  destruct (handler_trace_shape w (Some apiKey) event)
    as [Hlogs | (apiKey' & parsed' & bt & c & turns & tl & Hkey & Hparse' & Hbt' & Hc'
                 & -> & Hturns & Htl & Hlen)].
  - destruct (logs_have_no_request _ Hlogs) as [-> ->]. simpl. lia.
  - inversion Hkey. subst apiKey'.
    rewrite Hparse in Hparse'. inversion Hparse'. subst parsed'.
    rewrite Hbt in Hbt'. rewrite Hc in Hc'. simpl in Hbt', Hc'.
    inversion Hbt'. inversion Hc'. subst bt c.
    destruct (turns_facts apiKey _ turns Hturns) as (_ & Hr & Hs & _).
    destruct (logs_have_no_request tl Htl) as [Hrl Hsl].
    simpl. rewrite requests_app, sleeps_app, Hrl, Hsl, !app_nil_r.
    assert (Hn : length turns <= length ps).
    { destruct Hlen as [-> | (places & items & Hp & Hiter & Hle)]; [simpl; lia |].
      rewrite (run_placesTextSearch _ _ _ _ Hsearch) in Hp. simpl in Hp.
      inversion Hp. subst places. simpl in Hiter. inversion Hiter. now subst. }
    lia.
Qed.

(** X10. When the body does not ask for enrichment -- [includeWebsiteEmail]
    is absent or falsy -- no run sleeps, and none sends any request but the
    search. *)
Theorem no_enrichment_no_lookup (w : World) (API_KEY : option string)
    (event : Event) :
  (forall parsed, JSON_parse (body_text event) = Some parsed ->
                  truthy (member parsed "includeWebsiteEmail") = false) ->
  let t := fst (run w (handler API_KEY event)) in
  length (requests t) <= 1 /\ sleeps t = [].
Proof.
  intros Hinc t. subst t.
  destruct (handler_trace_shape w API_KEY event)
    as [Hlogs | (apiKey & parsed & bt & c & turns & tl & _ & Hparse & _ & _
                 & -> & Hturns & Htl & _)].
  - destruct (logs_have_no_request _ Hlogs) as [-> ->]. simpl. auto.
  - destruct (turns_facts apiKey _ turns Hturns) as (_ & _ & _ & _ & _ & Hnone).
    rewrite (Hnone (Hinc parsed Hparse)).
    destruct (logs_have_no_request tl Htl) as [Hrl Hsl].
    simpl. rewrite Hrl, Hsl. auto.
Qed.

End Invariants.

(* ================================================================== *)
(** ** Further edges *)

Section Edges.
Context {Num : NumberModel} {H : Host}.
Open Scope prog_scope.
Import EmailSpec.

(** X11. A place whose details have no website -- no [websiteUri], a falsy
    one, or a body that is not JSON -- costs one delay and one request: the
    second delay and the extractor are skipped, and [website] and [email]
    are empty. *)
Theorem place_without_website (w : World) (apiKey : string) (id : JSValue)
    (s : string) (resp : Response) (txt : string) :
  ToString id = Some s ->
  w (details_request apiKey s) = FetchResolve resp ->
  ok resp = true ->
  text resp = inr txt ->
  truthy (member (js_or (safeJson txt) (JObj [])) "websiteUri") = false ->
  run w (enrich apiKey id)
  = ([ESleep 120; EFetch (details_request apiKey s)], inr (JStr "", JStr "")).
Proof.
  intros Hs Hw Hok Htxt Hnone.
  rewrite run_enrich_eq.
  unfold placeDetails, fetch, resp_text. rewrite Hs. cbn [or_throw bind run].
  rewrite Hw. cbn [bind]. rewrite Htxt. cbn [bind]. rewrite Hok. cbn [negb run].
  cbv zeta. unfold js_or at 1 3 5. rewrite Hnone. cbn [truthy String.eqb negb].
  unfold js_or at 1. rewrite Hnone. reflexivity.
Qed.

(** What the [try] block of the handler returns is a JSON response with a
    status of the function. *)
Lemma handler_try_responds (w : World) (API_KEY : option string) (event : Event)
    (t : list Effect) (resp : HttpResponse) :
  run w (handler_try API_KEY event) = (t, inr resp) ->
  headers resp = cors_headers /\ known_status (statusCode resp) = true.
Proof.
  unfold handler_try. cbn [console_log bind run].
  destruct API_KEY as [apiKey |].
  2: { simpl. intros Heq. inversion Heq. auto. }
  destruct (apiKey =? "")%string.
  { simpl. intros Heq. inversion Heq. auto. }
  destruct (JSON_parse (body_text event)) as [parsed |].
  2: { simpl. intros Heq. inversion Heq. auto. }
  unfold get. destruct (nullish parsed); [discriminate |].
  cbn [or_throw bind].
  destruct (negb (truthy (member parsed "businessType"))
            || negb (truthy (member parsed "city"))).
  { simpl. intros Heq. inversion Heq. auto. }
  destruct (ToString (member parsed "businessType")) as [bt |]; [| discriminate].
  destruct (ToString (member parsed "city")) as [c |]; [| discriminate].
  cbn [or_throw bind run].
  rewrite run_bind.
  destruct (run w (placesTextSearch apiKey _)) as [t1 [e | places]]; [discriminate |].
  rewrite run_bind, run_or_throw.
  destruct (iterate places) as [items |]; [| discriminate].
  rewrite run_bind.
  destruct (run w (for_places _ items [])) as [t2 [e | results]]; [discriminate |].
  cbn [run]. intros Heq. inversion Heq. auto.
Qed.

(** X12. The handler never throws: whatever the request, the credential
    and the upstream, the run ends in a response, with the CORS headers of
    the function and one of the statuses 200, 204, 400, 405 and 500. *)
Theorem handler_always_responds (w : World) (API_KEY : option string) (event : Event) :
  exists t resp,
    run w (handler API_KEY event) = (t, inr resp)
    /\ headers resp
       = [ ("Access-Control-Allow-Origin", "*");
           ("Access-Control-Allow-Headers", "Content-Type");
           ("Access-Control-Allow-Methods", "POST, OPTIONS");
           ("Content-Type", "application/json; charset=utf-8");
           ("Cache-Control", "no-store") ]
    /\ known_status (statusCode resp) = true.
Proof.
  unfold handler.
  destruct (httpMethod event =? "OPTIONS")%string.
  { eexists _, _. split; [reflexivity |]. auto. }
  destruct (httpMethod event =? "POST")%string; cbn [negb].
  2: { eexists _, _. split; [reflexivity |]. auto. }
  rewrite run_try_catch.
  destruct (run w (handler_try API_KEY event)) as [t [e | resp]] eqn:Htry.
  - eexists _, _. split; [reflexivity |]. auto.
  - exists t, resp. split; [reflexivity |].
    now apply (handler_try_responds w API_KEY event t).
Qed.

Lemma terse_handler_try_responds (w : World) (API_KEY : option string)
    (event : Event) (t : list Effect) (resp : HttpResponse) :
  run w (Terse.handler_try API_KEY event) = (t, inr resp) ->
  headers resp = Terse.cors_headers /\ known_status (statusCode resp) = true.
Proof.
  unfold Terse.handler_try.
  destruct (negb (httpMethod event =? "POST")%string).
  { simpl. intros Heq. inversion Heq. auto. }
  cbv zeta.
  destruct API_KEY as [apiKey |].
  2: { simpl. intros Heq. inversion Heq. auto. }
  destruct (apiKey =? "")%string.
  { simpl. intros Heq. inversion Heq. auto. }
  unfold Terse.parse.
  destruct (JSON_parse (body_text event)) as [parsed |]; [| discriminate].
  cbn [bind].
  unfold get. destruct (nullish parsed); [discriminate |].
  cbn [or_throw bind].
  destruct (negb (truthy (member parsed "businessType"))
            || negb (truthy (member parsed "city"))).
  { simpl. intros Heq. inversion Heq. auto. }
  destruct (ToString (member parsed "businessType")) as [bt |]; [| discriminate].
  destruct (ToString (member parsed "city")) as [c |]; [| discriminate].
  cbn [or_throw bind].
  rewrite run_bind.
  destruct (run w (Terse.placesTextSearch apiKey _)) as [t1 [e | places]];
    [discriminate |].
  rewrite run_bind, run_or_throw.
  destruct (iterate places) as [items |]; [| discriminate].
  rewrite run_bind.
  destruct (run w (for_places _ items [])) as [t2 [e | results]]; [discriminate |].
  cbn [run]. intros Heq. inversion Heq. auto.
Qed.

(** X13. The terser variant never throws either: its run ends in a
    response, with its CORS headers and one of the same statuses. *)
Theorem terse_handler_always_responds (w : World) (API_KEY : option string)
    (event : Event) :
  exists t resp,
    run w (Terse.handler API_KEY event) = (t, inr resp)
    /\ headers resp
       = [ ("Access-Control-Allow-Origin", "*");
           ("Access-Control-Allow-Headers", "Content-Type");
           ("Access-Control-Allow-Methods", "POST, OPTIONS");
           ("Content-Type", "application/json; charset=utf-8") ]
    /\ known_status (statusCode resp) = true.
Proof.
  unfold Terse.handler.
  destruct (httpMethod event =? "OPTIONS")%string.
  { eexists _, _. split; [reflexivity |]. auto. }
  rewrite run_try_catch.
  destruct (run w (Terse.handler_try API_KEY event)) as [t [e | resp]] eqn:Htry.
  - eexists _, _. split; [reflexivity |]. auto.
  - exists t, resp. split; [reflexivity |].
    now apply (terse_handler_try_responds w API_KEY event t).
Qed.

(** X14. What the two patterns return from a page is the empty string or
    an email-shaped token that is written on the page. *)
Theorem extracted_email_is_on_the_page (html : string) :
  exists e,
    email_in html = JStr e
    /\ (e = ""
        \/ (email_shaped (chars e)
            /\ exists pre post, chars html = (pre ++ chars e ++ post)%list)).
Proof.
  unfold email_in.
  pose proof (str_match_mailto html) as Hm.
  destruct (RegExp.str_match html mailto_re) as [arr |].
  - destruct Hm as (n & whole & e & -> & (pre & m & post & Hhtml & _ & _ & He) & _).
    exists e. split; [reflexivity |]. right. split; [exact He |].
    exists (pre ++ m)%list, post. now rewrite <- app_assoc.
  - pose proof (str_match_plain html) as Hp.
    destruct (RegExp.str_match html plain_re) as [arr |].
    + destruct Hp as (n & e & -> & (pre & post & Hhtml & _ & He & _) & _).
      exists e. split; [reflexivity |]. right. split; [exact He |].
      now exists pre, post.
    + exists "". auto.
Qed.

Lemma encode_char_is_safe (c : ascii) : forallb segment_char (encode_char c) = true.
Proof. destruct c as [[] [] [] [] [] [] [] []]; reflexivity. Qed.

(** X15. The identifier of a place goes into the address of the detail
    lookup encoded: after the fixed prefix the address holds unreserved
    characters and percent escapes only, so no slash, question mark, hash or
    ampersand of the identifier gets there. *)
Theorem details_address_is_encoded (apiKey id : string) :
  url (details_request apiKey id)
  = "https://places.googleapis.com/v1/places/" ++ encodeURIComponent id
  /\ forallb segment_char (chars (encodeURIComponent id)) = true
  /\ forallb (fun c => negb (segment_char c)) [ "/"; "?"; "#"; "&" ]%char = true.
Proof.
  split; [reflexivity |]. split; [| reflexivity].
  unfold encodeURIComponent. rewrite chars_of_chars.
  induction (chars id) as [| c l IH]; simpl; [reflexivity |].
  now rewrite forallb_app, encode_char_is_safe, IH.
Qed.

End Edges.

(* ================================================================== *)
(** ** The terser variant and a failing lookup *)

Section TerseLookup.
Context {Num : NumberModel} {H : Host}.
Open Scope prog_scope.




End TerseLookup.

(* ================================================================== *)
(** ** What a response tells *)

Section Telling.
Context {Num : NumberModel} {H : Host}.
Open Scope prog_scope.

Lemma unhandled_explains (e : exn) :
  exists msg, member (unhandled e) "error" = JStr msg /\ msg <> "".
Proof.
  destruct e as [m]. unfold unhandled, js_or. cbn [message truthy member assoc].
  destruct (m =? "")%string eqn:Hm; simpl.
  - exists "Server error". split; [reflexivity | discriminate].
  - exists m. split; [reflexivity |]. now apply String.eqb_neq.
Qed.

(** What the [try] block of the handler returns: the 200 response of a
    search that was made, or a JSON response with an [error]. *)
Lemma handler_try_returns (w : World) (API_KEY : option string) (event : Event)
    (t : list Effect) (resp : HttpResponse) :
  run w (handler_try API_KEY event) = (t, inr resp) ->
  (exists apiKey q results rest,
     API_KEY = Some apiKey
     /\ resp = json cors_headers 200
                 (JObj [ ("query", JStr q);
                         ("count", JNum (number_of_nat (length results)));
                         ("results", JArr results) ])
     /\ t = (ELog "Incoming request:" (incoming event)
             :: ELog "Search query:" (JStr q)
             :: EFetch (search_request apiKey q) :: rest)%list)
  \/ (statusCode resp <> 200
      /\ exists obj msg,
           resp = json cors_headers (statusCode resp) obj
           /\ member obj "error" = JStr msg /\ msg <> "").
Proof.
  unfold handler_try. cbn [console_log bind run].
  assert (Hkey : exists msg, member missing_key "error" = JStr msg /\ msg <> "").
  { eexists. split; [reflexivity | discriminate]. }
  assert (Hjson : exists msg, member invalid_json "error" = JStr msg /\ msg <> "").
  { eexists. split; [reflexivity | discriminate]. }
  assert (Hreq : exists msg, member fields_required "error" = JStr msg /\ msg <> "").
  { eexists. split; [reflexivity | discriminate]. }
  destruct API_KEY as [apiKey |].
  2: { simpl. intros Heq. inversion Heq. right. split; [discriminate |].
       destruct Hkey as (msg & Hm & Hne). now exists missing_key, msg. }
  destruct (apiKey =? "")%string.
  { simpl. intros Heq. inversion Heq. right. split; [discriminate |].
    destruct Hkey as (msg & Hm & Hne). now exists missing_key, msg. }
  destruct (JSON_parse (body_text event)) as [parsed |].
  2: { simpl. intros Heq. inversion Heq. right. split; [discriminate |].
       destruct Hjson as (msg & Hm & Hne). now exists invalid_json, msg. }
  unfold get. destruct (nullish parsed); [discriminate |].
  cbn [or_throw bind].
  destruct (negb (truthy (member parsed "businessType"))
            || negb (truthy (member parsed "city"))).
  { simpl. intros Heq. inversion Heq. right. split; [discriminate |].
    destruct Hreq as (msg & Hm & Hne). now exists fields_required, msg. }
  destruct (ToString (member parsed "businessType")) as [bt |]; [| discriminate].
  destruct (ToString (member parsed "city")) as [c |]; [| discriminate].
  cbn [or_throw bind run]. fold (query_of bt c).
  rewrite run_bind.
  pose proof (placesTextSearch_trace w apiKey (query_of bt c)) as Hts.
  destruct (run w (placesTextSearch apiKey _)) as [t1 [e | places]]; [discriminate |].
  simpl in Hts. subst t1.
  rewrite run_bind, run_or_throw.
  destruct (iterate places) as [items |]; [| discriminate].
  rewrite run_bind.
  destruct (run w (for_places _ items [])) as [t2 [e | results]]; [discriminate |].
  cbn [run]. intros Heq. inversion Heq. subst.
  left. exists apiKey, (query_of bt c), results, (t2 ++ [])%list.
  repeat split; reflexivity.
Qed.

(** X17. Every response that is not a 200 or a 204 is a JSON object with
    an [error] that is a string and is not empty. *)
Theorem error_responses_explain (w : World) (API_KEY : option string)
    (event : Event) (t : list Effect) (resp : HttpResponse) :
  run w (handler API_KEY event) = (t, inr resp) ->
  statusCode resp <> 200 ->
  statusCode resp <> 204 ->
  exists obj msg,
    resp = {| statusCode := statusCode resp; headers := cors_headers;
              resp_body := JSON_stringify obj |}
    /\ member obj "error" = JStr msg
    /\ msg <> "".
Proof.
  unfold handler.
  destruct (httpMethod event =? "OPTIONS")%string.
  { simpl. intros Heq. inversion Heq. subst. simpl. congruence. }
  destruct (httpMethod event =? "POST")%string; cbn [negb].
  2: { simpl. intros Heq _ _. inversion Heq. eexists _, _.
       split; [reflexivity |]. split; [reflexivity | discriminate]. }
  rewrite run_try_catch.
  destruct (run w (handler_try API_KEY event)) as [t0 [e | a]] eqn:Htry.
  - simpl. intros Heq _ _. inversion Heq.
    destruct (unhandled_explains e) as (msg & Hm & Hne).
    now exists (unhandled e), msg.
  - intros Heq H200 _. inversion Heq. subst a t0.
    destruct (handler_try_returns w API_KEY event t resp Htry)
      as [(apiKey & q & results & rest & _ & -> & _) | (_ & Hex)].
    + now contradiction H200.
    + exact Hex.
Qed.


End Telling.

(* ================================================================== *)
(** ** Where a match ends *)

Section Ending.
Context {Num : NumberModel} {H : Host}.
Import RegExp RegExpSpec RegExpFacts EmailSpec EmailFacts.

Lemma letter_is_word_char (x : ascii) : is_letter x = true -> word_char x = true.
Proof. unfold word_char. now intros ->. Qed.

(** A token that ends with letters ends with a character of a word. *)
Lemma ends_with_letters (pre t : list ascii) :
  1 <= length t -> forallb is_letter t = true -> ends_with_word (pre ++ t) = true.
Proof.
  intros Hlen Ht. unfold ends_with_word.
  destruct t as [| y t] using rev_ind; [simpl in Hlen; lia |].
  rewrite app_assoc, rev_app_distr. simpl.
  rewrite forallb_app in Ht. apply andb_true_iff in Ht. destruct Ht as [_ Hy].
  simpl in Hy. rewrite andb_true_r in Hy. now apply letter_is_word_char.
Qed.

(** X19. The address that the two patterns extract from a page is not cut
    short inside its last label: at the place where it was matched -- after
    the [mailto:] of the first link, or at the first bare token -- the page
    does not go on with a letter. *)
Theorem extracted_email_is_not_cut (html e : string) :
  email_in html = JStr e ->
  e <> "" ->
  exists pre post,
    chars html = (pre ++ chars e ++ post)%list
    /\ ((exists n, first_longest (mailto_link_at html) n e /\ length pre = n + 7)
        \/ first_longest (bare_email_at html) (length pre) e)
    /\ match post with
       | x :: _ => is_letter x = false
       | [] => True
       end.
Proof.
  intros Hin Hne.
  destruct (email_in_extracted html) as (e0 & He0 & Hex).
  rewrite Hin in He0. inversion He0. subst e0. clear He0.
  destruct Hex as [(n & Hfirst) | [(_ & n & Hfirst) | (_ & _ & ->)]];
    [| | now contradiction Hne].
  - destruct Hfirst as [Hat Hmax].
    pose proof Hat as (pre & m & post & Hhtml & Hpre & Hm & He).
    exists (pre ++ m)%list, post. split; [now rewrite <- app_assoc |]. split.
    + left. exists n. split; [now split |].
      apply (f_equal (@length ascii)) in Hm. rewrite length_map in Hm. simpl in Hm.
      rewrite length_app. lia.
    + destruct post as [| x post]; [exact I |].
      destruct (is_letter x) eqn:Hx; [exfalso | reflexivity].
      destruct He as (l & d & t & Hchars & Hln & Hl & Hdn & Hd & Htn & Ht).
      destruct (Hmax n (of_chars (chars e ++ [x]))) as [Hlt | [_ Hlen]]; [| lia |].
      * exists pre, m, post. rewrite chars_of_chars, <- app_assoc.
        repeat split; auto.
        exists l, d, (t ++ [x])%list. rewrite Hchars, length_app, forallb_app.
        simpl. rewrite Ht, Hx. repeat split; auto; [| lia].
        rewrite <- app_assoc. simpl. now rewrite <- app_assoc.
      * rewrite <- !length_chars, chars_of_chars, length_app in Hlen. simpl in Hlen. lia.
  - destruct Hfirst as [Hat Hmax].
    pose proof Hat as (pre & post & Hhtml & Hpre & He & _ & Hb).
    exists pre, post. split; [exact Hhtml |]. split.
    + right. subst n. now split.
    + destruct He as (l & d & t & Hchars & _ & _ & _ & _ & Htn & Ht).
      unfold word_boundary in Hb.
      rewrite Hchars in Hb.
      replace (pre ++ l ++ "@"%char :: d ++ "."%char :: t)%list
        with ((pre ++ l ++ "@"%char :: d ++ ["."%char]) ++ t)%list in Hb
        by (rewrite <- !app_assoc; simpl; now rewrite <- app_assoc).
      rewrite ends_with_letters in Hb by (auto; lia).
      destruct post as [| y post]; [exact I |].
      simpl in Hb.
      destruct (is_letter y) eqn:Hy; [| reflexivity].
      now rewrite (letter_is_word_char y Hy) in Hb.
Qed.

End Ending.

(* ================================================================== *)
(** ** The terser variant and a garbled search *)

Section TerseSearch.
Context {Num : NumberModel} {H : Host}.
Open Scope prog_scope.


End TerseSearch.

(* ================================================================== *)
(** ** The further properties at work *)

Module MoreExamples.
Import Mock.

(** A GET is answered 405 and nothing happens. *)
Lemma other_methods_are_turned_away_witness :
  run Sample.all_well
    (handler None {| httpMethod := "GET"; path := None; body := None |})
  = ([], inr (json cors_headers 405
                (JObj [ ("error", JStr "Method not allowed. Use POST.") ]))).
Proof.
  apply (other_methods_are_turned_away Sample.all_well None
           {| httpMethod := "GET"; path := None; body := None |}).
  discriminate.
Defined.

(** A body cut short. *)
Lemma invalid_json_is_400_witness :
  run Sample.all_well (handler Sample.api_key (Sample.post (Some "{oops")))
  = ([ELog "Incoming request:" (incoming (Sample.post (Some "{oops")))],
     inr (json cors_headers 400 invalid_json)).
Proof.
  refine (proj1 (invalid_json_is_400 Sample.all_well "test-key"
                   (Sample.post (Some "{oops")) _ _ _));
    [reflexivity | discriminate | reflexivity].
Defined.

(** The message of the provider is read from the error document. *)
Lemma cleanGoogleError_is_short_witness :
  run search_denied (cleanGoogleError (Sample.to_text denied))
  = ([], inr "API key not valid. Please pass a valid API key.").
Proof.
  destruct (cleanGoogleError_is_short search_denied (Sample.to_text denied))
    as (_ & _ & Hmessage & _).
  apply (Hmessage denied "API key not valid. Please pass a valid API key.");
    [reflexivity | reflexivity | discriminate].
Defined.

(** The search is refused with 403. *)
Lemma search_failure_is_500_witness :
  run search_denied (handler Sample.api_key (search_for true))
  = failed [ ELog "Incoming request:" (incoming (search_for true));
             ELog "Search query:"
               (JStr "kitchen designer in Christchurch, New Zealand");
             EFetch (search_request "test-key"
                       "kitchen designer in Christchurch, New Zealand") ]
      (Error ("Places Text Search failed (403): "
              ++ "API key not valid. Please pass a valid API key.")).
Proof.
  destruct (search_failure_is_500 search_denied "test-key" (search_for true)
              (Sample.request_body "kitchen designer" "Christchurch" true)
              "kitchen designer" "Christchurch")
    as (_ & Hstatus & _);
    [reflexivity | discriminate | reflexivity | reflexivity | discriminate
     | reflexivity | discriminate |].
  destruct (Hstatus
              {| ok := false; status := 403; text := inr (Sample.to_text denied) |}
              (Sample.to_text denied)
              "API key not valid. Please pass a valid API key.")
    as [Hrun _]; [reflexivity | reflexivity | reflexivity | reflexivity |].
  exact Hrun.
Defined.

(** The search answers [places: null]. *)
Lemma no_places_is_an_empty_200_witness :
  run search_null (handler Sample.api_key (search_for true))
  = ([ ELog "Incoming request:" (incoming (search_for true));
       ELog "Search query:" (JStr "kitchen designer in Christchurch, New Zealand");
       EFetch (search_request "test-key"
                 "kitchen designer in Christchurch, New Zealand") ],
     inr (json cors_headers 200
            (JObj [ ("query", JStr "kitchen designer in Christchurch, New Zealand");
                    ("count", JNum 0%Z);
                    ("results", JArr []) ]))).
Proof.
  apply (no_places_is_an_empty_200 search_null "test-key" (search_for true)
           (Sample.request_body "kitchen designer" "Christchurch" true)
           "kitchen designer" "Christchurch"
           {| ok := true; status := 200;
              text := inr (Sample.to_text (JObj [ ("places", JNull) ])) |}
           (Sample.to_text (JObj [ ("places", JNull) ])));
    first [reflexivity | discriminate].
Defined.

(** The second of three places is [null], and no enrichment is asked for. *)
Lemma null_place_is_500_witness :
  run null_place (handler Sample.api_key (search_for false))
  = failed [ ELog "Incoming request:" (incoming (search_for false));
             ELog "Search query:"
               (JStr "kitchen designer in Christchurch, New Zealand");
             EFetch (search_request "test-key"
                       "kitchen designer in Christchurch, New Zealand") ]
      (TypeError "p.id").
Proof.
  apply (null_place_is_500 null_place "test-key" (search_for false)
           (Sample.request_body "kitchen designer" "Christchurch" false)
           "kitchen designer" "Christchurch" [Sample.acme] [Sample.best] JNull);
    try first [reflexivity | discriminate].
  - eexists _, _, _. repeat split; reflexivity.
  - repeat constructor.
Defined.

(** The requests of a run with enrichment. *)
Lemma key_goes_to_the_provider_only_witness :
  exists apiKey,
    Sample.api_key = Some apiKey
    /\ sent_by_handler apiKey (website_request "https://acme.example")
    /\ (carries_key (website_request "https://acme.example") = true ->
        startsWith (url (website_request "https://acme.example"))
          "https://places.googleapis.com/v1/places" = true).
Proof.
  apply (key_goes_to_the_provider_only Sample.all_well Sample.api_key
           (search_for true) (website_request "https://acme.example")).
  change (In (website_request "https://acme.example")
            [ search_request "test-key" "kitchen designer in Christchurch, New Zealand";
              details_request "test-key" "p1";
              website_request "https://acme.example";
              details_request "test-key" "p2";
              website_request "https://best.example" ]).
  right. right. left. reflexivity.
Defined.

(** Three places: seven requests and six delays at most. *)
Lemma lookups_are_bounded_witness :
  length (requests (fst (run Sample.all_well
                           (handler (Some "test-key") (search_for true))))) <= 7
  /\ length (sleeps (fst (run Sample.all_well
                            (handler (Some "test-key") (search_for true))))) <= 6.
Proof.
  apply (lookups_are_bounded Sample.all_well "test-key" (search_for true)
           (Sample.request_body "kitchen designer" "Christchurch" true)
           "kitchen designer" "Christchurch"
           [Sample.acme; Sample.best; Sample.no_id]);
    try reflexivity.
  eexists _, _, _. repeat split; reflexivity.
Defined.

(** No enrichment asked for, though every lookup would succeed. *)
Lemma no_enrichment_no_lookup_witness :
  length (requests (fst (run Sample.all_well
                           (handler Sample.api_key (search_for false))))) <= 1
  /\ sleeps (fst (run Sample.all_well (handler Sample.api_key (search_for false)))) = [].
Proof.
  apply (no_enrichment_no_lookup Sample.all_well Sample.api_key (search_for false)).
  intros parsed Hparse.
  change (Some (Sample.request_body "kitchen designer" "Christchurch" false)
          = Some parsed) in Hparse.
  inversion Hparse. reflexivity.
Defined.

(** The details of the place have an empty [websiteUri]. *)
Lemma place_without_website_witness :
  run no_website (enrich "test-key" (JStr "p1"))
  = ([ESleep 120; EFetch (details_request "test-key" "p1")], inr (JStr "", JStr "")).
Proof.
  apply (place_without_website no_website "test-key" (JStr "p1") "p1"
           {| ok := true; status := 200;
              text := inr (Sample.to_text (Sample.website_of (JStr ""))) |}
           (Sample.to_text (Sample.website_of (JStr ""))));
    reflexivity.
Defined.





(** A request without the credential, and the end-to-end example. *)
Lemma error_responses_explain_witness :
  exists obj msg,
    json cors_headers 500 missing_key = json cors_headers 500 obj
    /\ member obj "error" = JStr msg
    /\ msg <> "".
Proof.
  apply (error_responses_explain Sample.all_well None (search_for true)
           [ELog "Incoming request:" (incoming (search_for true))]
           (json cors_headers 500 missing_key));
    first [reflexivity | discriminate].
Defined.


(** The address of the first page ends before the quote that follows it. *)
Lemma extracted_email_is_not_cut_witness :
  exists pre post,
    chars Sample.acme_page = (pre ++ chars "test@example.com" ++ post)%list
    /\ ((exists n,
           EmailSpec.first_longest (EmailSpec.mailto_link_at Sample.acme_page) n
             "test@example.com"
           /\ length pre = n + 7)
        \/ EmailSpec.first_longest (EmailSpec.bare_email_at Sample.acme_page)
             (length pre) "test@example.com")
    /\ match post with
       | x :: _ => EmailSpec.is_letter x = false
       | [] => True
       end.
Proof.
  apply (extracted_email_is_not_cut Sample.acme_page "test@example.com");
    first [reflexivity | discriminate].
Defined.


(** Two requests that differ in their path and in the text of their body,
    and two upstreams that answer the search alike and differ elsewhere. *)
Lemma handler_is_deterministic_witness :
  let event1 := search_for false in
  let event2 := {| httpMethod := "POST"; path := Some "/api/search";
                   body := Some (Sample.to_text reordered) |} in
  body event1 <> body event2
  /\ Sample.one_place (website_request "https://acme.example")
     <> Sample.one_place_and_a_site (website_request "https://acme.example")
  /\ exists t1 t2 resp,
       run Sample.one_place (handler Sample.api_key event1) = (t1, inr resp)
       /\ run Sample.one_place_and_a_site (handler Sample.api_key event2)
          = (t2, inr resp)
       /\ tl t1 = tl t2.
Proof.
  split; [intros Heq; vm_compute in Heq; discriminate |].
  split; [discriminate |].
  apply (handler_is_deterministic Sample.one_place Sample.one_place_and_a_site
           Sample.api_key (search_for false)
           {| httpMethod := "POST"; path := Some "/api/search";
              body := Some (Sample.to_text reordered) |}).
  - split; [reflexivity |].
    intros k [<- | [<- | [<- | []]]]; reflexivity.
  - intros rq Hin.
    change (In rq [search_request "test-key"
                     "kitchen designer in Christchurch, New Zealand"]) in Hin.
    destruct Hin as [<- | []]. reflexivity.
Defined.

(** A run with enrichment over three places. *)
Lemma lookups_are_throttled_witness :
  let t := fst (run Sample.all_well (handler Sample.api_key (search_for true))) in
  throttled false (after_first_request t) = true
  /\ Forall (eq 120) (sleeps t)
  /\ forall rq rest,
       requests t = rq :: rest ->
       exists apiKey query,
         Sample.api_key = Some apiKey /\ rq = search_request apiKey query.
Proof.
  apply (lookups_are_throttled Sample.all_well Sample.api_key (search_for true)).
Defined.

End MoreExamples.
